(** * T-shirt design extractor: the image processing pipeline

    A shallow embedding of the pipeline's services
    (CanvasUtility, PatternExtractor, RemoveBgService, ErrorRecovery and
    ImageProcessorService) together with the properties stated about them.

    Conventions of the embedding.
    - A JavaScript number is a [JsNum]: [NaN], the two infinities, or a
      finite value, held as the rational it denotes.  Where the source
      scales a dimension ([resizeImage]), the product and the quotient are
      those of doubles: the exact result rounded to the nearest double, a
      tie going to the even mantissa ([js_mul], [js_div]); comparisons and
      [Math.round] are exact.  The densities of PatternExtractor, each the
      quotient of two counts that is only compared with a threshold, are
      held exactly.
    - Counts (attempts, sizes, indices) are natural numbers, delays and
      timestamps are integers, and the configurable constants have the
      values they take when no environment variable overrides them.
    - A value thrown by the source is a [JsError]: an [Error] object with
      the optional fields the services attach to it.
    - Everything outside the services (the clock, file readers, the image
      decoder, the HTTP client) is an oracle of the environment [Env];
      the services thread a [World] that counts what they did to it.
    - An asynchronous method is a computation in the monad [M]: it takes
      the state and gives back an [Outcome] and the state it leaves, also
      when it throws. *)

From Stdlib Require Import ZArith QArith Qround Qabs Qpower List String Bool Lia
  Arith.
From Stdlib Require Import DecimalString Lqa.
Import ListNotations.

Local Open Scope string_scope.

(** ** JavaScript values *)

Inductive JsNum : Type :=
| NaN
| PosInf
| NegInf
| Fin (q : Q).

Inductive JsVal : Type :=
| VUndefined
| VNull
| VBool (b : bool)
| VNum (n : JsNum)
| VStr (s : string).

(** [typeof v === 'number'] *)
Definition typeof_number (v : JsVal) : bool :=
  match v with VNum _ => true | _ => false end.

(** [isFinite(v)] on a value already known to be a number. *)
Definition isFinite (v : JsVal) : bool :=
  match v with VNum (Fin _) => true | _ => false end.

(** [v <= 0] on a value already known to be a number; every comparison
    with [NaN] is false. *)
Definition js_le0 (v : JsVal) : bool :=
  match v with
  | VNum (Fin q) => Qle_bool q 0
  | VNum NegInf => true
  | _ => false
  end.

(** The rational held by a finite number (0 for anything else; the callers
    below read it only behind an [isFinite] guard). *)
Definition numOf (v : JsVal) : Q :=
  match v with VNum (Fin q) => q | _ => 0 end.

(** [Math.round] on a finite number: the nearest integer, ties going up. *)
Definition Math_round (x : Q) : Q := inject_Z (Qfloor (x + (1 # 2))).

Definition Qgtb (a b : Q) : bool := negb (Qle_bool a b).

(** ** Double-precision arithmetic

    The doubles are the numbers [m * 2^k] with a mantissa [m] of at most 53
    bits and an exponent [k] from -1074 on.  The numbers of a binade
    [2^e <= x < 2^(e+1)] are spaced [2^(e-52)] apart, and no finer than
    [2^-1074] (the subnormal numbers). *)

Definition pow2 (e : Z) : Q := (2 ^ e)%Q.

(** The [e] with [2^e <= x < 2^(e+1)], for a positive [x]. *)
Definition binade (x : Q) : Z :=
  let e0 := (Z.log2 (Qnum x) - Z.log2 (Zpos (Qden x)))%Z in
  if Qle_bool (pow2 e0) x then e0 else (e0 - 1)%Z.

(** The nearest integer, a tie going to the even one. *)
Definition roundHalfEven (y : Q) : Z :=
  let f := Qfloor y in
  match (y - inject_Z f ?= 1 # 2)%Q with
  | Lt => f
  | Gt => (f + 1)%Z
  | Eq => if Z.even f then f else (f + 1)%Z
  end.

(** The exponent of the spacing of the doubles around [x]. *)
Definition ulpExponent (x : Q) : Z :=
  Z.max (binade (Qabs x) - 52) (-1074).

(** The double nearest to [x].  A result from [2^1024] on would be an
    infinity; the code below only divides a number by a larger one and
    multiplies by such a quotient, so its results never exceed its
    operands. *)
Definition roundDouble (x : Q) : Q :=
  let u := pow2 (ulpExponent x) in
  (inject_Z (roundHalfEven (x / u)) * u)%Q.

(** [a * b] and [a / b] on doubles. *)
Definition js_mul (a b : Q) : Q := roundDouble (a * b)%Q.

Definition js_div (a b : Q) : Q := roundDouble (a / b)%Q.

(** ** Thrown values and results *)

Record JsError : Type := mkError {
  err_message : string;
  err_type : option string;
  err_code : option string;
  err_details : option string;
  err_retryable : option bool
}.

(** [new Error(message)]: no classification fields. *)
Definition plainError (message : string) : JsError :=
  mkError message None None None None.

(** The outcome of a call: a returned value, a thrown error, or the
    [throw lastError] of a retry loop that never assigned [lastError]. *)
Inductive Outcome (A : Type) : Type :=
| Return (a : A)
| Throw (e : JsError)
| ThrowUndefined.

Arguments Return {A} a.
Arguments Throw {A} e.
Arguments ThrowUndefined {A}.

(** Truthiness of an optional string field ([undefined] and the empty
    string are falsy) and of an optional boolean field. *)
Definition truthy_str (o : option string) : bool :=
  match o with
  | Some s => negb (String.eqb s "")
  | None => false
  end.

Definition truthy_bool (o : option bool) : bool :=
  match o with Some b => b | None => false end.

(** A destructuring or parameter default: it applies to [undefined] only. *)
Definition dflt {T} (o : option T) (d : T) : T :=
  match o with Some v => v | None => d end.

(** An own property of an options object handed to the services: not
    there, or there with the value [undefined], [null], or a value of the
    documented type. *)
Inductive Given (T : Type) : Type :=
| Absent
| Undefined
| Null
| Is (v : T).

Arguments Absent {T}.
Arguments Undefined {T}.
Arguments Null {T}.
Arguments Is {T} v.

(** The variable that a destructuring pattern with a default binds: the
    default stands in for a missing property and for [undefined]; [null]
    ([None]) stays. *)
Definition bound {T} (p : Given T) (d : T) : option T :=
  match p with
  | Absent | Undefined => Some d
  | Null => None
  | Is v => Some v
  end.

(** [String(value)], as [FormData.append] applies it to a string or
    [null]. *)
Definition asString (o : option string) : string :=
  match o with Some s => s | None => "null" end.

(** Decimal rendering of a number inside a template string. *)
Definition show_Z (z : Z) : string := NilZero.string_of_int (Z.to_int z).

(** ** Constants *)

Module Constants.

Definition UPLOAD_ERROR := "UPLOAD_ERROR".
Definition PROCESSING_ERROR := "PROCESSING_ERROR".
Definition API_ERROR := "API_ERROR".
Definition NETWORK_ERROR := "NETWORK_ERROR".

Definition INVALID_TYPE := "INVALID_TYPE".
Definition FILE_TOO_LARGE := "FILE_TOO_LARGE".
Definition FILE_CORRUPTED := "FILE_CORRUPTED".
Definition CANVAS_ERROR := "CANVAS_ERROR".
Definition IMAGE_LOAD_ERROR := "IMAGE_LOAD_ERROR".
Definition API_KEY_INVALID := "API_KEY_INVALID".
Definition API_QUOTA_EXCEEDED := "API_QUOTA_EXCEEDED".
Definition API_SERVICE_UNAVAILABLE := "API_SERVICE_UNAVAILABLE".
Definition API_BAD_REQUEST := "API_BAD_REQUEST".
Definition NETWORK_TIMEOUT := "NETWORK_TIMEOUT".
Definition NETWORK_OFFLINE := "NETWORK_OFFLINE".

(** [ERROR_MESSAGES[code]]; [None] is [undefined]. *)
Definition ERROR_MESSAGES (code : string) : option string :=
  if String.eqb code INVALID_TYPE then
    Some "文件类型不支持，请上传 JPG、PNG 或 WebP 格式的图片"
  else if String.eqb code FILE_TOO_LARGE then
    Some "文件太大，请上传小于 10MB 的图片"
  else if String.eqb code FILE_CORRUPTED then
    Some "文件已损坏，请尝试其他图片"
  else if String.eqb code CANVAS_ERROR then
    Some "图片处理失败，请重试"
  else if String.eqb code IMAGE_LOAD_ERROR then
    Some "图片加载失败，请重试或尝试其他图片"
  else if String.eqb code API_KEY_INVALID then
    Some "API密钥无效，请联系管理员"
  else if String.eqb code API_QUOTA_EXCEEDED then
    Some "API配额已用完，请联系管理员"
  else if String.eqb code API_SERVICE_UNAVAILABLE then
    Some "服务暂时不可用，请稍后重试"
  else if String.eqb code API_BAD_REQUEST then
    Some "无法识别图片中的T恤图案，请尝试更清晰的照片"
  else if String.eqb code NETWORK_TIMEOUT then
    Some "网络请求超时，请检查网络后重试"
  else if String.eqb code NETWORK_OFFLINE then
    Some "网络连接失败，请检查网络后重试"
  else None.

(** The message of a code that is in the table. *)
Definition messageOf (code : string) : string :=
  match ERROR_MESSAGES code with Some m => m | None => "" end.

Definition MAX_IMAGE_WIDTH : Z := 2000.
Definition MAX_IMAGE_HEIGHT : Z := 2000.
Definition OUTPUT_FORMAT := "image/png".
Definition PNG_QUALITY : Q := 95 # 100.

Definition MAX_ATTEMPTS : nat := 3.
Definition INITIAL_DELAY : Z := 1000.
Definition BACKOFF_MULTIPLIER : Z := 2.
Definition API_TIMEOUT : Z := 30000.
Definition REMOVE_BG_API_ENDPOINT := "https://api.remove.bg/v1.0/removebg".

Definition ENABLE_PATTERN_EXTRACTION : bool := true.
Definition PATTERN_PADDING : Z := 20.

Definition MAX_CACHE_SIZE : nat := 10.
Definition CACHE_EXPIRATION_TIME : Z := 60 * 60 * 1000.

Definition HTTP_OK : Z := 200.
Definition HTTP_BAD_REQUEST : Z := 400.
Definition HTTP_UNAUTHORIZED : Z := 401.
Definition HTTP_PAYMENT_REQUIRED : Z := 402.
Definition HTTP_FORBIDDEN : Z := 403.
Definition HTTP_NOT_FOUND : Z := 404.
Definition HTTP_TOO_MANY_REQUESTS : Z := 429.
Definition HTTP_INTERNAL_SERVER_ERROR : Z := 500.
Definition HTTP_SERVICE_UNAVAILABLE : Z := 503.

Definition ASPECT_RATIO_TOLERANCE : Q := 1 # 100.

End Constants.

(** ** PatternExtractor *)

Module PatternExtractor.

(** The [ImageData] read back from the temporary canvas: interleaved
    RGBA bytes, row by row. *)
Record ImageData : Type := mkImageData {
  id_width : nat;
  id_height : nat;
  id_data : list Z
}.

Record Bounds : Type := mkBounds {
  b_left : Z; b_top : Z; b_right : Z; b_bottom : Z
}.

(** What a cropping entry point hands back: the temporary canvas with the
    whole image, or a new canvas holding the given source rectangle. *)
Inductive CropResult : Type :=
| Uncropped (width height : Z)
| Cropped (left top width height : Z).

Definition pixel (pixels : list Z) (index : nat) : Z := nth index pixels 0%Z.

Record Color : Type := mkColor { c_r : Z; c_g : Z; c_b : Z }.

Definition Color_eqb (a b : Color) : bool :=
  (c_r a =? c_r b)%Z && (c_g a =? c_g b)%Z && (c_b a =? c_b b)%Z.

(** [for (i = 0; i < n; i += step)] *)
Definition strided (n step : nat) : list nat :=
  filter (fun i => Nat.eqb (i mod step) 0) (seq 0 n).

(** [colorCounts[key] = (colorCounts[key] || 0) + 1] on an object whose
    keys keep their insertion order. *)
Fixpoint bump (key : Color) (counts : list (Color * Z)) : list (Color * Z) :=
  match counts with
  | [] => [(key, 1%Z)]
  | (k, n) :: rest =>
      if Color_eqb k key then (k, (n + 1)%Z) :: rest
      else (k, n) :: bump key rest
  end.

Definition _detectDominantColor (pixels : list Z) (width height : nat) : Color :=
  let sampleRate := 10%nat in
  let colorCounts :=
    fold_left (fun counts y =>
      fold_left (fun counts x =>
        let index := ((y * width + x) * 4)%nat in
        let alpha := pixel pixels (index + 3) in
        if (200 <? alpha)%Z then
          let r := (pixel pixels index / 32 * 32)%Z in
          let g := (pixel pixels (index + 1) / 32 * 32)%Z in
          let b := (pixel pixels (index + 2) / 32 * 32)%Z in
          bump (mkColor r g b) counts
        else counts)
        (strided width sampleRate) counts)
      (strided height sampleRate) [] in
  snd (fold_left (fun '(maxCount, dominant) '(key, count) =>
                    if (maxCount <? count)%Z then (count, key)
                    else (maxCount, dominant))
                 colorCounts (0%Z, mkColor 0 0 0)).

(** The square of [_colorDistance]; the source compares the root with
    30, which is the comparison of the square with 900. *)
Definition _colorDistanceSq (color1 color2 : Color) : Z :=
  let dr := (c_r color1 - c_r color2)%Z in
  let dg := (c_g color1 - c_g color2)%Z in
  let db := (c_b color1 - c_b color2)%Z in
  (dr * dr + dg * dg + db * db)%Z.

(** The running [minX, minY, maxX, maxY, hasContent] of a scan. *)
Record Scan : Type := mkScan {
  minX : Z; minY : Z; maxX : Z; maxY : Z; hasContent : bool
}.

Definition scanInit (width height : nat) : Scan :=
  mkScan (Z.of_nat width) (Z.of_nat height) 0 0 false.

Definition scanHit (s : Scan) (x y : nat) : Scan :=
  mkScan (Z.min (minX s) (Z.of_nat x)) (Z.min (minY s) (Z.of_nat y))
         (Z.max (maxX s) (Z.of_nat x)) (Z.max (maxY s) (Z.of_nat y)) true.

Definition scanPixels (width height : nat) (isContent : nat -> bool) : Scan :=
  fold_left (fun s y =>
    fold_left (fun s x =>
      let index := ((y * width + x) * 4)%nat in
      if isContent index then scanHit s x y else s)
      (seq 0 width) s)
    (seq 0 height) (scanInit width height).

Definition scanBounds (s : Scan) : option Bounds :=
  if hasContent s
  then Some (mkBounds (minX s) (minY s) (maxX s + 1) (maxY s + 1))
  else None.

Definition _detectPatternBoundsBasic
    (pixels : list Z) (width height : nat) (threshold : Z) : option Bounds :=
  scanBounds
    (scanPixels width height
       (fun index => (threshold <? pixel pixels (index + 3))%Z)).

Definition _detectPatternBounds
    (pixels : list Z) (width height : nat) (threshold : Z) : option Bounds :=
  let dominantColor := _detectDominantColor pixels width height in
  let s :=
    scanPixels width height
      (fun index =>
         (threshold <? pixel pixels (index + 3))%Z
         && (30 * 30 <?
             _colorDistanceSq
               (mkColor (pixel pixels index) (pixel pixels (index + 1))
                        (pixel pixels (index + 2)))
               dominantColor)%Z) in
  if hasContent s then scanBounds s
  else _detectPatternBoundsBasic pixels width height threshold.

(** The padded rectangle both entry points crop to. *)
Definition cropTo (width height : nat) (bounds : Bounds) (padding : Z)
  : CropResult :=
  let left := Z.max 0 (b_left bounds - padding) in
  let top := Z.max 0 (b_top bounds - padding) in
  let right := Z.min (Z.of_nat width) (b_right bounds + padding) in
  let bottom := Z.min (Z.of_nat height) (b_bottom bounds + padding) in
  Cropped left top (right - left) (bottom - top).

Definition extractPattern (image : ImageData) (padding threshold : Z)
  : CropResult :=
  match _detectPatternBounds (id_data image) (id_width image)
                             (id_height image) threshold with
  | None => Uncropped (Z.of_nat (id_width image)) (Z.of_nat (id_height image))
  | Some bounds => cropTo (id_width image) (id_height image) bounds padding
  end.

(** Default options of [extractPattern] and [smartCrop]. *)
Definition default_padding : Z := 20.
Definition default_threshold : Z := 10.
Definition default_densityThreshold : Q := 5 # 100.

Definition countOpaque (pixels : list Z) (indices : list nat) : Z :=
  fold_left (fun opaquePixels index =>
               if (10 <? pixel pixels (index + 3))%Z
               then (opaquePixels + 1)%Z else opaquePixels)
            indices 0%Z.

Definition _calculateRowDensity (pixels : list Z) (width height : nat)
  : list Q :=
  map (fun y =>
         inject_Z (countOpaque pixels
                     (map (fun x => ((y * width + x) * 4)%nat) (seq 0 width)))
         / inject_Z (Z.of_nat width))
      (seq 0 height).

Definition _calculateColumnDensity (pixels : list Z) (width height : nat)
  : list Q :=
  map (fun x =>
         inject_Z (countOpaque pixels
                     (map (fun y => ((y * width + x) * 4)%nat) (seq 0 height)))
         / inject_Z (Z.of_nat height))
      (seq 0 width).

(** [for (i = from; i < density.length; i++) if (density[i] > threshold)
    { found = i; break; }], with [fuel] the iterations left. *)
Fixpoint scanUp (density : list Q) (threshold : Q) (fuel i : nat)
  : option nat :=
  match fuel with
  | O => None
  | S fuel' =>
      if Qgtb (nth i density 0) threshold then Some i
      else scanUp density threshold fuel' (S i)
  end.

(** [for (i = n - 1; i >= 0; i--) if (density[i] > threshold)
    { found = i; break; }] *)
Fixpoint scanDown (density : list Q) (threshold : Q) (n : nat) : option nat :=
  match n with
  | O => None
  | S i =>
      if Qgtb (nth i density 0) threshold then Some i
      else scanDown density threshold i
  end.

Definition _findContentBounds (rowDensity colDensity : list Q) (threshold : Q)
  : option Bounds :=
  let top :=
    match scanUp rowDensity threshold (List.length rowDensity) 0 with
    | Some i => Z.of_nat i | None => 0%Z end in
  let bottom :=
    match scanDown rowDensity threshold (List.length rowDensity) with
    | Some i => (Z.of_nat i + 1)%Z
    | None => (Z.of_nat (List.length rowDensity) - 1)%Z end in
  let left :=
    match scanUp colDensity threshold (List.length colDensity) 0 with
    | Some i => Z.of_nat i | None => 0%Z end in
  let right :=
    match scanDown colDensity threshold (List.length colDensity) with
    | Some i => (Z.of_nat i + 1)%Z
    | None => (Z.of_nat (List.length colDensity) - 1)%Z end in
  if (bottom <=? top)%Z || (right <=? left)%Z then None
  else Some (mkBounds left top right bottom).

Definition smartCrop (image : ImageData) (densityThreshold : Q) (padding : Z)
  : CropResult :=
  let pixels := id_data image in
  let rowDensity := _calculateRowDensity pixels (id_width image) (id_height image) in
  let colDensity := _calculateColumnDensity pixels (id_width image) (id_height image) in
  match _findContentBounds rowDensity colDensity densityThreshold with
  | None => extractPattern image padding default_threshold
  | Some bounds => cropTo (id_width image) (id_height image) bounds padding
  end.

End PatternExtractor.

(** ** The environment and the world *)

(** A decoded image, by its two dimensions. *)
Record Image : Type := mkImage { img_width : Z; img_height : Z }.

(** A canvas, by the two dimensions it holds: whole numbers from 0 to
    2147483647. *)
Record Canvas : Type := mkCanvas { canvas_width : Q; canvas_height : Q }.

(** The conversion of a number to the [unsigned long] of a DOM attribute:
    the fraction is dropped and the rest taken modulo 2^32. *)
Definition toUnsignedLong (q : Q) : Z :=
  ((if Qle_bool 0 q then Qfloor q else Qceiling q) mod 2 ^ 32)%Z.

(** What [canvas.width = value] (default 300) and [canvas.height = value]
    (default 150) leave in the element: a value above 2147483647 is
    replaced by the default. *)
Definition assignedDimension (default : Z) (value : Q) : Q :=
  let v := toUnsignedLong value in
  inject_Z (if (2147483647 <? v)%Z then default else v).

Record Blob : Type := mkBlob { blob_bytes : string; blob_type : string }.

Definition blob_size (b : Blob) : nat := String.length (blob_bytes b).

(** A [File] is a [Blob] with a name and a modification time. *)
Record File : Type := mkFile {
  file_blob : Blob;
  file_name : string;
  file_lastModified : Z
}.

Definition file_size (f : File) : nat := blob_size (file_blob f).
Definition file_type (f : File) : string := blob_type (file_blob f).

Inductive FormValue : Type :=
| FBlob (b : Blob)
| FStr (s : string).

Definition FormData : Type := list (string * FormValue).

(** What the HTTP client does with a POST: it resolves with a response
    whose [data] is a [Blob] or something else, or it rejects with an
    error that carries a response, only a request, or neither. *)
Inductive PostOutcome : Type :=
| Resolved (data : option Blob)
| RejectedResponse (status : Z)
| RejectedNoResponse
| RejectedSetup (message : string).

Record Env : Type := mkEnv {
  (** the value of the n-th [Date.now()] *)
  clock : nat -> Z;
  (** the answer to the n-th POST *)
  httpPost : nat -> string -> FormData -> PostOutcome;
  (** [FileReader.readAsDataURL]; [None] is [onerror] *)
  readAsDataURL : Blob -> option string;
  (** decoding an image from a data URL; [None] is [onerror] *)
  decodeImage : string -> option Image;
  (** [canvas.toBlob]; [None] is the [null] blob *)
  canvasToBlob : Canvas -> string -> Q -> option Blob
}.

(** What the services have done to the world so far. *)
Record World : Type := mkWorld {
  w_ticks : nat;          (* reads of the clock *)
  w_reads : nat;          (* files and blobs read through a FileReader *)
  w_invocations : nat;    (* calls of the API service's removeBackground *)
  w_requests : nat;       (* POSTs issued *)
  w_sleeps : list Z       (* delays slept, oldest first *)
}.

Definition world0 : World := mkWorld 0 0 0 0 [].

(** ** A state-and-exception monad for the asynchronous methods *)

Definition M (St A : Type) : Type := St -> Outcome A * St.

Definition ret {St A} (a : A) : M St A := fun s => (Return a, s).

Definition throw {St A} (e : JsError) : M St A := fun s => (Throw e, s).

Definition bind {St A B} (m : M St A) (k : A -> M St B) : M St B :=
  fun s =>
    match m s with
    | (Return a, s') => k a s'
    | (Throw e, s') => (Throw e, s')
    | (ThrowUndefined, s') => (ThrowUndefined, s')
    end.

(** Reading a property of [undefined] inside a [catch] block. *)
Definition typeErrorOfUndefined : JsError :=
  plainError "Cannot read properties of undefined".

(** [try { m } catch (error) { handler(error) }] *)
Definition tryCatch {St A} (m : M St A) (handler : option JsError -> M St A)
  : M St A :=
  fun s =>
    match m s with
    | (Return a, s') => (Return a, s')
    | (Throw e, s') => handler (Some e) s'
    | (ThrowUndefined, s') => handler None s'
    end.

Declare Scope js_scope.
Delimit Scope js_scope with js.
Notation "x <- m ;; k" := (bind m (fun x => k))
  (at level 61, m at next level, right associativity) : js_scope.
Notation "m ;;; k" := (bind m (fun _ => k))
  (at level 61, right associativity) : js_scope.

(** ** Retry loops

    Both retry loops are [for (attempt = 1; attempt <= max; attempt++)]
    around one call of the operation.  The operation is a closure over the
    world; [operation k] is what its k-th call (from 0) in this run does.
    A run reports its outcome, how often it called the operation, and the
    delays it slept. *)

Record RetryRun (A : Type) : Type := mkRun {
  run_outcome : Outcome A;
  run_calls : nat;
  run_sleeps : list Z
}.

Arguments mkRun {A}.
Arguments run_outcome {A}.
Arguments run_calls {A}.
Arguments run_sleeps {A}.

(** [initialDelay * Math.pow(backoffMultiplier, attempt - 1)] *)
Definition backoffDelay (initialDelay backoffMultiplier : Z) (attempt : nat) : Z :=
  (initialDelay * backoffMultiplier ^ Z.of_nat (attempt - 1))%Z.

(** The delays a run sleeps when it goes through all [n] attempts: one
    before each of the attempts 2, ..., [n]. *)
Definition backoffSchedule (initialDelay backoffMultiplier : Z) (n : nat)
  : list Z :=
  map (backoffDelay initialDelay backoffMultiplier) (seq 1 (n - 1)).

Definition throwLast {A} (lastError : option JsError) : Outcome A :=
  match lastError with
  | Some e => Throw e
  | None => ThrowUndefined
  end.

(** ** CanvasUtility *)

Module CanvasUtility.
Import Constants.

(** What the caller hands in as [image]: an [HTMLImageElement] or
    anything else ([null], [undefined], other objects). *)
Inductive ImageArg : Type :=
| NotAnImage
| AnImage (img : Image).

Definition createCanvas (width height : JsVal) : Outcome Canvas :=
  if negb (typeof_number width) || negb (typeof_number height)
     || js_le0 width || js_le0 height
     || negb (isFinite width) || negb (isFinite height)
  then Throw (plainError (messageOf CANVAS_ERROR))
  else Return (mkCanvas (assignedDimension 300 (numOf width))
                        (assignedDimension 150 (numOf height))).

Definition resizeImage (image : ImageArg) (maxWidth maxHeight : JsVal)
  : Outcome Canvas :=
  match image with
  | NotAnImage => Throw (plainError (messageOf IMAGE_LOAD_ERROR))
  | AnImage img =>
    if negb (typeof_number maxWidth) || negb (typeof_number maxHeight)
       || js_le0 maxWidth || js_le0 maxHeight
       || negb (isFinite maxWidth) || negb (isFinite maxHeight)
    then Throw (plainError (messageOf CANVAS_ERROR))
    else
      let mw := numOf maxWidth in
      let mh := numOf maxHeight in
      let width := inject_Z (img_width img) in
      let height := inject_Z (img_height img) in
      if Qle_bool width mw && Qle_bool height mh
      then createCanvas (VNum (Fin width)) (VNum (Fin height))
      else
        (* first, fit by width *)
        let '(width, height) :=
          if Qgtb width mw
          then let ratio := js_div mw width in
               (mw, Math_round (js_mul height ratio))
          else (width, height) in
        (* then, check the height *)
        let '(width, height) :=
          if Qgtb height mh
          then let ratio := js_div mh height in
               (Math_round (js_mul width ratio), mh)
          else (width, height) in
        createCanvas (VNum (Fin width)) (VNum (Fin height))
  end.

(** [loadImage(dataUrl)] with a string argument: the empty string is
    rejected up front, anything else goes to the decoder. *)
Definition loadImage {St} (env : Env) (dataUrl : string) : M St Image :=
  if String.eqb dataUrl ""
  then throw (plainError (messageOf IMAGE_LOAD_ERROR))
  else match decodeImage env dataUrl with
       | Some img => ret img
       | None => throw (plainError (messageOf IMAGE_LOAD_ERROR))
       end.

Definition imageToBlob {St} (env : Env) (canvas : Canvas) (format : string)
    (quality : Q) : M St Blob :=
  if negb (String.prefix "image/" format)
  then throw (plainError (messageOf CANVAS_ERROR))
  else if Qgtb 0 quality || Qgtb quality 1
  then throw (plainError (messageOf CANVAS_ERROR))
  else match canvasToBlob env canvas format quality with
       | Some blob => ret blob
       | None => throw (plainError (messageOf CANVAS_ERROR))
       end.

End CanvasUtility.

(** ** RemoveBgService *)

Module RemoveBgService.
Import Constants.

(** The [config] argument of the constructor, its counts whole numbers
    from 0 on.  Any other number as [maxRetries] is covered by
    [keptMaxRetries] and [executeWithRetryUnder] below. *)
Record Config : Type := mkConfig {
  cfg_endpoint : option string;
  cfg_timeout : option Z;
  cfg_maxRetries : option nat;
  cfg_initialDelay : option Z;
  cfg_backoffMultiplier : option Z
}.

Definition noConfig : Config := mkConfig None None None None None.

Record Service : Type := mkService {
  apiKey : string;
  endpoint : string;
  timeout : Z;
  maxRetries : nat;
  initialDelay : Z;
  backoffMultiplier : Z
}.

(** [value || fallback] on an optional string, count or number. *)
Definition orStr (o : option string) (d : string) : string :=
  match o with
  | Some s => if String.eqb s "" then d else s
  | None => d
  end.

Definition orNat (o : option nat) (d : nat) : nat :=
  match o with
  | Some O => d
  | Some n => n
  | None => d
  end.

Definition orZ (o : option Z) (d : Z) : Z :=
  match o with
  | Some 0%Z => d
  | Some z => z
  | None => d
  end.

Definition constructor (apiKey : string) (config : Config) : Outcome Service :=
  if String.eqb apiKey ""
  then Throw (plainError "API key is required for RemoveBgService")
  else Return (mkService apiKey
                 (orStr (cfg_endpoint config) REMOVE_BG_API_ENDPOINT)
                 (orZ (cfg_timeout config) API_TIMEOUT)
                 (orNat (cfg_maxRetries config) MAX_ATTEMPTS)
                 (orZ (cfg_initialDelay config) INITIAL_DELAY)
                 (orZ (cfg_backoffMultiplier config) BACKOFF_MULTIPLIER)).

Definition _createError (type code details : string) (retryable : bool)
  : JsError :=
  mkError (match ERROR_MESSAGES code with Some m => m | None => details end)
          (Some type) (Some code) (Some details) (Some retryable).

Definition _handleApiError (status : Z) : JsError :=
  if (status =? HTTP_BAD_REQUEST)%Z then
    _createError API_ERROR API_BAD_REQUEST
      "Invalid image or request parameters" false
  else if (status =? HTTP_UNAUTHORIZED)%Z || (status =? HTTP_FORBIDDEN)%Z then
    _createError API_ERROR API_KEY_INVALID
      "Invalid or missing API key" false
  else if (status =? HTTP_PAYMENT_REQUIRED)%Z
          || (status =? HTTP_TOO_MANY_REQUESTS)%Z then
    _createError API_ERROR API_QUOTA_EXCEEDED
      "API quota exceeded or payment required" false
  else if (status =? HTTP_INTERNAL_SERVER_ERROR)%Z
          || (status =? HTTP_SERVICE_UNAVAILABLE)%Z then
    _createError API_ERROR API_SERVICE_UNAVAILABLE
      "API service temporarily unavailable" true
  else
    _createError API_ERROR API_SERVICE_UNAVAILABLE
      ("API error: " ++ show_Z status)
      (500 <=? status)%Z.

Section ExecuteWithRetry.
Context {A : Type}.
Variable this : Service.
Variable operation : nat -> Outcome A.

(** The loop over the attempts still to run; [calls] operation calls
    have been made and [sleeps] slept when it is entered. *)
Fixpoint retryLoop (attempts : list nat) (lastError : option JsError)
    (calls : nat) (sleeps : list Z) : RetryRun A :=
  match attempts with
  | [] => mkRun (throwLast lastError) calls sleeps
  | attempt :: rest =>
      match operation calls with
      | Return a => mkRun (Return a) (S calls) sleeps
      | ThrowUndefined => mkRun (Throw typeErrorOfUndefined) (S calls) sleeps
      | Throw error =>
          if negb (truthy_bool (err_retryable error))
          then mkRun (Throw error) (S calls) sleeps
          else if Nat.eqb attempt (maxRetries this)
          then mkRun (Throw error) (S calls) sleeps
          else
            let delay :=
              backoffDelay (initialDelay this) (backoffMultiplier this)
                           attempt in
            retryLoop rest (Some error) (S calls) (sleeps ++ [delay])%list
      end
  end.

Definition _executeWithRetry : RetryRun A :=
  retryLoop (seq 1 (maxRetries this)) None 0 [].
End ExecuteWithRetry.

(** The constructor keeps whatever truthy number it is given, a negative
    or fractional one and [Infinity] included.  [keptMaxRetries] is
    [config.maxRetries || API_RETRY_CONFIG.MAX_ATTEMPTS] on any number,
    and [retryLoopUnder] the loop of [_executeWithRetry] with such a
    number as [this.maxRetries]; [fuel] bounds the attempts followed,
    since under [Infinity] the loop need not end. *)
Definition keptMaxRetries (configured : Given JsNum) : JsNum :=
  match configured with
  | Is (Fin q) =>
      if Qeq_bool q 0 then Fin (inject_Z (Z.of_nat MAX_ATTEMPTS)) else Fin q
  | Is PosInf => PosInf
  | Is NegInf => NegInf
  | Is NaN | Absent | Undefined | Null =>
      Fin (inject_Z (Z.of_nat MAX_ATTEMPTS))
  end.

(** [attempt <= this.maxRetries] and [attempt === this.maxRetries] *)
Definition withinBudget (attempt : nat) (limit : JsNum) : bool :=
  match limit with
  | Fin q => Qle_bool (inject_Z (Z.of_nat attempt)) q
  | PosInf => true
  | NegInf | NaN => false
  end.

Definition lastAttempt (attempt : nat) (limit : JsNum) : bool :=
  match limit with
  | Fin q => Qeq_bool (inject_Z (Z.of_nat attempt)) q
  | _ => false
  end.

Section ExecuteWithRetryUnder.
Context {A : Type}.
Variable this : Service.
Variable limit : JsNum.
Variable operation : nat -> Outcome A.

Fixpoint retryLoopUnder (fuel attempt : nat) (lastError : option JsError)
    (calls : nat) (sleeps : list Z) : option (RetryRun A) :=
  if negb (withinBudget attempt limit)
  then Some (mkRun (throwLast lastError) calls sleeps)
  else
    match fuel with
    | O => None
    | S fuel =>
        match operation calls with
        | Return a => Some (mkRun (Return a) (S calls) sleeps)
        | ThrowUndefined =>
            Some (mkRun (Throw typeErrorOfUndefined) (S calls) sleeps)
        | Throw error =>
            if negb (truthy_bool (err_retryable error))
            then Some (mkRun (Throw error) (S calls) sleeps)
            else if lastAttempt attempt limit
            then Some (mkRun (Throw error) (S calls) sleeps)
            else
              let delay :=
                backoffDelay (initialDelay this) (backoffMultiplier this)
                             attempt in
              retryLoopUnder fuel (S attempt) (Some error) (S calls)
                             (sleeps ++ [delay])%list
        end
    end.

Definition executeWithRetryUnder (fuel : nat) : option (RetryRun A) :=
  retryLoopUnder fuel 1 None 0 [].
End ExecuteWithRetryUnder.

(** A whole count, or none, as the number the caller configures. *)
Definition configuredCount (count : option nat) : Given JsNum :=
  match count with
  | Some n => Is (Fin (inject_Z (Z.of_nat n)))
  | None => Absent
  end.

(** The [imageBlob] argument: falsy, some other object, or a [Blob]. *)
Inductive BlobArg : Type :=
| NoBlob
| NotABlob
| ABlob (b : Blob).

Record Options : Type := mkOptions {
  opt_size : Given string;
  opt_type : Given string;
  opt_format : Given string;
  opt_crop : Given bool;
  opt_crop_margin : Given string;
  opt_position : Given string;
  opt_roi : Given string
}.

Definition noOptions : Options :=
  mkOptions Absent Absent Absent Absent Absent Absent Absent.

Definition buildFormData (imageBlob : Blob) (options : Options) : FormData :=
  let size := bound (opt_size options) "auto" in
  let type := bound (opt_type options) "auto" in
  let format := bound (opt_format options) "png" in
  let crop := bound (opt_crop options) false in
  let crop_margin := bound (opt_crop_margin options) "0px" in
  let position := bound (opt_position options) "original" in
  let roi := bound (opt_roi options) "0% 0% 100% 100%" in
  ([("image_file", FBlob imageBlob); ("size", FStr (asString size));
   ("type", FStr (asString type)); ("format", FStr (asString format))]
  ++ (if truthy_bool crop
      then ("crop", FStr "true")
           :: (if truthy_str crop_margin
               then [("crop_margin", FStr (asString crop_margin))] else [])
      else [])
  ++ (if truthy_str position
         && negb (String.eqb (asString position) "original")
      then [("position", FStr (asString position))] else [])
  ++ (if truthy_str roi
         && negb (String.eqb (asString roi) "0% 0% 100% 100%")
      then [("roi", FStr (asString roi))] else []))%list.

(** One call of the closure handed to [_executeWithRetry]: the POST and
    the classification of what comes back. *)
Definition attemptPost (answer : PostOutcome) : Outcome Blob :=
  match answer with
  | Resolved (Some data) => Return data
  | Resolved None =>
      (* thrown inside the [try], caught by its own [catch]: the error has
         neither [response] nor [request] *)
      let inner := _createError PROCESSING_ERROR API_BAD_REQUEST
                     "Invalid response from API" false in
      Throw (_createError PROCESSING_ERROR API_BAD_REQUEST
               (if String.eqb (err_message inner) ""
                then "Request setup failed" else err_message inner) false)
  | RejectedResponse status => Throw (_handleApiError status)
  | RejectedNoResponse =>
      Throw (_createError NETWORK_ERROR NETWORK_TIMEOUT
               "No response from server" true)
  | RejectedSetup message =>
      Throw (_createError PROCESSING_ERROR API_BAD_REQUEST
               (if String.eqb message "" then "Request setup failed"
                else message) false)
  end.

Definition removeBackground (env : Env) (this : Service)
    (imageBlob : BlobArg) (options : Options) : M World Blob :=
  fun w =>
    match imageBlob with
    | NoBlob | NotABlob =>
        (Throw (_createError PROCESSING_ERROR API_BAD_REQUEST
                  "Invalid image blob provided" false), w)
    | ABlob blob =>
        let formData := buildFormData blob options in
        let run :=
          _executeWithRetry this
            (fun k => attemptPost
                        (httpPost env (w_requests w + k) (endpoint this)
                                  formData)) in
        (run_outcome run,
         mkWorld (w_ticks w) (w_reads w) (w_invocations w)
                 (w_requests w + run_calls run)
                 (w_sleeps w ++ run_sleeps run)%list)
    end.

End RemoveBgService.

(** ** ErrorRecovery *)

Module ErrorRecovery.
Import Constants.

Definition includes (xs : list string) (x : string) : bool :=
  existsb (String.eqb x) xs.

Definition isRetryable (error : option JsError) : bool :=
  match error with
  | None => false
  | Some error =>
      match err_retryable error with
      | Some flag => flag
      | None =>
          if match err_type error with
             | Some t => String.eqb t NETWORK_ERROR | None => false end
          then true
          else if match err_type error with
                  | Some t => String.eqb t API_ERROR | None => false end
          then
            let retryableApiErrors :=
              ["API_QUOTA_EXCEEDED"; "API_SERVICE_UNAVAILABLE";
               "NETWORK_TIMEOUT"] in
            let nonRetryableApiErrors :=
              ["API_KEY_INVALID"; "API_BAD_REQUEST"] in
            if truthy_str (err_code error)
               && includes retryableApiErrors
                    (match err_code error with Some c => c | None => "" end)
            then true
            else if truthy_str (err_code error)
                    && includes nonRetryableApiErrors
                         (match err_code error with Some c => c | None => "" end)
            then false
            else true
          else if match err_type error with
                  | Some t => String.eqb t PROCESSING_ERROR | None => false end
          then true
          else if match err_type error with
                  | Some t => String.eqb t UPLOAD_ERROR | None => false end
          then false
          else false
      end
  end.

Section Retry.
Context {A : Type}.
Variable operation : nat -> Outcome A.
Variable maxAttempts : nat.
Variables initialDelay backoffMultiplier : Z.

Fixpoint retryLoop (attempts : list nat) (lastError : option JsError)
    (calls : nat) (sleeps : list Z) : RetryRun A :=
  match attempts with
  | [] => mkRun (throwLast lastError) calls sleeps
  | attempt :: rest =>
      match operation calls with
      | Return result => mkRun (Return result) (S calls) sleeps
      | ThrowUndefined => mkRun (Throw typeErrorOfUndefined) (S calls) sleeps
      | Throw error =>
          if Nat.eqb attempt maxAttempts
          then mkRun (Throw error) (S calls) sleeps
          else
            let delay := backoffDelay initialDelay backoffMultiplier attempt in
            retryLoop rest (Some error) (S calls) (sleeps ++ [delay])%list
      end
  end.

Definition retry : RetryRun A :=
  if Nat.ltb maxAttempts 1
  then mkRun (Throw (plainError "maxAttempts must be at least 1")) 0 []
  else retryLoop (seq 1 maxAttempts) None 0 [].
End Retry.

Record RetryOptions : Type := mkRetryOptions {
  ro_maxAttempts : option nat;
  ro_initialDelay : option Z;
  ro_backoffMultiplier : option Z
}.

Definition withRetry {A} (operation : nat -> Outcome A)
    (options : RetryOptions) : RetryRun A :=
  let maxAttempts := dflt (ro_maxAttempts options) MAX_ATTEMPTS in
  let initialDelay := dflt (ro_initialDelay options) INITIAL_DELAY in
  let backoffMultiplier :=
    dflt (ro_backoffMultiplier options) BACKOFF_MULTIPLIER in
  let run := retry operation maxAttempts initialDelay backoffMultiplier in
  match run_outcome run with
  | Throw error =>
      if negb (isRetryable (Some error))
      then mkRun (Throw error) (run_calls run) (run_sleeps run)
      else mkRun (Throw error) (run_calls run) (run_sleeps run)
  | _ => run
  end.

End ErrorRecovery.

(** ** ImageProcessorService *)

Module ImageProcessorService.
Import Constants.

Local Open Scope js_scope.

Record ProcessingResult : Type := mkResult {
  originalDataUrl : string;
  extractedDataUrl : string;
  width : Z;
  height : Z;
  processingTime : Z;
  fromCache : bool
}.

Record CacheEntry : Type := mkEntry {
  result : ProcessingResult;
  timestamp : Z
}.

(** The [Map] behind [this.cache], in insertion order. *)
Definition Cache : Type := list (string * CacheEntry).

Fixpoint cache_get (key : string) (m : Cache) : option CacheEntry :=
  match m with
  | [] => None
  | (k, v) :: rest => if String.eqb k key then Some v else cache_get key rest
  end.

(** [Map.set]: a resident key keeps its place, a new one goes last. *)
Fixpoint cache_set (key : string) (value : CacheEntry) (m : Cache) : Cache :=
  match m with
  | [] => [(key, value)]
  | (k, v) :: rest =>
      if String.eqb k key then (k, value) :: rest
      else (k, v) :: cache_set key value rest
  end.

(** [Map.delete]: the binding of the key goes, the others keep their
    order. *)
Definition cache_delete (key : string) (m : Cache) : Cache :=
  filter (fun '(k, _) => negb (String.eqb k key)) m.

Definition cache_keys (m : Cache) : list string := map fst m.

(** The instance: the configured API service and the cache. *)
Record Processor : Type := mkProcessor {
  backgroundRemovalApi : option RemoveBgService.Service;
  cache : Cache
}.

Definition St : Type := (Processor * World)%type.

Definition constructor : Processor := mkProcessor None [].

Definition setBackgroundRemovalApi (apiService : option RemoveBgService.Service)
    (this : Processor) : Processor :=
  mkProcessor apiService (cache this).

Definition clearCache (this : Processor) : Processor :=
  mkProcessor (backgroundRemovalApi this) [].

(** [Date.now()] *)
Definition now (env : Env) : M St Z :=
  fun '(this, w) =>
    (Return (clock env (w_ticks w)),
     (this, mkWorld (S (w_ticks w)) (w_reads w) (w_invocations w)
              (w_requests w) (w_sleeps w))).

Definition getCache : M St Cache := fun '(this, w) => (Return (cache this), (this, w)).

Definition putCache (m : Cache) : M St unit :=
  fun '(this, w) => (Return tt, (mkProcessor (backgroundRemovalApi this) m, w)).

Definition getApi : M St (option RemoveBgService.Service) :=
  fun '(this, w) => (Return (backgroundRemovalApi this), (this, w)).

(** A [FileReader] reading a blob. *)
Definition readBlob (env : Env) (blob : Blob) : M St (option string) :=
  fun '(this, w) =>
    (Return (readAsDataURL env blob),
     (this, mkWorld (w_ticks w) (S (w_reads w)) (w_invocations w)
              (w_requests w) (w_sleeps w))).

(** [this.backgroundRemovalApi.removeBackground(imageBlob, apiOptions)]:
    one more invocation of the API service, which only touches the world. *)
Definition invokeApi (env : Env) (api : RemoveBgService.Service)
    (imageBlob : Blob) (apiOptions : RemoveBgService.Options) : M St Blob :=
  fun '(this, w) =>
    let '(o, w') :=
      RemoveBgService.removeBackground env api
        (RemoveBgService.ABlob imageBlob) apiOptions
        (mkWorld (w_ticks w) (w_reads w) (S (w_invocations w))
                 (w_requests w) (w_sleeps w)) in
    (o, (this, w')).

(** A synchronous call that returns or throws. *)
Definition call {A} (o : Outcome A) : M St A := fun s => (o, s).

Definition _createError (type code details : string) (retryable : bool)
  : JsError :=
  mkError (match ERROR_MESSAGES code with Some m => m | None => details end)
          (Some type) (Some code) (Some details) (Some retryable).

Definition _generateCacheKey (file : File) : string :=
  file_name file ++ "-" ++ show_Z (Z.of_nat (file_size file)) ++ "-"
  ++ show_Z (file_lastModified file) ++ "-" ++ file_type file.

Definition _getCachedResult (env : Env) (cacheKey : string)
  : M St (option ProcessingResult) :=
  m <- getCache ;;
  match cache_get cacheKey m with
  | None => ret None
  | Some cached =>
      now_ <- now env ;;
      let age := (now_ - timestamp cached)%Z in
      if (CACHE_EXPIRATION_TIME <? age)%Z
      then putCache (cache_delete cacheKey m) ;;; ret None
      else ret (Some (result cached))
  end.

Definition _cacheResult (env : Env) (cacheKey : string)
    (result : ProcessingResult) : M St unit :=
  m <- getCache ;;
  (if Nat.leb MAX_CACHE_SIZE (List.length m)
   then match cache_keys m with
        | firstKey :: _ => putCache (cache_delete firstKey m)
        | [] => ret tt
        end
   else ret tt) ;;;
  now_ <- now env ;;
  m <- getCache ;;
  putCache (cache_set cacheKey (mkEntry result now_) m).

Definition _fileToDataUrl (env : Env) (file : File) : M St string :=
  r <- readBlob env (file_blob file) ;;
  match r with
  | Some dataUrl => ret dataUrl
  | None => throw (_createError PROCESSING_ERROR IMAGE_LOAD_ERROR
                     "Failed to read image file" false)
  end.

Definition blobToDataUrl (env : Env) (blob : Blob) : M St string :=
  r <- readBlob env blob ;;
  match r with
  | Some dataUrl => ret dataUrl
  | None => throw (_createError PROCESSING_ERROR CANVAS_ERROR
                     "Failed to convert blob to DataURL" false)
  end.

(** [error.message] inside a [catch] block. *)
Definition messageIn (error : option JsError) : Outcome string :=
  match error with
  | Some e => Return (err_message e)
  | None => Throw typeErrorOfUndefined
  end.

Definition compressImage (env : Env) (imageFile : File) (image : Image)
  : M St Blob :=
  tryCatch
    (if (img_width image <=? MAX_IMAGE_WIDTH)%Z
        && (img_height image <=? MAX_IMAGE_HEIGHT)%Z
     then ret (file_blob imageFile)
     else
       resizedCanvas <-
         call (CanvasUtility.resizeImage (CanvasUtility.AnImage image)
                 (VNum (Fin (inject_Z MAX_IMAGE_WIDTH)))
                 (VNum (Fin (inject_Z MAX_IMAGE_HEIGHT)))) ;;
       compressedBlob <-
         CanvasUtility.imageToBlob env resizedCanvas OUTPUT_FORMAT PNG_QUALITY ;;
       ret compressedBlob)
    (fun error =>
       message <- call (messageIn error) ;;
       throw (_createError PROCESSING_ERROR CANVAS_ERROR
                ("Image compression failed: " ++ message) false)).

Definition _prepareImageForApi (env : Env) (imageFile : File) (image : Image)
  : M St Blob :=
  let needsCompression :=
    (MAX_IMAGE_WIDTH <? img_width image)%Z
    || (MAX_IMAGE_HEIGHT <? img_height image)%Z in
  if needsCompression then compressImage env imageFile image
  else ret (file_blob imageFile).

(** [options.size || 'auto'] *)
Definition orElse (p : Given string) (d : string) : string :=
  match p with
  | Is s => if String.eqb s "" then d else s
  | _ => d
  end.

(** A property of [{ ..., name: base, ...options }]: an own property of
    [options] replaces the base, whatever its value. *)
Definition spread {T} (own : Given T) (base : T) : Given T :=
  match own with
  | Absent => Is base
  | _ => own
  end.

(** [{ size: options.size || 'auto', type: options.type || 'auto',
       format: options.format || 'png', crop: true, crop_margin: '20px',
       ...options }] *)
Definition apiOptionsOf (options : RemoveBgService.Options)
  : RemoveBgService.Options :=
  RemoveBgService.mkOptions
    (spread (RemoveBgService.opt_size options)
            (orElse (RemoveBgService.opt_size options) "auto"))
    (spread (RemoveBgService.opt_type options)
            (orElse (RemoveBgService.opt_type options) "auto"))
    (spread (RemoveBgService.opt_format options)
            (orElse (RemoveBgService.opt_format options) "png"))
    (spread (RemoveBgService.opt_crop options) true)
    (spread (RemoveBgService.opt_crop_margin options) "20px")
    (RemoveBgService.opt_position options)
    (RemoveBgService.opt_roi options).

Definition removeBackground (env : Env) (imageBlob : Blob)
    (options : RemoveBgService.Options) : M St Blob :=
  api <- getApi ;;
  match api with
  | None => throw (_createError API_ERROR API_SERVICE_UNAVAILABLE
                     "Background removal service not configured" false)
  | Some api =>
      let apiOptions := apiOptionsOf options in
      resultBlob <-
        invokeApi env api imageBlob apiOptions ;;
      ret resultBlob
  end.

(** The [imageFile] argument: falsy, some other object, or a [File]. *)
Inductive FileArg : Type :=
| NoFile
| NotAFile
| AFile (file : File).

(** The body of [processImage] after a cache miss: from reading the file
    to storing and returning the result. *)
Definition processUncached (env : Env) (imageFile : File) (cacheKey : string)
    (startTime : Z) : M St ProcessingResult :=
  originalDataUrl <- _fileToDataUrl env imageFile ;;
  originalImage <- CanvasUtility.loadImage env originalDataUrl ;;
  imageBlob <- _prepareImageForApi env imageFile originalImage ;;
  extractedBlob <-
    removeBackground env imageBlob
      (RemoveBgService.mkOptions
         (Is "auto") (Is "auto") (Is "png")
         (Is ENABLE_PATTERN_EXTRACTION)
         (Is (show_Z PATTERN_PADDING ++ "px"))
         Absent Absent) ;;
  finalDataUrl <- blobToDataUrl env extractedBlob ;;
  finalImage <- CanvasUtility.loadImage env finalDataUrl ;;
  let finalWidth := img_width finalImage in
  let finalHeight := img_height finalImage in
  now_ <- now env ;;
  let result :=
    mkResult originalDataUrl finalDataUrl finalWidth finalHeight
             (now_ - startTime)%Z false in
  _cacheResult env cacheKey result ;;;
  ret result.

(** The [catch] block of [processImage]. *)
Definition rethrowClassified (error : option JsError) : M St ProcessingResult :=
  match error with
  | None => throw typeErrorOfUndefined
  | Some error =>
      if truthy_str (err_type error) && truthy_str (err_code error)
      then throw error
      else throw (_createError PROCESSING_ERROR CANVAS_ERROR
                    (if String.eqb (err_message error) ""
                     then "Image processing failed"
                     else err_message error) false)
  end.

Definition processImage (env : Env) (imageFile : FileArg)
  : M St ProcessingResult :=
  startTime <- now env ;;
  tryCatch
    (match imageFile with
     | NoFile | NotAFile =>
         throw (_createError PROCESSING_ERROR API_BAD_REQUEST
                  "Invalid image file provided" false)
     | AFile imageFile =>
         api <- getApi ;;
         match api with
         | None =>
             throw (_createError API_ERROR API_SERVICE_UNAVAILABLE
                      "Background removal service not configured" false)
         | Some _ =>
             let cacheKey := _generateCacheKey imageFile in
             cachedResult <- _getCachedResult env cacheKey ;;
             match cachedResult with
             | Some cachedResult =>
                 now_ <- now env ;;
                 ret (mkResult (originalDataUrl cachedResult)
                               (extractedDataUrl cachedResult)
                               (width cachedResult) (height cachedResult)
                               (now_ - startTime)%Z true)
             | None => processUncached env imageFile cacheKey startTime
             end
         end
     end)
    rethrowClassified.

Definition getCacheStats (this : Processor) : nat * nat * list string :=
  (List.length (cache this), MAX_CACHE_SIZE, cache_keys (cache this)).

End ImageProcessorService.


Close Scope Q_scope.

(** ** Notions used in the statements *)

(** What [_cacheResult] leaves of the map before it stores the new entry:
    at capacity the first key goes. *)
Definition afterEviction (m : ImageProcessorService.Cache)
  : ImageProcessorService.Cache :=
  if Nat.leb Constants.MAX_CACHE_SIZE (List.length m)
  then match ImageProcessorService.cache_keys m with
       | firstKey :: _ => ImageProcessorService.cache_delete firstKey m
       | [] => m
       end
  else m.

(** A computation that leaves the instance (the cache and the configured
    service) alone and under which the counters of the world only grow. *)
Definition Quiet {A} (m : M ImageProcessorService.St A) : Prop :=
  forall this w,
    fst (snd (m (this, w))) = this
    /\ w_reads w <= w_reads (snd (snd (m (this, w))))
    /\ w_invocations w <= w_invocations (snd (snd (m (this, w))))
    /\ w_requests w <= w_requests (snd (snd (m (this, w)))).

(** The identity tuple of two files is the same. *)
Definition sameIdentity (f g : File) : Prop :=
  file_name f = file_name g /\ file_size f = file_size g
  /\ file_lastModified f = file_lastModified g /\ file_type f = file_type g.

(** Every binding of [m'] is a binding of [m]. *)
Definition noNewEntry (m m' : ImageProcessorService.Cache) : Prop :=
  forall k v,
    ImageProcessorService.cache_get k m' = Some v ->
    ImageProcessorService.cache_get k m = Some v.

(** A rational that a double can hold (an infinity apart: the numbers
    rounded below stay under their operands). *)
Definition isDouble (f : Q) : Prop :=
  exists m k : Z,
    (Z.abs m <= 2 ^ 53)%Z /\ (-1074 <= k)%Z /\ (f == inject_Z m * pow2 k)%Q.

(** A JavaScript value that is a finite number above zero. *)
Definition positiveFinite (v : JsVal) : Prop :=
  exists q : Q, v = VNum (Fin q) /\ (0 < q)%Q.

(** A JavaScript value that is a finite integer above zero. *)
Definition positiveInteger (v : JsVal) : Prop :=
  exists z : Z, v = VNum (Fin (inject_Z z)) /\ (0 < z)%Z.

(** The error object of a classified API failure with its [retryable]
    flag left out, as a caller outside the client would build it. *)
Definition withoutFlag (e : JsError) : JsError :=
  mkError (err_message e) (err_type e) (err_code e) (err_details e) None.

(** The instant at which a [processImage] call entered in world [w] looks
    at the cache: its second reading of the clock. *)
Definition lookupTime (env : Env) (w : World) : Z := clock env (S (w_ticks w)).

(** The entry such a call is answered from: the one under the key, unless
    it is older than the expiry window. *)
Definition liveEntry (env : Env) (cacheKey : string)
    (this : ImageProcessorService.Processor) (w : World)
  : option ImageProcessorService.CacheEntry :=
  match ImageProcessorService.cache_get cacheKey
          (ImageProcessorService.cache this) with
  | Some cached =>
      if (Constants.CACHE_EXPIRATION_TIME
          <? lookupTime env w - ImageProcessorService.timestamp cached)%Z
      then None else Some cached
  | None => None
  end.

(** One more reading of the clock. *)
Definition tick (w : World) : World :=
  mkWorld (S (w_ticks w)) (w_reads w) (w_invocations w) (w_requests w)
          (w_sleeps w).

(** ** Sample inputs *)

Module Samples.

(** An operation that fails with the same error on every call. *)
Definition alwaysThrows (e : JsError) : nat -> Outcome Blob :=
  fun _ => Throw e.

Definition error503 : JsError := RemoveBgService._handleApiError 503.
Definition error400 : JsError := RemoveBgService._handleApiError 400.

(** The service the module wires in: [new RemoveBgService(key)]. *)
Definition service : RemoveBgService.Service :=
  RemoveBgService.mkService "key" Constants.REMOVE_BG_API_ENDPOINT
    Constants.API_TIMEOUT 3 1000 2.

(** 1.5 *)
Definition oneAndAHalf : JsVal := VNum (Fin (3 # 2)).

(** A 44 x 25 image, fully transparent except for one opaque red pixel
    at column 22 of row 12. *)
Definition speck : PatternExtractor.ImageData :=
  PatternExtractor.mkImageData 44 25
    (repeat 0%Z 2200 ++ [255; 0; 0; 255]%Z ++ repeat 0%Z 2196)%list.

(** A 2 x 2 image without a single opaque pixel. *)
Definition blank : PatternExtractor.ImageData :=
  PatternExtractor.mkImageData 2 2 (repeat 0%Z 16).

(** A zero-byte PNG blob, and the blob the sample service answers with. *)
Definition emptyBlob : Blob := mkBlob "" "image/png".
Definition cutout : Blob := mkBlob "cutout" "image/png".

(** An environment in which everything works: the clock advances one
    second per reading, every POST is answered with [cutout], every blob
    reads as a data URL and every data URL decodes to an 800 x 600 image. *)
Definition env : Env :=
  mkEnv (fun n => (Z.of_nat n * 1000)%Z)
        (fun _ _ _ => Resolved (Some cutout))
        (fun b => Some ("data:" ++ blob_type b ++ ";base64," ++ blob_bytes b))
        (fun _ => Some (mkImage 800 600))
        (fun _ _ _ => None).

(** The same environment with a server that answers 500 to everything. *)
Definition envDown : Env :=
  mkEnv (clock env) (fun _ _ _ => RejectedResponse 500)
        (readAsDataURL env) (decodeImage env) (canvasToBlob env).

Definition photo : File := mkFile (mkBlob "jpegbytes" "image/jpeg") "shirt.jpg" 1700000000000.

(** [_cacheResult] for each item of a list in turn. *)
Fixpoint cacheAll (env : Env)
    (items : list (string * ImageProcessorService.ProcessingResult))
  : M ImageProcessorService.St unit :=
  match items with
  | [] => ret tt
  | (cacheKey, result) :: rest =>
      bind (ImageProcessorService._cacheResult env cacheKey result)
           (fun _ => cacheAll env rest)
  end.

(** The cache left by [cacheAll] on a fresh instance. *)
Definition cacheAfter (env : Env)
    (items : list (string * ImageProcessorService.ProcessingResult))
  : ImageProcessorService.Cache :=
  ImageProcessorService.cache
    (fst (snd (cacheAll env items (ImageProcessorService.constructor, world0)))).

(** Eleven results under eleven keys. *)
Definition someResult : ImageProcessorService.ProcessingResult :=
  ImageProcessorService.mkResult "data:original" "data:extracted" 800 600 1200
    false.

Definition elevenItems
  : list (string * ImageProcessorService.ProcessingResult) :=
  map (fun k => (k, someResult))
      ["k00"; "k01"; "k02"; "k03"; "k04"; "k05"; "k06"; "k07"; "k08"; "k09";
       "k10"].

(** A fresh instance with the sample service configured, and its first
    run on the sample photo. *)
Definition processor0 : ImageProcessorService.Processor :=
  ImageProcessorService.setBackgroundRemovalApi (Some service)
    ImageProcessorService.constructor.

Definition firstRun
  : Outcome ImageProcessorService.ProcessingResult * ImageProcessorService.St :=
  ImageProcessorService.processImage env (ImageProcessorService.AFile photo)
    (processor0, world0).

Definition firstResult : ImageProcessorService.ProcessingResult :=
  match fst firstRun with Return r => r | _ => someResult end.

(** The run of the same call against the server that is down. *)
Definition failedRun
  : Outcome ImageProcessorService.ProcessingResult * ImageProcessorService.St :=
  ImageProcessorService.processImage envDown
    (ImageProcessorService.AFile photo) (processor0, world0).

Definition failedError : JsError :=
  match fst failedRun with Throw e => e | _ => error503 end.

End Samples.

(** ** ErrorRecovery: temporary resources

    [temporaryResources] is a [Set]: insertion ordered, one entry per value.
    A resource is an object with a [cleanup] method, a string, or anything
    else ([null], an object without such a method).  Objects are told apart
    by identity, strings by content.  A [cleanup] method is a callback of
    the caller's; it is taken not to touch the registry itself, and what it
    does is recorded as the call, and whether it throws. *)

Module Resources.

Inductive Resource : Type :=
| Disposable (id : nat) (throws : bool)
| Text (s : string)
| Inert (id : nat).

Definition Resource_eqb (a b : Resource) : bool :=
  match a, b with
  | Disposable i t, Disposable j u => Nat.eqb i j && Bool.eqb t u
  | Text s, Text t => String.eqb s t
  | Inert i, Inert j => Nat.eqb i j
  | _, _ => false
  end.

Record Recovery : Type := mkRecovery {
  temporaryResources : list Resource
}.

(** What [cleanup] has done: the [cleanup] methods called, the URLs
    revoked, the warnings logged. *)
Record Effects : Type := mkEffects {
  called : list Resource;
  revoked : list string;
  warnings : nat
}.

Definition constructor : Recovery := mkRecovery [].

Definition registerResource (resource : Resource) (this : Recovery)
  : Recovery :=
  if existsb (Resource_eqb resource) (temporaryResources this)
  then this
  else mkRecovery (temporaryResources this ++ [resource]).

(** The body of the [forEach] callback, [try] and [catch] included. *)
Definition cleanupOne (fx : Effects) (resource : Resource) : Effects :=
  match resource with
  | Disposable _ throws =>
      mkEffects (called fx ++ [resource]) (revoked fx)
                (if throws then S (warnings fx) else warnings fx)
  | Text s =>
      if String.prefix "blob:" s
      then mkEffects (called fx) (revoked fx ++ [s]) (warnings fx)
      else fx
  | Inert _ => fx
  end.

Definition cleanup (this : Recovery) (fx : Effects) : Recovery * Effects :=
  (mkRecovery [], fold_left cleanupOne (temporaryResources this) fx).

Definition reset (this : Recovery) (fx : Effects) : Recovery * Effects :=
  cleanup this fx.

(** [registerResource] for each resource of a list in turn. *)
Definition registerAll (resources : list Resource) (this : Recovery)
  : Recovery :=
  fold_left (fun t r => registerResource r t) resources this.

End Resources.

(** Whether a registered resource has a [cleanup] method to call or is a
    [blob:] URL to revoke. *)
Definition hasCleanup (r : Resources.Resource) : bool :=
  match r with Resources.Disposable _ _ => true | _ => false end.

Definition blobUrl (r : Resources.Resource) : option string :=
  match r with
  | Resources.Text s => if String.prefix "blob:" s then Some s else None
  | _ => None
  end.

(** ** Notions used in the further properties *)

(** The alpha byte and the colour of the pixel at column [x] of row [y]. *)
Definition alphaAt (pixels : list Z) (width x y : nat) : Z :=
  PatternExtractor.pixel pixels ((y * width + x) * 4 + 3).

Definition colorAt (pixels : list Z) (width x y : nat)
  : PatternExtractor.Color :=
  PatternExtractor.mkColor
    (PatternExtractor.pixel pixels ((y * width + x) * 4))
    (PatternExtractor.pixel pixels ((y * width + x) * 4 + 1))
    (PatternExtractor.pixel pixels ((y * width + x) * 4 + 2)).

(** A rectangle that is not empty and lies in a [width] x [height] image. *)
Definition withinImage (b : PatternExtractor.Bounds) (width height : nat)
  : Prop :=
  (0 <= PatternExtractor.b_left b < PatternExtractor.b_right b)%Z
  /\ (PatternExtractor.b_right b <= Z.of_nat width)%Z
  /\ (0 <= PatternExtractor.b_top b < PatternExtractor.b_bottom b)%Z
  /\ (PatternExtractor.b_bottom b <= Z.of_nat height)%Z.

(** The pixel at column [x] of row [y] lies in the rectangle. *)
Definition insideBounds (b : PatternExtractor.Bounds) (x y : nat) : Prop :=
  (PatternExtractor.b_left b <= Z.of_nat x < PatternExtractor.b_right b)%Z
  /\ (PatternExtractor.b_top b <= Z.of_nat y < PatternExtractor.b_bottom b)%Z.

(** One step of a scan: the pixel at [(x, y)] is looked at. *)
Definition scanStep (isContent : nat -> bool) (width : nat)
    (s : PatternExtractor.Scan) (xy : nat * nat) : PatternExtractor.Scan :=
  if isContent ((snd xy * width + fst xy) * 4)
  then PatternExtractor.scanHit s (fst xy) (snd xy) else s.

(** The pixel at [xy] counts as content. *)
Definition contentAt (isContent : nat -> bool) (width : nat) (xy : nat * nat)
  : bool :=
  isContent ((snd xy * width + fst xy) * 4).

(** The pixels of an image in the order the scans visit them. *)
Definition scanOrder (width height : nat) : list (nat * nat) :=
  flat_map (fun y => map (fun x => (x, y)) (seq 0 width)) (seq 0 height).

(** A crop that is the whole [width] x [height] image or a rectangle of
    positive size inside it. *)
Definition cropInside (r : PatternExtractor.CropResult) (width height : nat)
  : Prop :=
  match r with
  | PatternExtractor.Uncropped w h =>
      w = Z.of_nat width /\ h = Z.of_nat height
  | PatternExtractor.Cropped l t w h =>
      (0 <= l)%Z /\ (0 <= t)%Z /\ (0 < w)%Z /\ (0 < h)%Z
      /\ (l + w <= Z.of_nat width)%Z /\ (t + h <= Z.of_nat height)%Z
  end.

(** The pixel at column [x] of row [y] is part of the crop. *)
Definition inCrop (r : PatternExtractor.CropResult) (x y : nat) : Prop :=
  match r with
  | PatternExtractor.Uncropped _ _ => True
  | PatternExtractor.Cropped l t w h =>
      (l <= Z.of_nat x < l + w)%Z /\ (t <= Z.of_nat y < t + h)%Z
  end.

(** The pixel at column [x] of row [y] is more opaque than [threshold] and
    further than 30 from the dominant colour of the image. *)
Definition contrasting (pixels : list Z) (width height : nat) (threshold : Z)
    (x y : nat) : Prop :=
  (threshold < alphaAt pixels width x y)%Z
  /\ (30 * 30
      < PatternExtractor._colorDistanceSq (colorAt pixels width x y)
          (PatternExtractor._detectDominantColor pixels width height))%Z.

(** An operation's call throws an error whose [retryable] is truthy. *)
Definition retryableThrow {A} (o : Outcome A) : bool :=
  match o with
  | Throw e => truthy_bool (err_retryable e)
  | _ => false
  end.

(** What a retry loop passes on when a call of the operation ends the run:
    its result or its error; a thrown [undefined] becomes the [TypeError]
    of the [catch] block that reads a property of it. *)
Definition settle {A} (o : Outcome A) : Outcome A :=
  match o with
  | ThrowUndefined => Throw typeErrorOfUndefined
  | _ => o
  end.

(** An answer to the POST that is neither a result nor a final refusal: no
    response at all, or a response with a status from 500 on. *)
Definition transient (answer : PostOutcome) : bool :=
  match answer with
  | RejectedNoResponse => true
  | RejectedResponse status => (500 <=? status)%Z
  | _ => false
  end.

(** The world after [n] more requests and the given sleeps. *)
Definition afterRequests (w : World) (n : nat) (sleeps : list Z) : World :=
  mkWorld (w_ticks w) (w_reads w) (w_invocations w) (w_requests w + n)
          (w_sleeps w ++ sleeps).

(** An error with a type, a code and a [retryable] flag. *)
Definition classified (e : JsError) : Prop :=
  (exists t, err_type e = Some t)
  /\ (exists c, err_code e = Some c)
  /\ (exists r, err_retryable e = Some r).


(** A server that gives no response to the first two POSTs and answers
    every later one. *)
Definition flakyEnv : Env :=
  mkEnv (clock Samples.env)
        (fun n _ _ => if Nat.ltb n 2 then RejectedNoResponse
                      else Resolved (Some Samples.cutout))
        (readAsDataURL Samples.env) (decodeImage Samples.env)
        (canvasToBlob Samples.env).


(** The states an instance goes through: a new instance, then the public
    methods in any order, while the rest of the program moves the world. *)
Inductive Reachable (env : Env) : ImageProcessorService.St -> Prop :=
| Reachable_new w :
    Reachable env (ImageProcessorService.constructor, w)
| Reachable_setApi apiService this w :
    Reachable env (this, w) ->
    Reachable env
      (ImageProcessorService.setBackgroundRemovalApi apiService this, w)
| Reachable_clear this w :
    Reachable env (this, w) ->
    Reachable env (ImageProcessorService.clearCache this, w)
| Reachable_world this w w' :
    Reachable env (this, w) -> Reachable env (this, w')
| Reachable_process imageFile s :
    Reachable env s ->
    Reachable env (snd (ImageProcessorService.processImage env imageFile s)).

(** The configured API service, if any, has a budget of at least one
    attempt. *)
Definition budgeted (this : ImageProcessorService.Processor) : Prop :=
  forall api,
    ImageProcessorService.backgroundRemovalApi this = Some api ->
    1 <= RemoveBgService.maxRetries api.

(** An error as the services make them: with type, code and flag, or a
    plain [Error] without a type. *)
Definition wellFormed (e : JsError) : Prop :=
  classified e \/ err_type e = None.

(** A computation that keeps the instance budgeted, never throws
    [undefined], and throws only such errors. *)
Definition Tidy {A} (m : M ImageProcessorService.St A) : Prop :=
  forall this w,
    budgeted this ->
    budgeted (fst (snd (m (this, w))))
    /\ match fst (m (this, w)) with
       | Return _ => True
       | Throw e => wellFormed e
       | ThrowUndefined => False
       end.

(** An environment like the sample one in which a canvas can be turned
    into a blob. *)
Definition studioEnv : Env :=
  mkEnv (clock Samples.env) (httpPost Samples.env)
        (readAsDataURL Samples.env) (decodeImage Samples.env)
        (fun _ format _ => Some (mkBlob "resized" format)).

(** The quantised colours of the sampled pixels (every tenth column of
    every tenth row) that are more opaque than 200, in the order of the
    scan. *)
Definition sampledColors (pixels : list Z) (width height : nat)
  : list PatternExtractor.Color :=
  flat_map (fun y =>
    flat_map (fun x =>
      let index := ((y * width + x) * 4)%nat in
      if (200 <? PatternExtractor.pixel pixels (index + 3))%Z
      then [PatternExtractor.mkColor
              (PatternExtractor.pixel pixels index / 32 * 32)%Z
              (PatternExtractor.pixel pixels (index + 1) / 32 * 32)%Z
              (PatternExtractor.pixel pixels (index + 2) / 32 * 32)%Z]
      else [])
      (PatternExtractor.strided width 10))
    (PatternExtractor.strided height 10).

(** How often a colour occurs in a list. *)
Definition occurrences (c : PatternExtractor.Color)
    (l : list PatternExtractor.Color) : Z :=
  Z.of_nat (List.length (filter (PatternExtractor.Color_eqb c) l)).

(** The count an object of counts holds for a colour, 0 without one. *)
Definition countOf (c : PatternExtractor.Color)
    (counts : list (PatternExtractor.Color * Z)) : Z :=
  match find (fun '(k, _) => PatternExtractor.Color_eqb k c) counts with
  | Some (_, n) => n
  | None => 0%Z
  end.

(** * Properties *)

(** ** Retry loops *)

Section RetryFacts.
Context {A : Type}.

(** The generic loop on an operation that never succeeds: it runs every
    attempt up to [maxAttempts], whatever the errors carry. *)
Lemma ErrorRecovery_retryLoop_exhausts
    (operation : nat -> Outcome A) (maxAttempts : nat) (d m : Z) :
  (forall k, exists e, operation k = Throw e) ->
  forall n a lastError calls sleeps,
    a + n = S maxAttempts -> 1 <= n ->
    exists e,
      operation (calls + n - 1) = Throw e /\
      ErrorRecovery.retryLoop operation maxAttempts d m
        (seq a n) lastError calls sleeps
      = mkRun (Throw e) (calls + n)
              (sleeps ++ map (backoffDelay d m) (seq a (n - 1))).
Proof.
  intros Hfail. induction n as [|n IH]; intros a lastError calls sleeps Ha Hn.
  - lia.
  - destruct (Hfail calls) as [e He]. cbn [seq ErrorRecovery.retryLoop].
    rewrite He. destruct (Nat.eqb_spec a maxAttempts) as [Heq|Hne].
    + assert (n = 0) by lia. subst n. exists e. split.
      * replace (calls + 1 - 1) with calls by lia. exact He.
      * cbn. rewrite app_nil_r. f_equal. lia.
    + destruct (IH (S a) (Some e) (S calls)
                   (sleeps ++ [backoffDelay d m a])%list) as [e' [He' Hrun]];
        [lia | lia |].
      exists e'. split.
      * replace (calls + S n - 1) with (S calls + n - 1) by lia. exact He'.
      * rewrite Hrun. f_equal; [lia|].
        rewrite <- app_assoc. f_equal.
        destruct n as [|n']; [lia|].
        cbn [Nat.sub]. rewrite Nat.sub_0_r.
        replace (S n' - 1) with n' by lia. reflexivity.
Qed.

(** The client's loop on an operation that always fails with a
    retryable error: the same schedule, driven by [maxRetries]. *)
Lemma RemoveBgService_retryLoop_exhausts
    (this : RemoveBgService.Service) (operation : nat -> Outcome A) :
  (forall k, exists e, operation k = Throw e /\ err_retryable e = Some true) ->
  forall n a lastError calls sleeps,
    a + n = S (RemoveBgService.maxRetries this) -> 1 <= n ->
    exists e,
      operation (calls + n - 1) = Throw e /\
      RemoveBgService.retryLoop this operation
        (seq a n) lastError calls sleeps
      = mkRun (Throw e) (calls + n)
              (sleeps ++ map (backoffDelay (RemoveBgService.initialDelay this)
                                (RemoveBgService.backoffMultiplier this))
                             (seq a (n - 1))).
Proof.
  intros Hfail. induction n as [|n IH]; intros a lastError calls sleeps Ha Hn.
  - lia.
  - destruct (Hfail calls) as [e [He Hflag]].
    cbn [seq RemoveBgService.retryLoop].
    rewrite He, Hflag. cbn [truthy_bool negb].
    destruct (Nat.eqb_spec a (RemoveBgService.maxRetries this)) as [Heq|Hne].
    + assert (n = 0) by lia. subst n. exists e. split.
      * replace (calls + 1 - 1) with calls by lia. exact He.
      * cbn. rewrite app_nil_r. f_equal. lia.
    + destruct (IH (S a) (Some e) (S calls)
                   (sleeps ++ [backoffDelay (RemoveBgService.initialDelay this)
                                 (RemoveBgService.backoffMultiplier this) a])%list)
        as [e' [He' Hrun]]; [lia | lia |].
      exists e'. split.
      * replace (calls + S n - 1) with (S calls + n - 1) by lia. exact He'.
      * rewrite Hrun. f_equal; [lia|].
        rewrite <- app_assoc. f_equal.
        destruct n as [|n']; [lia|].
        cbn [Nat.sub]. rewrite Nat.sub_0_r.
        replace (S n' - 1) with n' by lia. reflexivity.
Qed.

(** A first failure that is not retryable ends the client's loop. *)
Lemma RemoveBgService_stops_on_terminal
    (this : RemoveBgService.Service) (operation : nat -> Outcome A) e :
  1 <= RemoveBgService.maxRetries this ->
  operation 0 = Throw e ->
  truthy_bool (err_retryable e) = false ->
  RemoveBgService._executeWithRetry this operation = mkRun (Throw e) 1 [].
Proof.
  intros Hpos He Hflag. unfold RemoveBgService._executeWithRetry.
  destruct (RemoveBgService.maxRetries this) as [|n] eqn:Hn; [lia|].
  cbn [seq RemoveBgService.retryLoop]. rewrite He, Hflag. reflexivity.
Qed.

Lemma constructor_maxRetries_pos apiKey config this :
  RemoveBgService.constructor apiKey config = Return this ->
  1 <= RemoveBgService.maxRetries this.
Proof.
  unfold RemoveBgService.constructor.
  destruct (String.eqb apiKey ""); [discriminate|].
  intros H. injection H as <-. cbn.
  destruct (RemoveBgService.cfg_maxRetries config) as [[|n]|]; cbn;
    unfold Constants.MAX_ATTEMPTS; lia.
Qed.

End RetryFacts.

Lemma withRetry_is_retry {A} (operation : nat -> Outcome A) options :
  ErrorRecovery.withRetry operation options
  = ErrorRecovery.retry operation
      (dflt (ErrorRecovery.ro_maxAttempts options) Constants.MAX_ATTEMPTS)
      (dflt (ErrorRecovery.ro_initialDelay options) Constants.INITIAL_DELAY)
      (dflt (ErrorRecovery.ro_backoffMultiplier options)
            Constants.BACKOFF_MULTIPLIER).
Proof.
  unfold ErrorRecovery.withRetry.
  destruct (ErrorRecovery.retry _ _ _ _) as [o c sl].
  cbn [run_outcome run_calls run_sleeps].
  destruct o; try reflexivity.
  destruct (negb (ErrorRecovery.isRetryable (Some e))); reflexivity.
Qed.

(** C4. A client built by the constructor whose request always fails with
    a retryable error calls it exactly [maxRetries] times (3 when the
    configuration leaves the count out), sleeps the backoff delays in
    between, and then throws the error of the last call. *)
Theorem executeWithRetry_retry_bound {A} apiKey config this
    (operation : nat -> Outcome A) :
  RemoveBgService.constructor apiKey config = Return this ->
  (forall k, exists e, operation k = Throw e /\ err_retryable e = Some true) ->
  let run := RemoveBgService._executeWithRetry this operation in
  run_calls run = RemoveBgService.maxRetries this
  /\ (RemoveBgService.cfg_maxRetries config = None ->
      RemoveBgService.maxRetries this = 3)
  /\ (exists e, operation (RemoveBgService.maxRetries this - 1) = Throw e
                /\ run_outcome run = Throw e)
  /\ run_sleeps run
     = backoffSchedule (RemoveBgService.initialDelay this)
         (RemoveBgService.backoffMultiplier this)
         (RemoveBgService.maxRetries this).
Proof.
  intros Hnew Hfail run.
  pose proof (constructor_maxRetries_pos _ _ _ Hnew) as Hpos.
  destruct (RemoveBgService_retryLoop_exhausts this operation Hfail
              (RemoveBgService.maxRetries this) 1 None 0 [])
    as [e [He Hrun]]; [lia | lia |].
  subst run. unfold RemoveBgService._executeWithRetry. rewrite Hrun. cbn.
  repeat split.
  - intros Hnone. unfold RemoveBgService.constructor in Hnew.
    destruct (String.eqb apiKey ""); [discriminate|].
    injection Hnew as <-. cbn. rewrite Hnone. reflexivity.
  - exists e. split; [exact He | reflexivity].
Qed.

(** C10. The generic retry loop does not look at the classification: an
    operation that always fails with a non-retryable error is still called
    [maxAttempts] times, with every backoff delay slept, before its last
    error is thrown; [withRetry] is that same run, so its [isRetryable]
    test changes nothing; the client's own loop stops such an operation
    after one call. *)
Theorem retry_ignores_classification {A} (operation : nat -> Outcome A)
    (maxAttempts : nat) (initialDelay backoffMultiplier : Z) :
  1 <= maxAttempts ->
  (forall k, exists e, operation k = Throw e /\ err_retryable e = Some false) ->
  let run := ErrorRecovery.retry operation maxAttempts initialDelay
               backoffMultiplier in
  run_calls run = maxAttempts
  /\ run_sleeps run = backoffSchedule initialDelay backoffMultiplier maxAttempts
  /\ (exists e, operation (maxAttempts - 1) = Throw e
                /\ run_outcome run = Throw e)
  /\ ErrorRecovery.withRetry operation
       (ErrorRecovery.mkRetryOptions (Some maxAttempts) (Some initialDelay)
          (Some backoffMultiplier)) = run
  /\ forall this, 1 <= RemoveBgService.maxRetries this ->
       run_calls (RemoveBgService._executeWithRetry this operation) = 1.
Proof.
  intros Hpos Hfail run.
  assert (Hany : forall k, exists e, operation k = Throw e).
  { intros k. destruct (Hfail k) as [e [He _]]. now exists e. }
  destruct (ErrorRecovery_retryLoop_exhausts operation maxAttempts
              initialDelay backoffMultiplier Hany maxAttempts 1 None 0 [])
    as [e [He Hrun]]; [lia | lia |].
  assert (Hretry : run = mkRun (Throw e) maxAttempts
                           (backoffSchedule initialDelay backoffMultiplier
                              maxAttempts)).
  { subst run. unfold ErrorRecovery.retry.
    destruct (Nat.ltb_spec maxAttempts 1); [lia|]. rewrite Hrun. reflexivity. }
  rewrite Hretry. cbn. repeat split.
  - exists e. split; [exact He | reflexivity].
  - rewrite withRetry_is_retry. cbn. exact Hretry.
  - intros this Hthis. destruct (Hfail 0) as [e0 [He0 Hflag]].
    rewrite (RemoveBgService_stops_on_terminal this operation e0 Hthis He0).
    + reflexivity.
    + rewrite Hflag. reflexivity.
Qed.

(** The client the module wires in, against a server that always answers
    503: three calls. *)
Lemma executeWithRetry_retry_bound_witness :
  RemoveBgService.constructor "key" RemoveBgService.noConfig
  = Return Samples.service
  /\ run_calls (RemoveBgService._executeWithRetry Samples.service
                  (Samples.alwaysThrows Samples.error503)) = 3.
Proof.
  split; [reflexivity|].
  exact (proj1 (executeWithRetry_retry_bound "key" RemoveBgService.noConfig
                  Samples.service (Samples.alwaysThrows Samples.error503)
                  eq_refl
                  (fun _ => ex_intro _ Samples.error503 (conj eq_refl eq_refl)))).
Defined.

(** Three attempts on an operation that always fails with the error of a
    400: three calls, with delays of one and two seconds. *)
Lemma retry_ignores_classification_witness :
  run_calls (ErrorRecovery.retry (Samples.alwaysThrows Samples.error400)
               3 1000 2) = 3
  /\ run_sleeps (ErrorRecovery.retry (Samples.alwaysThrows Samples.error400)
                   3 1000 2) = [1000; 2000]%Z.
Proof.
  pose proof (retry_ignores_classification
                (Samples.alwaysThrows Samples.error400) 3 1000 2
                (le_S _ _ (le_S _ _ (le_n 1)))
                (fun _ => ex_intro _ Samples.error400 (conj eq_refl eq_refl)))
    as H.
  split; [exact (proj1 H) | exact (proj1 (proj2 H))].
Defined.

(** ** Error classification *)

Lemma isRetryable_returns_flag e flag :
  err_retryable e = Some flag -> ErrorRecovery.isRetryable (Some e) = flag.
Proof. intros H. unfold ErrorRecovery.isRetryable. rewrite H. reflexivity. Qed.

Lemma handleApiError_flag status :
  exists flag, err_retryable (RemoveBgService._handleApiError status) = Some flag.
Proof.
  unfold RemoveBgService._handleApiError.
  repeat match goal with
         | |- context [if ?b then _ else _] => destruct b
         end; eexists; reflexivity.
Qed.

(** C7 (counterexample). For HTTP 429 the client marks the error as not
    retryable, while [isRetryable] answers [true] for the same error
    without a flag. *)
Lemma isRetryable_disagrees_on_quota :
  err_retryable (RemoveBgService._handleApiError 429) = Some false
  /\ ErrorRecovery.isRetryable
       (Some (withoutFlag (RemoveBgService._handleApiError 429)))
     = true.
Proof. split; reflexivity. Qed.

(** C7 (amended). On an error that carries the client's flag,
    [isRetryable] returns that flag.  On the same error without the flag
    it agrees with the client exactly for 400, 401, 403 and for the
    statuses from 500 on; for 402 and 429 it answers [true] where the
    client assigns [false]. *)
Theorem isRetryable_vs_handleApiError (status : Z) :
  let e := RemoveBgService._handleApiError status in
  ErrorRecovery.isRetryable (Some e) = truthy_bool (err_retryable e)
  /\ (ErrorRecovery.isRetryable (Some (withoutFlag e))
      = truthy_bool (err_retryable e)
      <-> (status = 400 \/ status = 401 \/ status = 403 \/ 500 <= status)%Z)
  /\ ((status = 402 \/ status = 429)%Z ->
      ErrorRecovery.isRetryable (Some (withoutFlag e)) = true
      /\ err_retryable e = Some false).
Proof.
  intros e. split.
  - destruct (handleApiError_flag status) as [flag Hflag]. subst e.
    rewrite (isRetryable_returns_flag _ flag Hflag), Hflag. reflexivity.
  - subst e. unfold RemoveBgService._handleApiError, Constants.HTTP_BAD_REQUEST,
      Constants.HTTP_UNAUTHORIZED, Constants.HTTP_FORBIDDEN,
      Constants.HTTP_PAYMENT_REQUIRED, Constants.HTTP_TOO_MANY_REQUESTS,
      Constants.HTTP_INTERNAL_SERVER_ERROR, Constants.HTTP_SERVICE_UNAVAILABLE.
    destruct (Z.eqb_spec status 400) as [->|H400];
      [cbn; split; [split; [auto | reflexivity] | lia] | ].
    destruct (Z.eqb_spec status 401) as [->|H401];
      [cbn; split; [split; [auto | reflexivity] | lia] | ].
    destruct (Z.eqb_spec status 403) as [->|H403];
      [cbn; split; [split; [auto | reflexivity] | lia] | ].
    destruct (Z.eqb_spec status 402) as [->|H402];
      [cbn; split; [split; [discriminate | lia] | auto] | ].
    destruct (Z.eqb_spec status 429) as [->|H429];
      [cbn; split; [split; [discriminate | lia] | auto] | ].
    destruct (Z.eqb_spec status 500) as [->|H500];
      [cbn; split; [split; [intros _; lia | reflexivity] | lia] | ].
    destruct (Z.eqb_spec status 503) as [->|H503];
      [cbn; split; [split; [intros _; lia | reflexivity] | lia] | ].
    cbn [orb]. split; [|lia].
    unfold ErrorRecovery.isRetryable, withoutFlag,
      RemoveBgService._createError.
    cbn [err_retryable err_type err_code truthy_bool].
    match goal with
    | |- (?lhs = _) <-> _ => change lhs with true
    end.
    destruct (Z.leb_spec 500 status); split; intros; try reflexivity;
      try discriminate; lia.
Qed.

(** At 429 the two classifiers part: the client's flag is [false], the
    answer without the flag is [true]. *)
Lemma isRetryable_vs_handleApiError_witness :
  ErrorRecovery.isRetryable
    (Some (withoutFlag (RemoveBgService._handleApiError 429))) = true
  /\ err_retryable (RemoveBgService._handleApiError 429) = Some false.
Proof.
  exact (proj2 (proj2 (isRetryable_vs_handleApiError 429))
               (or_intror eq_refl)).
Defined.

(** ** Double-precision arithmetic *)

Section Doubles.
Local Open Scope Q_scope.

Lemma pow2_pos e : 0 < pow2 e.
Proof. apply Qpower_0_lt. reflexivity. Qed.

Lemma pow2_add a b : pow2 (a + b) == pow2 a * pow2 b.
Proof. apply Qpower_plus. discriminate. Qed.

Lemma pow2_le a b : (a <= b)%Z -> pow2 a <= pow2 b.
Proof. intros H. apply Qpower_le_compat_l; [exact H | discriminate]. Qed.

Lemma pow2_lt a b : (a < b)%Z -> pow2 a < pow2 b.
Proof. intros H. apply Qpower_lt_compat_l; [exact H | reflexivity]. Qed.

Lemma pow2_Z e : (0 <= e)%Z -> pow2 e == inject_Z (2 ^ e).
Proof. intros H. unfold pow2. now rewrite Zpower_Qpower. Qed.

Lemma pow2_sub a b : pow2 (a - b) == pow2 a / pow2 b.
Proof.
  unfold Z.sub. rewrite pow2_add. unfold pow2. rewrite Qpower_opp. reflexivity.
Qed.

Lemma binade_spec x :
  0 < x -> pow2 (binade x) <= x /\ x < pow2 (binade x + 1).
Proof.
  intros Hx. destruct x as [n d].
  assert (Hn : (0 < n)%Z) by (unfold Qlt in Hx; cbn in Hx; lia).
  unfold binade. cbn [Qnum Qden].
  set (a := Z.log2 n). set (b := Z.log2 (Z.pos d)).
  destruct (Z.log2_spec n Hn) as [Ha1 Ha2]. fold a in Ha1, Ha2.
  destruct (Z.log2_spec (Z.pos d) (Pos2Z.is_pos d)) as [Hb1 Hb2].
  fold b in Hb1, Hb2.
  assert (Ha0 : (0 <= a)%Z) by apply Z.log2_nonneg.
  assert (Hb0 : (0 <= b)%Z) by apply Z.log2_nonneg.
  assert (Hx' : n # d == inject_Z n / inject_Z (Z.pos d)) by apply Qmake_Qdiv.
  assert (Hd : 0 < inject_Z (Z.pos d)) by reflexivity.
  assert (Pa1 : pow2 a <= inject_Z n)
    by (rewrite pow2_Z by exact Ha0; rewrite <- Zle_Qle; exact Ha1).
  assert (Pa2 : inject_Z n < pow2 (a + 1))
    by (rewrite pow2_Z by lia; rewrite <- Zlt_Qlt; exact Ha2).
  assert (Pb1 : pow2 b <= inject_Z (Z.pos d))
    by (rewrite pow2_Z by exact Hb0; rewrite <- Zle_Qle; exact Hb1).
  assert (Pb2 : inject_Z (Z.pos d) < pow2 (b + 1))
    by (rewrite pow2_Z by lia; rewrite <- Zlt_Qlt; exact Hb2).
  assert (HN : 0 < inject_Z n)
    by (change 0 with (inject_Z 0); rewrite <- Zlt_Qlt; exact Hn).
  pose proof (pow2_pos b) as Pb. pose proof (pow2_pos (b + 1)) as Pb'.
  pose proof (pow2_pos a) as Pa.
  assert (Hup : n # d < pow2 (a - b + 1)).
  { replace (a - b + 1)%Z with ((a + 1) - b)%Z by lia.
    rewrite pow2_sub, Hx'.
    apply Qlt_shift_div_l; [exact Pb|].
    apply Qle_lt_trans with (inject_Z n); [|exact Pa2].
    setoid_replace (inject_Z n / inject_Z (Z.pos d) * pow2 b)
      with (inject_Z n * (pow2 b / inject_Z (Z.pos d)))
      by (field; intros H0; rewrite H0 in Hd; discriminate Hd).
    assert (Hr : pow2 b / inject_Z (Z.pos d) <= 1)
      by (apply Qle_shift_div_r; [exact Hd | now rewrite Qmult_1_l]).
    rewrite <- (Qmult_1_r (inject_Z n)) at 2.
    apply Qmult_le_l; assumption. }
  assert (Hlow : pow2 (a - b - 1) <= n # d).
  { replace (a - b - 1)%Z with (a - (b + 1))%Z by lia.
    rewrite pow2_sub, Hx'.
    apply Qle_shift_div_l; [exact Hd|].
    apply Qle_trans with (pow2 a); [|exact Pa1].
    setoid_replace (pow2 a / pow2 (b + 1) * inject_Z (Z.pos d))
      with (pow2 a * (inject_Z (Z.pos d) / pow2 (b + 1)))
      by (field; intros H0; rewrite H0 in Pb'; discriminate Pb').
    assert (Hr : inject_Z (Z.pos d) / pow2 (b + 1) <= 1).
    { apply Qle_shift_div_r; [exact Pb'|]. rewrite Qmult_1_l.
      apply Qlt_le_weak. exact Pb2. }
    rewrite <- (Qmult_1_r (pow2 a)) at 2.
    apply Qmult_le_l; assumption. }
  destruct (Qle_bool (pow2 (a - b)) (n # d)) eqn:E.
  - apply Qle_bool_iff in E. split; assumption.
  - replace (a - b - 1 + 1)%Z with (a - b)%Z by lia. split; [exact Hlow|].
    apply Qnot_le_lt. intros H. apply Qle_bool_iff in H. congruence.
Qed.

Lemma binade_unique x e :
  pow2 e <= x -> x < pow2 (e + 1) -> binade x = e.
Proof.
  intros H1 H2.
  assert (Hx : 0 < x) by (eapply Qlt_le_trans; [apply pow2_pos | exact H1]).
  destruct (binade_spec x Hx) as [B1 B2].
  destruct (Z.lt_trichotomy (binade x) e) as [L|[E|G]]; [|exact E|].
  - exfalso. assert (pow2 (binade x + 1) <= pow2 e) by (apply pow2_le; lia).
    lra.
  - exfalso. assert (pow2 (e + 1) <= pow2 (binade x)) by (apply pow2_le; lia).
    lra.
Qed.

Lemma binade_comp x y : 0 < x -> x == y -> binade x = binade y.
Proof.
  intros Hx E. symmetry. destruct (binade_spec x Hx) as [B1 B2].
  apply binade_unique; rewrite <- E; assumption.
Qed.

Lemma binade_le x y : 0 < x -> x <= y -> (binade x <= binade y)%Z.
Proof.
  intros Hx Hxy. assert (Hy : 0 < y) by lra.
  destruct (binade_spec x Hx) as [B1 B2], (binade_spec y Hy) as [C1 C2].
  destruct (Z.le_gt_cases (binade x) (binade y)) as [L|G]; [exact L|].
  exfalso. assert (pow2 (binade y + 1) <= pow2 (binade x)) by (apply pow2_le; lia).
  lra.
Qed.

(** Rounding to the nearest integer, a tie going to the even one. *)

Lemma roundHalfEven_cases y :
  let f := Qfloor y in
  let r := roundHalfEven y in
  inject_Z f <= y /\ y < inject_Z f + 1
  /\ ((r = f /\ y - inject_Z f <= 1 # 2)
      \/ (r = (f + 1)%Z /\ 1 # 2 <= y - inject_Z f)).
Proof.
  cbv zeta. pose proof (Qfloor_le y) as H1. pose proof (Qlt_floor y) as H2.
  rewrite inject_Z_plus in H2. split; [exact H1|]. split; [exact H2|].
  unfold roundHalfEven.
  destruct (y - inject_Z (Qfloor y) ?= 1 # 2) eqn:C.
  - apply Qeq_alt in C. destruct (Z.even (Qfloor y)); [left|right]; split;
      try reflexivity; lra.
  - apply Qlt_alt in C. left. split; [reflexivity | lra].
  - apply Qgt_alt in C. right. split; [reflexivity | lra].
Qed.

Lemma roundHalfEven_nearest y (n : Z) :
  Qabs (inject_Z (roundHalfEven y) - y) <= Qabs (inject_Z n - y).
Proof.
  destruct (roundHalfEven_cases y) as [H1 [H2 H3]].
  assert (Hn : (n <= Qfloor y)%Z \/ (Qfloor y + 1 <= n)%Z) by lia.
  assert (Hn' : inject_Z n <= inject_Z (Qfloor y)
                \/ inject_Z (Qfloor y) + 1 <= inject_Z n).
  { destruct Hn as [Hn|Hn]; [left|right].
    - now rewrite <- Zle_Qle.
    - change 1 with (inject_Z 1). rewrite <- inject_Z_plus, <- Zle_Qle.
      exact Hn. }
  destruct H3 as [[-> Hr]|[-> Hr]]; rewrite ?inject_Z_plus;
    change (inject_Z 1) with 1;
    apply Qabs_case; intros Ha; apply Qabs_case; intros Hb;
    destruct Hn' as [Hn'|Hn']; lra.
Qed.

Lemma roundHalfEven_comp y y' : y == y' -> roundHalfEven y = roundHalfEven y'.
Proof.
  intros E. unfold roundHalfEven. rewrite (Qfloor_comp _ _ E).
  assert (C : (y - inject_Z (Qfloor y') ?= 1 # 2)
              = (y' - inject_Z (Qfloor y') ?= 1 # 2)) by now rewrite E.
  now rewrite C.
Qed.

Lemma roundHalfEven_Z (n : Z) : roundHalfEven (inject_Z n) = n.
Proof.
  pose proof (roundHalfEven_nearest (inject_Z n) n) as H.
  setoid_replace (inject_Z n - inject_Z n) with 0 in H by ring.
  change (Qabs 0) with 0 in H.
  assert (E : inject_Z (roundHalfEven (inject_Z n)) - inject_Z n == 0).
  { revert H. apply Qabs_case; intros; lra. }
  assert (E' : inject_Z (roundHalfEven (inject_Z n)) == inject_Z n) by lra.
  rewrite inject_Z_injective in E'. exact E'.
Qed.

Lemma roundHalfEven_le y (n : Z) :
  y <= inject_Z n -> (roundHalfEven y <= n)%Z.
Proof.
  intros Hy. pose proof (roundHalfEven_nearest y n) as H.
  destruct (Z.le_gt_cases (roundHalfEven y) n) as [L|G]; [exact L|].
  exfalso. assert (G' : inject_Z n + 1 <= inject_Z (roundHalfEven y)).
  { change 1 with (inject_Z 1). rewrite <- inject_Z_plus, <- Zle_Qle. lia. }
  revert H. apply Qabs_case; intros Ha; apply Qabs_case; intros Hb; lra.
Qed.

Lemma roundHalfEven_ge y (n : Z) :
  inject_Z n <= y -> (n <= roundHalfEven y)%Z.
Proof.
  intros Hy. pose proof (roundHalfEven_nearest y n) as H.
  destruct (Z.le_gt_cases n (roundHalfEven y)) as [L|G]; [exact L|].
  exfalso. assert (G' : inject_Z (roundHalfEven y) + 1 <= inject_Z n).
  { change 1 with (inject_Z 1). rewrite <- inject_Z_plus, <- Zle_Qle. lia. }
  revert H. apply Qabs_case; intros Ha; apply Qabs_case; intros Hb; lra.
Qed.

Lemma roundHalfEven_half y :
  Qabs (inject_Z (roundHalfEven y) - y) <= 1 # 2.
Proof.
  destruct (roundHalfEven_cases y) as [H1 [H2 H3]].
  destruct H3 as [[-> Hr]|[-> Hr]]; rewrite ?inject_Z_plus;
    change (inject_Z 1) with 1;
    apply Qabs_case; intros Ha; lra.
Qed.

(** Rounding to the nearest double. *)

Lemma Qabs_positive x : 0 < x -> Qabs x = x.
Proof.
  destruct x as [[|p|p] d]; intros H; try reflexivity; discriminate H.
Qed.

Lemma roundDouble_grid x (n : Z) :
  Qabs (roundDouble x - x) <= Qabs (inject_Z n * pow2 (ulpExponent x) - x).
Proof.
  unfold roundDouble. cbv zeta. set (u := pow2 (ulpExponent x)).
  assert (Hu : 0 < u) by apply pow2_pos.
  assert (Hu0 : ~ u == 0) by (intros E; rewrite E in Hu; discriminate Hu).
  setoid_replace (inject_Z (roundHalfEven (x / u)) * u - x)
    with ((inject_Z (roundHalfEven (x / u)) - x / u) * u) by (field; exact Hu0).
  setoid_replace (inject_Z n * u - x)
    with ((inject_Z n - x / u) * u) by (field; exact Hu0).
  rewrite !Qabs_Qmult. rewrite (Qabs_pos u) by lra.
  apply Qmult_le_compat_r; [apply roundHalfEven_nearest | lra].
Qed.

Lemma ulpExponent_cases x :
  (ulpExponent x = (binade (Qabs x) - 52)%Z /\ (-1074 <= binade (Qabs x) - 52)%Z)
  \/ (ulpExponent x = (-1074)%Z /\ (binade (Qabs x) - 52 < -1074)%Z).
Proof. unfold ulpExponent. lia. Qed.

Lemma roundDouble_nearest x f :
  0 < x -> isDouble f -> Qabs (roundDouble x - x) <= Qabs (f - x).
Proof.
  intros Hx [m [k [Hm [Hk Hf]]]].
  pose proof (Qabs_positive x Hx) as Habs.
  destruct (binade_spec x Hx) as [B1 B2].
  destruct (Z.le_gt_cases (ulpExponent x) k) as [L|G].
  - (* [f] is a multiple of the unit in the last place of [x] *)
    pose proof (roundDouble_grid x (m * 2 ^ (k - ulpExponent x))) as H.
    assert (E : inject_Z (m * 2 ^ (k - ulpExponent x)) * pow2 (ulpExponent x)
                == f).
    { rewrite Hf, inject_Z_mult, <- pow2_Z by lia.
      rewrite <- Qmult_assoc, <- pow2_add.
      now replace (k - ulpExponent x + ulpExponent x)%Z with k by lia. }
    now rewrite E in H.
  - (* [f] lies on a finer grid, below the binade of [x] *)
    destruct (ulpExponent_cases x) as [[Hu Hn]|[Hu Hn]]; [|lia].
    rewrite Habs in Hu, Hn.
    assert (Hf' : f <= pow2 (binade x)).
    { rewrite Hf.
      apply Qle_trans with (inject_Z (2 ^ 53) * pow2 k).
      - apply Qmult_le_compat_r; [|apply Qlt_le_weak, pow2_pos].
        rewrite <- Zle_Qle. lia.
      - rewrite <- pow2_Z, <- pow2_add by lia. apply pow2_le. lia. }
    pose proof (roundDouble_grid x (2 ^ 52)) as H.
    assert (E : inject_Z (2 ^ 52) * pow2 (ulpExponent x) == pow2 (binade x)).
    { rewrite <- pow2_Z, <- pow2_add by lia. rewrite Hu.
      now replace (52 + (binade x - 52))%Z with (binade x) by lia. }
    rewrite E in H.
    eapply Qle_trans; [exact H|].
    apply Qabs_case; intros Ha; apply Qabs_case; intros Hb; lra.
Qed.

Lemma roundDouble_zero x : x == 0 -> roundDouble x == 0.
Proof.
  intros E. unfold roundDouble. cbv zeta.
  assert (E' : x / pow2 (ulpExponent x) == inject_Z 0).
  { unfold Qdiv. generalize (/ pow2 (ulpExponent x)). intros v.
    rewrite E. apply Qmult_0_l. }
  rewrite (roundHalfEven_comp _ _ E'), roundHalfEven_Z. apply Qmult_0_l.
Qed.

Lemma isDouble_zero : isDouble 0.
Proof. exists 0%Z, 0%Z. repeat split; try lia. Qed.

Lemma isDouble_integer (n : Z) : (Z.abs n <= 2 ^ 53)%Z -> isDouble (inject_Z n).
Proof.
  intros H. exists n, 0%Z. repeat split; try lia.
  change (pow2 0) with 1. now rewrite Qmult_1_r.
Qed.

Lemma roundDouble_isDouble x : 0 <= x -> isDouble (roundDouble x).
Proof.
  intros Hx0. destruct (Qle_lt_or_eq _ _ Hx0) as [Hx|E].
  2: { destruct isDouble_zero as [m [k [Hm [Hk Hf]]]]. exists m, k.
       repeat split; try assumption.
       now rewrite (roundDouble_zero x (Qeq_sym _ _ E)). }
  exists (roundHalfEven (x / pow2 (ulpExponent x))), (ulpExponent x).
  split; [|split; [unfold ulpExponent; lia | reflexivity]].
  pose proof (pow2_pos (ulpExponent x)) as Hu.
  destruct (binade_spec x Hx) as [B1 B2].
  assert (Hlo : (0 <= roundHalfEven (x / pow2 (ulpExponent x)))%Z).
  { apply roundHalfEven_ge. change (inject_Z 0) with 0.
    apply Qle_shift_div_l; [exact Hu | lra]. }
  assert (Hhi : (roundHalfEven (x / pow2 (ulpExponent x)) <= 2 ^ 53)%Z).
  { apply roundHalfEven_le. apply Qle_shift_div_r; [exact Hu|].
    rewrite <- pow2_Z, <- pow2_add by lia.
    apply Qle_trans with (pow2 (binade x + 1)); [lra|].
    apply pow2_le. unfold ulpExponent. rewrite (Qabs_positive x Hx). lia. }
  lia.
Qed.

Lemma roundDouble_comp x y : 0 <= x -> x == y -> roundDouble x == roundDouble y.
Proof.
  intros Hx0 E. destruct (Qle_lt_or_eq _ _ Hx0) as [Hx|E0].
  2: { rewrite (roundDouble_zero x (Qeq_sym _ _ E0)).
       symmetry. apply roundDouble_zero. now rewrite <- E. }
  assert (Hy : 0 < y) by now rewrite <- E.
  unfold roundDouble, ulpExponent. cbv zeta.
  rewrite (Qabs_positive x Hx), (Qabs_positive y Hy).
  rewrite (binade_comp x y Hx E).
  set (u := pow2 (Z.max (binade y - 52) (-1074))).
  assert (E' : x / u == y / u) by now rewrite E.
  now rewrite (roundHalfEven_comp _ _ E').
Qed.

Lemma roundDouble_nonneg x : 0 <= x -> 0 <= roundDouble x.
Proof.
  intros Hx0. destruct (Qle_lt_or_eq _ _ Hx0) as [Hx|E].
  2: { rewrite (roundDouble_zero x (Qeq_sym _ _ E)). apply Qle_refl. }
  pose proof (roundDouble_nearest x 0 Hx isDouble_zero) as H.
  revert H. apply Qabs_case; intros Ha; apply Qabs_case; intros Hb; lra.
Qed.

(** Rounding never swaps two numbers. *)
Lemma roundDouble_monotone a b :
  0 <= a -> a <= b -> roundDouble a <= roundDouble b.
Proof.
  intros Ha0 Hab. destruct (Qle_lt_or_eq _ _ Ha0) as [Ha|E].
  2: { rewrite (roundDouble_zero a (Qeq_sym _ _ E)).
       apply roundDouble_nonneg. lra. }
  assert (Hb : 0 < b) by lra.
  destruct (Qlt_le_dec (roundDouble b) (roundDouble a)) as [Hlt|Hle];
    [|exact Hle].
  pose proof (roundDouble_nearest a (roundDouble b) Ha
                (roundDouble_isDouble b (Qlt_le_weak _ _ Hb))) as Na.
  pose proof (roundDouble_nearest b (roundDouble a) Hb
                (roundDouble_isDouble a Ha0)) as Nb.
  assert (E : a == b).
  { revert Na Nb.
    apply Qabs_case; intros H1; apply Qabs_case; intros H2;
      apply Qabs_case; intros H3; apply Qabs_case; intros H4; intros; lra. }
  rewrite (roundDouble_comp a b Ha0 E). apply Qle_refl.
Qed.

(** A double is its own rounding. *)
Lemma roundDouble_id f : 0 <= f -> isDouble f -> roundDouble f == f.
Proof.
  intros Hf0 Hd. destruct (Qle_lt_or_eq _ _ Hf0) as [Hf|E].
  2: { rewrite (roundDouble_zero f (Qeq_sym _ _ E)). exact E. }
  pose proof (roundDouble_nearest f f Hf Hd) as H.
  revert H. apply Qabs_case; intros Ha; apply Qabs_case; intros Hb; lra.
Qed.

Lemma roundDouble_integer (n : Z) :
  (0 <= n <= 2 ^ 53)%Z -> roundDouble (inject_Z n) == inject_Z n.
Proof.
  intros H. apply roundDouble_id.
  - change 0 with (inject_Z 0). rewrite <- Zle_Qle. lia.
  - apply isDouble_integer. lia.
Qed.

(** In the normal range the rounding error is at most 2^-53 of the value. *)
Lemma roundDouble_relative x :
  pow2 (-1022) <= x -> Qabs (roundDouble x - x) <= x * pow2 (-53).
Proof.
  intros Hn. assert (Hx : 0 < x) by (pose proof (pow2_pos (-1022)); lra).
  destruct (binade_spec x Hx) as [B1 B2].
  assert (Hb : (-1022 <= binade x)%Z).
  { destruct (Z.le_gt_cases (-1022) (binade x)) as [L|G]; [exact L|].
    exfalso. assert (pow2 (binade x + 1) <= pow2 (-1022)) by (apply pow2_le; lia).
    lra. }
  unfold roundDouble. cbv zeta.
  assert (Hu : ulpExponent x = (binade x - 52)%Z)
    by (unfold ulpExponent; rewrite (Qabs_positive x Hx); lia).
  rewrite Hu. set (u := pow2 (binade x - 52)).
  assert (Hu0 : 0 < u) by apply pow2_pos.
  assert (Hun : ~ u == 0) by (intros E; rewrite E in Hu0; discriminate Hu0).
  setoid_replace (inject_Z (roundHalfEven (x / u)) * u - x)
    with ((inject_Z (roundHalfEven (x / u)) - x / u) * u) by (field; exact Hun).
  rewrite Qabs_Qmult, (Qabs_pos u) by lra.
  pose proof (roundHalfEven_half (x / u)) as Hh.
  apply Qle_trans with ((1 # 2) * u).
  - apply Qmult_le_compat_r; [exact Hh | lra].
  - assert (E : (1 # 2) * u == pow2 (binade x) * pow2 (-53)).
    { unfold u. rewrite <- pow2_add.
      replace (binade x + -53)%Z with (-1 + (binade x - 52))%Z by lia.
      rewrite pow2_add. reflexivity. }
    rewrite E. apply Qmult_le_compat_r; [exact B1|].
    apply Qlt_le_weak, pow2_pos.
Qed.

End Doubles.

(** ** CanvasUtility *)

Lemma positiveFinite_guard v :
  positiveFinite v <->
  negb (typeof_number v) || js_le0 v || negb (isFinite v) = false.
Proof.
  unfold positiveFinite. split.
  - intros [q [-> Hq]]. cbn. destruct (Qle_bool q 0) eqn:Hle; [|reflexivity].
    apply Qle_bool_iff in Hle. exfalso. eapply Qlt_not_le; eassumption.
  - destruct v as [| |b|[| | |q]|s]; cbn; try discriminate.
    rewrite orb_false_r. intros Hle. exists q. split; [reflexivity|].
    apply Qnot_le_lt. intros Hq. apply Qle_bool_iff in Hq.
    rewrite Hq in Hle. discriminate.
Qed.

Lemma createCanvas_guard width height :
  negb (typeof_number width) || negb (typeof_number height)
  || js_le0 width || js_le0 height
  || negb (isFinite width) || negb (isFinite height)
  = negb ((negb (negb (typeof_number width) || js_le0 width
                 || negb (isFinite width)))
          && (negb (negb (typeof_number height) || js_le0 height
                    || negb (isFinite height)))).
Proof.
  destruct (typeof_number width), (typeof_number height), (js_le0 width),
    (js_le0 height), (isFinite width), (isFinite height); reflexivity.
Qed.

Lemma assignedDimension_floor default (q : Q) :
  (0 <= q)%Q -> (q < inject_Z 2147483648)%Q ->
  assignedDimension default q = inject_Z (Qfloor q).
Proof.
  intros H0 H1. unfold assignedDimension, toUnsignedLong.
  apply Qle_bool_iff in H0. rewrite H0.
  assert (Hlo : (0 <= Qfloor q)%Z).
  { change 0%Z with (Qfloor (inject_Z 0)). apply Qfloor_resp_le.
    now apply Qle_bool_iff. }
  assert (Hhi : (Qfloor q < 2147483648)%Z).
  { rewrite Zlt_Qlt. eapply Qle_lt_trans; [apply Qfloor_le | exact H1]. }
  rewrite Z.mod_small by (change (2 ^ 32)%Z with 4294967296%Z; lia).
  destruct (Z.ltb_spec 2147483647 (Qfloor q)) as [H|H]; [lia | reflexivity].
Qed.

Lemma assignedDimension_integer default (z : Z) :
  (0 <= z <= 2147483647)%Z ->
  assignedDimension default (inject_Z z) = inject_Z z.
Proof.
  intros Hz. rewrite assignedDimension_floor.
  - now rewrite Qfloor_Z.
  - change 0%Q with (inject_Z 0). rewrite <- Zle_Qle. lia.
  - rewrite <- Zlt_Qlt. lia.
Qed.

(** C8 (counterexample). 1.5 is not an integer, yet [createCanvas(1.5, 2)]
    returns a canvas instead of failing: the 1 x 2 canvas that is left when
    the element drops the fraction.  And 3000000000 is a positive integer,
    yet the canvas of [createCanvas(3000000000, 1)] is 300 wide: beyond
    2147483647 the element falls back to its default. *)
Lemma createCanvas_accepts_fraction :
  (~ positiveInteger Samples.oneAndAHalf
   /\ CanvasUtility.createCanvas Samples.oneAndAHalf
        (VNum (Fin (inject_Z 2)))
      = Return (mkCanvas (inject_Z 1) (inject_Z 2)))
  /\ (positiveInteger (VNum (Fin (inject_Z 3000000000)))
      /\ CanvasUtility.createCanvas (VNum (Fin (inject_Z 3000000000)))
           (VNum (Fin (inject_Z 1)))
         = Return (mkCanvas (inject_Z 300) (inject_Z 1))).
Proof.
  split; split; try reflexivity.
  - intros [z [Heq _]]. unfold Samples.oneAndAHalf in Heq.
    injection Heq as Hnum Hden. discriminate.
  - exists 3000000000%Z. split; [reflexivity | lia].
Qed.

(** C8 (amended). [createCanvas] throws the canvas error exactly when one
    of its arguments is not a finite number above zero; on two such
    numbers, integers or not, it returns a canvas, which holds the
    arguments without their fractions when they are below 2^31; so for
    every pair of positive integers up to 2147483647 the canvas has the
    arguments as its width and height. *)
Theorem createCanvas_positive_finite (width height : JsVal) :
  (positiveFinite width /\ positiveFinite height ->
   exists c, CanvasUtility.createCanvas width height = Return c)
  /\ (~ (positiveFinite width /\ positiveFinite height) ->
      CanvasUtility.createCanvas width height
      = Throw (plainError (Constants.messageOf Constants.CANVAS_ERROR)))
  /\ (forall qw qh : Q,
        width = VNum (Fin qw) -> height = VNum (Fin qh) ->
        (0 < qw)%Q -> (qw < inject_Z 2147483648)%Q ->
        (0 < qh)%Q -> (qh < inject_Z 2147483648)%Q ->
        CanvasUtility.createCanvas width height
        = Return (mkCanvas (inject_Z (Qfloor qw)) (inject_Z (Qfloor qh))))
  /\ (forall w h : Z,
        width = VNum (Fin (inject_Z w)) -> height = VNum (Fin (inject_Z h)) ->
        (0 < w <= 2147483647)%Z -> (0 < h <= 2147483647)%Z ->
        CanvasUtility.createCanvas width height
        = Return (mkCanvas (inject_Z w) (inject_Z h))).
Proof.
  assert (Hpos : positiveFinite width /\ positiveFinite height ->
                 CanvasUtility.createCanvas width height
                 = Return (mkCanvas (assignedDimension 300 (numOf width))
                                    (assignedDimension 150 (numOf height)))).
  { unfold CanvasUtility.createCanvas. rewrite createCanvas_guard.
    intros [Hw Hh].
    pose proof (proj1 (positiveFinite_guard width) Hw) as Gw.
    pose proof (proj1 (positiveFinite_guard height) Hh) as Gh.
    now rewrite Gw, Gh. }
  split; [|split; [|split]].
  - intros H. eexists. exact (Hpos H).
  - unfold CanvasUtility.createCanvas. rewrite createCanvas_guard.
    intros Hnot.
    destruct (negb (typeof_number width) || js_le0 width
              || negb (isFinite width)) eqn:Gw; [reflexivity|].
    destruct (negb (typeof_number height) || js_le0 height
              || negb (isFinite height)) eqn:Gh; [reflexivity|].
    exfalso. apply Hnot. split; apply positiveFinite_guard; assumption.
  - intros qw qh -> -> Hw0 Hw1 Hh0 Hh1.
    rewrite Hpos by (split; eexists; (split; [reflexivity | assumption])).
    cbn [numOf].
    rewrite !assignedDimension_floor by
        first [assumption | apply Qlt_le_weak; assumption].
    reflexivity.
  - intros w h -> -> Hw Hh.
    rewrite Hpos.
    + cbn [numOf]. now rewrite !assignedDimension_integer by lia.
    + split; eexists; (split; [reflexivity|]);
        change 0%Q with (inject_Z 0); rewrite <- Zlt_Qlt; lia.
Qed.

(** 800 x 600 gives a canvas of that size; 1.5 x 2 gives a canvas; 0 x NaN
    throws. *)
Lemma createCanvas_positive_finite_witness :
  CanvasUtility.createCanvas (VNum (Fin (inject_Z 800)))
    (VNum (Fin (inject_Z 600)))
  = Return (mkCanvas (inject_Z 800) (inject_Z 600))
  /\ (exists c,
        CanvasUtility.createCanvas Samples.oneAndAHalf
          (VNum (Fin (inject_Z 2))) = Return c)
  /\ CanvasUtility.createCanvas (VNum (Fin 0)) (VNum NaN)
     = Throw (plainError (Constants.messageOf Constants.CANVAS_ERROR)).
Proof.
  split; [|split].
  - refine (proj2 (proj2 (proj2 (createCanvas_positive_finite
                                   (VNum (Fin (inject_Z 800)))
                                   (VNum (Fin (inject_Z 600))))))
              800%Z 600%Z eq_refl eq_refl _ _); lia.
  - refine (proj1 (createCanvas_positive_finite Samples.oneAndAHalf
                     (VNum (Fin (inject_Z 2)))) _).
    split; eexists; (split; [reflexivity | reflexivity]).
  - refine (proj1 (proj2 (createCanvas_positive_finite (VNum (Fin 0))
                            (VNum NaN))) _).
    intros [_ [q [Hq _]]]. discriminate Hq.
Defined.

(** C1. [resizeImage] on a 1024 x 12 image with bounds 128 x 128 returns a
    128 x 2 canvas (12 * 0.125 = 1.5 rounds up to 2; every number involved
    is a dyadic fraction, so the doubles of the source compute the same):
    the bounds hold, but the aspect ratio moves from 256/3 to 64, far more
    than the tolerance of 0.01. *)
Theorem resizeImage_aspect_ratio_drift :
  exists c,
    CanvasUtility.resizeImage (CanvasUtility.AnImage (mkImage 1024 12))
      (VNum (Fin (inject_Z 128))) (VNum (Fin (inject_Z 128))) = Return c
    /\ (canvas_width c == inject_Z 128)%Q
    /\ (canvas_height c == inject_Z 2)%Q
    /\ (Qabs (inject_Z 1024 / inject_Z 12 - canvas_width c / canvas_height c)
        == 64 # 3)%Q
    /\ ~ (Qabs (inject_Z 1024 / inject_Z 12 - canvas_width c / canvas_height c)
          < Constants.ASPECT_RATIO_TOLERANCE)%Q.
Proof.
  eexists. split; [vm_compute; reflexivity|].
  cbn [canvas_width canvas_height].
  repeat split; try reflexivity.
  intros H. vm_compute in H. discriminate H.
Qed.

(** The same drift under the bounds the orchestrator ships with: a
    4096 x 48 image compressed to fit 2000 x 2000 comes out 2000 x 23
    (48 * 2000 / 4096 = 23.4375), a ratio of 86.96 against 85.33. *)
Lemma resizeImage_drift_at_shipped_bounds :
  exists c,
    CanvasUtility.resizeImage (CanvasUtility.AnImage (mkImage 4096 48))
      (VNum (Fin (inject_Z Constants.MAX_IMAGE_WIDTH)))
      (VNum (Fin (inject_Z Constants.MAX_IMAGE_HEIGHT))) = Return c
    /\ (canvas_width c == inject_Z 2000)%Q
    /\ (canvas_height c == inject_Z 23)%Q
    /\ (Constants.ASPECT_RATIO_TOLERANCE
        < Qabs (inject_Z 4096 / inject_Z 48 - canvas_width c / canvas_height c))%Q.
Proof.
  eexists. split; [vm_compute; reflexivity|].
  cbn [canvas_width canvas_height].
  split; [reflexivity|]. split; [reflexivity|]. reflexivity.
Qed.

(** With bounds that are not whole numbers the width bound itself can be
    missed: a 106 x 10010 image under 10.6 x 1000.5 (the doubles nearest to
    them) first becomes 10.6 x 1001, then 11 x 1000.5 (10.6 * 1000.5 / 1001
    = 10.59... rounds to 11), which the canvas holds as 11 x 1000. *)
Lemma resizeImage_exceeds_fractional_bound :
  exists c,
    CanvasUtility.resizeImage (CanvasUtility.AnImage (mkImage 106 10010))
      (VNum (Fin (roundDouble (106 # 10)))) (VNum (Fin (2001 # 2))) = Return c
    /\ (canvas_width c == inject_Z 11)%Q
    /\ (roundDouble (106 # 10) < canvas_width c)%Q.
Proof.
  eexists. split; [vm_compute; reflexivity|].
  cbn [canvas_width]. split; [reflexivity|]. vm_compute. reflexivity.
Qed.

(** A second input, 1000 x 1 with bounds 10 x 10: the height, 0.01, rounds
    to 0 and [createCanvas] rejects it, so no canvas comes back at all. *)
Lemma resizeImage_rounds_to_zero :
  CanvasUtility.resizeImage (CanvasUtility.AnImage (mkImage 1000 1))
    (VNum (Fin (inject_Z 10))) (VNum (Fin (inject_Z 10)))
  = Throw (plainError (Constants.messageOf Constants.CANVAS_ERROR)).
Proof. vm_compute. reflexivity. Qed.

Lemma Qgtb_true a b : Qgtb a b = true -> (b < a)%Q.
Proof.
  unfold Qgtb. intros H. apply Qnot_le_lt. intros Hle.
  apply Qle_bool_iff in Hle. rewrite Hle in H. discriminate.
Qed.

Lemma Qgtb_false a b : Qgtb a b = false -> (a <= b)%Q.
Proof.
  unfold Qgtb. intros H. apply Qle_bool_iff.
  destruct (Qle_bool a b); [reflexivity | discriminate].
Qed.

Lemma Math_round_le_integer (x : Q) (k : Z) :
  (x <= inject_Z k)%Q -> (Math_round x <= inject_Z k)%Q.
Proof.
  intros Hx. unfold Math_round. rewrite <- Zle_Qle.
  assert (H : (Qfloor (x + (1 # 2)) < k + 1)%Z).
  { rewrite Zlt_Qlt.
    apply Qle_lt_trans with (x + (1 # 2))%Q; [apply Qfloor_le|].
    rewrite inject_Z_plus. rewrite (Qplus_comm x), (Qplus_comm (inject_Z k)).
    apply Qplus_lt_le_compat; [reflexivity | exact Hx]. }
  lia.
Qed.

Section ResizeArithmetic.
Local Open Scope Q_scope.

Lemma Math_round_nonneg x : 0 <= x -> (0 <= Qfloor (x + (1 # 2)))%Z.
Proof.
  intros Hx. change 0%Z with (Qfloor (inject_Z 0)). apply Qfloor_resp_le.
  change (inject_Z 0) with 0. lra.
Qed.

Lemma Math_round_positive x : 1 # 2 <= x -> (1 <= Qfloor (x + (1 # 2)))%Z.
Proof.
  intros Hx. apply Z.le_trans with (Qfloor (inject_Z 1)).
  - rewrite Qfloor_Z. lia.
  - apply Qfloor_resp_le. change (inject_Z 1) with 1. lra.
Qed.

Lemma inject_Z_pos (z : Z) : (0 < z)%Z -> 0 < inject_Z z.
Proof. intros H. change 0 with (inject_Z 0). now rewrite <- Zlt_Qlt. Qed.

Lemma isDouble_half : isDouble (1 # 2).
Proof. exists 1%Z, (-1)%Z. repeat split; try lia. Qed.

(** The quotient of two whole numbers, the smaller by the larger. *)
Lemma js_div_ratio (num den : Z) :
  (0 < num <= den)%Z -> (den <= 2 ^ 53)%Z ->
  let exact := inject_Z num / inject_Z den in
  let ratio := js_div (inject_Z num) (inject_Z den) in
  0 < exact /\ exact <= 1 /\ 0 <= ratio /\ ratio <= 1
  /\ Qabs (ratio - exact) <= exact * pow2 (-53).
Proof.
  intros Hn Hd. cbv zeta. unfold js_div.
  pose proof (inject_Z_pos num ltac:(lia)) as Pn.
  pose proof (inject_Z_pos den ltac:(lia)) as Pd.
  assert (Hle : inject_Z num <= inject_Z den) by (rewrite <- Zle_Qle; lia).
  assert (Hq0 : 0 < inject_Z num / inject_Z den)
    by (apply Qlt_shift_div_l; [exact Pd | lra]).
  assert (Hq1 : inject_Z num / inject_Z den <= 1)
    by (apply Qle_shift_div_r; [exact Pd | lra]).
  split; [exact Hq0|]. split; [exact Hq1|].
  split; [apply roundDouble_nonneg; lra|]. split.
  - pose proof (roundDouble_integer 1 ltac:(lia)) as E.
    pose proof (roundDouble_monotone (inject_Z num / inject_Z den)
                  (inject_Z 1) ltac:(lra) Hq1) as M.
    change (inject_Z 1) with 1 in *. lra.
  - apply roundDouble_relative.
    apply Qle_trans with (pow2 (-53)); [apply pow2_le; lia|].
    apply Qle_shift_div_l; [exact Pd|].
    assert (Hd' : inject_Z den <= pow2 53)
      by (rewrite pow2_Z by lia; rewrite <- Zle_Qle; exact Hd).
    assert (E : pow2 (-53) * pow2 53 == 1)
      by (rewrite <- pow2_add; reflexivity).
    assert (P : 0 < pow2 (-53)) by apply pow2_pos.
    assert (H1 : 1 <= inject_Z num)
      by (change 1 with (inject_Z 1); rewrite <- Zle_Qle; lia).
    apply Qle_trans with (pow2 (-53) * pow2 53); [|lra].
    apply Qmult_le_l; assumption.
Qed.

(** A whole dimension [a] scaled by such a quotient and rounded:
    [Math.round(a * (num / den))]. *)
Lemma scaled_dimension (a num den : Z) :
  (0 <= a <= 2 ^ 53)%Z -> (0 < num <= den)%Z -> (den <= 2 ^ 53)%Z ->
  let k := Qfloor (js_mul (inject_Z a)
                     (js_div (inject_Z num) (inject_Z den)) + (1 # 2)) in
  (0 <= k <= a)%Z /\ ((den <= a * num)%Z -> (1 <= k)%Z).
Proof.
  intros Ha Hn Hd. cbv zeta.
  destruct (js_div_ratio num den Hn Hd) as [Hq0 [Hq1 [Hr0 [Hr1 Herr]]]].
  cbv zeta in Hq0, Hq1, Hr0, Hr1, Herr.
  set (q := inject_Z num / inject_Z den) in *.
  set (r := js_div (inject_Z num) (inject_Z den)) in *.
  assert (Pa : 0 <= inject_Z a)
    by (change 0 with (inject_Z 0); rewrite <- Zle_Qle; lia).
  assert (Hprod0 : 0 <= inject_Z a * r) by (apply Qmult_le_0_compat; assumption).
  assert (Hprod1 : inject_Z a * r <= inject_Z a).
  { rewrite <- (Qmult_1_r (inject_Z a)) at 2.
    destruct (Qle_lt_or_eq _ _ Pa) as [Pa'|E].
    - apply Qmult_le_l; assumption.
    - rewrite <- E. lra. }
  unfold js_mul. split; [split|].
  - apply Math_round_nonneg. now apply roundDouble_nonneg.
  - pose proof (Math_round_le_integer (roundDouble (inject_Z a * r)) a) as H.
    unfold Math_round in H. rewrite <- Zle_Qle in H. apply H.
    pose proof (roundDouble_integer a ltac:(lia)) as E.
    pose proof (roundDouble_monotone _ _ Hprod0 Hprod1) as M. lra.
  - intros Hbig. apply Math_round_positive.
    pose proof (roundDouble_id (1 # 2) ltac:(lra) isDouble_half) as E.
    apply Qle_trans with (roundDouble (1 # 2)); [lra|].
    apply roundDouble_monotone; [lra|].
    pose proof (inject_Z_pos den ltac:(lia)) as Pd.
    assert (Haq : 1 <= inject_Z a * q).
    { unfold q. apply Qle_trans with (inject_Z (a * num) / inject_Z den).
      - apply Qle_shift_div_l; [exact Pd|]. rewrite Qmult_1_l.
        rewrite <- Zle_Qle. exact Hbig.
      - rewrite inject_Z_mult. unfold Qdiv. rewrite Qmult_assoc.
        apply Qle_refl. }
    assert (P53 : pow2 (-53) <= 1 # 2) by (vm_compute; discriminate).
    assert (P53' : 0 < pow2 (-53)) by apply pow2_pos.
    assert (Hr : q - q * pow2 (-53) <= r)
      by (revert Herr; apply Qabs_case; intros; lra).
    assert (Ha1 : 1 <= inject_Z a)
      by (change 1 with (inject_Z 1); rewrite <- Zle_Qle; nia).
    apply Qle_trans with (inject_Z a * (q - q * pow2 (-53))).
    + setoid_replace (inject_Z a * (q - q * pow2 (-53)))
        with (inject_Z a * q * (1 - pow2 (-53))) by ring.
      apply Qle_trans with (1 * (1 - pow2 (-53))); [lra|].
      apply Qmult_le_compat_r; [exact Haq | lra].
    + apply Qmult_le_l; [lra | exact Hr].
Qed.

(** The dimensions [resizeImage] hands to [createCanvas] are whole. *)
Lemma resizeImage_dimensions (w h maxW maxH : Z) :
  (0 < w <= 2 ^ 53)%Z -> (0 < h <= 2 ^ 53)%Z ->
  (0 < maxW <= 2 ^ 53)%Z -> (0 < maxH <= 2 ^ 53)%Z ->
  exists w' h' : Z,
    CanvasUtility.resizeImage (CanvasUtility.AnImage (mkImage w h))
      (VNum (Fin (inject_Z maxW))) (VNum (Fin (inject_Z maxH)))
    = CanvasUtility.createCanvas (VNum (Fin (inject_Z w')))
        (VNum (Fin (inject_Z h')))
    /\ (0 <= w' <= Z.min w maxW)%Z /\ (0 <= h' <= Z.min h maxH)%Z
    /\ ((w <= maxW)%Z -> (h <= maxH)%Z -> w' = w /\ h' = h)
    /\ ((w <= h * maxW)%Z -> (h <= Z.min w maxW * maxH)%Z ->
        (0 < w')%Z /\ (0 < h')%Z).
Proof.
  intros Hw Hh HmW HmH. unfold CanvasUtility.resizeImage.
  cbn [typeof_number isFinite js_le0 numOf negb orb img_width img_height].
  assert (GW : Qle_bool (inject_Z maxW) 0 = false).
  { destruct (Qle_bool (inject_Z maxW) 0) eqn:E; [|reflexivity].
    apply Qle_bool_iff in E. change 0 with (inject_Z 0) in E.
    rewrite <- Zle_Qle in E. lia. }
  assert (GH : Qle_bool (inject_Z maxH) 0 = false).
  { destruct (Qle_bool (inject_Z maxH) 0) eqn:E; [|reflexivity].
    apply Qle_bool_iff in E. change 0 with (inject_Z 0) in E.
    rewrite <- Zle_Qle in E. lia. }
  rewrite GW, GH. cbn [orb].
  destruct (Qle_bool (inject_Z w) (inject_Z maxW)
            && Qle_bool (inject_Z h) (inject_Z maxH)) eqn:Hfits.
  - apply andb_true_iff in Hfits. destruct Hfits as [F1 F2].
    apply Qle_bool_iff in F1, F2. rewrite <- Zle_Qle in F1, F2.
    exists w, h. split; [reflexivity|]. repeat split; lia.
  - assert (Hnofit : ~ ((w <= maxW)%Z /\ (h <= maxH)%Z)).
    { intros [A B]. rewrite Zle_Qle in A, B. apply Qle_bool_iff in A, B.
      rewrite A, B in Hfits. discriminate. }
    (* first, fit by width *)
    assert (H1 : exists w1 h1 : Z,
               (if Qgtb (inject_Z w) (inject_Z maxW)
                then (inject_Z maxW,
                      Math_round (js_mul (inject_Z h)
                                    (js_div (inject_Z maxW) (inject_Z w))))
                else (inject_Z w, inject_Z h))
               = (inject_Z w1, inject_Z h1)
               /\ w1 = Z.min w maxW /\ (0 <= h1 <= h)%Z
               /\ ((w <= h * maxW)%Z -> (0 < h1)%Z)).
    { destruct (Qgtb (inject_Z w) (inject_Z maxW)) eqn:E.
      - apply Qgtb_true in E. rewrite <- Zlt_Qlt in E.
        destruct (scaled_dimension h maxW w) as [Hk Hk']; try lia.
        eexists maxW, _. split; [reflexivity|]. split; [lia|].
        split; [exact Hk|]. intros Hbig. apply Hk' in Hbig. lia.
      - apply Qgtb_false in E. rewrite <- Zle_Qle in E.
        exists w, h. split; [reflexivity|]. split; lia. }
    destruct H1 as [w1 [h1 [-> [Hw1 [Hh1 Hh1']]]]].
    (* then, check the height *)
    destruct (Qgtb (inject_Z h1) (inject_Z maxH)) eqn:E2.
    + apply Qgtb_true in E2. rewrite <- Zlt_Qlt in E2.
      destruct (scaled_dimension w1 maxH h1) as [Hk Hk']; try lia.
      eexists _, maxH. split; [reflexivity|].
      split; [lia|]. split; [lia|].
      split; [intros A B; exfalso; apply Hnofit; auto|].
      intros B1 B2. rewrite <- Hw1 in B2.
      assert (Hk1 : (h1 <= w1 * maxH)%Z) by lia.
      specialize (Hk' Hk1). split; lia.
    + apply Qgtb_false in E2. rewrite <- Zle_Qle in E2.
      exists w1, h1. split; [reflexivity|].
      split; [lia|]. split; [lia|].
      split; [intros A B; exfalso; apply Hnofit; auto|].
      intros B1 B2. split; [lia | now apply Hh1'].
Qed.

(** A canvas never holds more than was assigned to it. *)
Lemma assignedDimension_le default (z : Z) :
  (0 <= z)%Z -> (0 <= default <= 2147483647)%Z ->
  exists k : Z,
    assignedDimension default (inject_Z z) = inject_Z k /\ (0 <= k <= z)%Z.
Proof.
  intros Hz Hd. unfold assignedDimension, toUnsignedLong.
  assert (G : Qle_bool 0 (inject_Z z) = true).
  { apply Qle_bool_iff. change 0 with (inject_Z 0).
    now rewrite <- Zle_Qle. }
  rewrite G, Qfloor_Z. eexists. split; [reflexivity|].
  pose proof (Z.mod_pos_bound z (2 ^ 32) ltac:(lia)) as Hm.
  pose proof (Z.mod_le z (2 ^ 32) Hz ltac:(lia)) as Hle.
  destruct (Z.ltb_spec 2147483647 (z mod 2 ^ 32)); lia.
Qed.

Lemma createCanvas_integers (a b : Z) :
  CanvasUtility.createCanvas (VNum (Fin (inject_Z a)))
    (VNum (Fin (inject_Z b)))
  = if ((0 <? a) && (0 <? b))%Z
    then Return (mkCanvas (assignedDimension 300 (inject_Z a))
                          (assignedDimension 150 (inject_Z b)))
    else Throw (plainError (Constants.messageOf Constants.CANVAS_ERROR)).
Proof.
  unfold CanvasUtility.createCanvas.
  cbn [typeof_number isFinite js_le0 numOf negb orb].
  assert (G : forall z, Qle_bool (inject_Z z) 0 = negb (0 <? z)%Z).
  { intros z. destruct (Z.ltb_spec 0 z) as [H|H]; cbn [negb].
    - destruct (Qle_bool (inject_Z z) 0) eqn:E; [|reflexivity].
      apply Qle_bool_iff in E. change 0 with (inject_Z 0) in E.
      rewrite <- Zle_Qle in E. lia.
    - apply Qle_bool_iff. change 0 with (inject_Z 0).
      now rewrite <- Zle_Qle. }
  rewrite !G. rewrite !orb_false_r.
  now destruct (0 <? a)%Z, (0 <? b)%Z.
Qed.

End ResizeArithmetic.

(** What the source's two bounds promise does hold for whole-number
    bounds: whenever [resizeImage] returns a canvas for a properly sized
    image, the canvas fits within [maxWidth] x [maxHeight]. *)
Lemma resizeImage_within_bounds (w h maxW maxH : Z) c :
  (0 < w <= 2 ^ 53)%Z -> (0 < h <= 2 ^ 53)%Z ->
  (0 < maxW <= 2 ^ 53)%Z -> (0 < maxH <= 2 ^ 53)%Z ->
  CanvasUtility.resizeImage (CanvasUtility.AnImage (mkImage w h))
    (VNum (Fin (inject_Z maxW))) (VNum (Fin (inject_Z maxH))) = Return c ->
  (canvas_width c <= inject_Z maxW)%Q /\ (canvas_height c <= inject_Z maxH)%Q.
Proof.
  intros Hw Hh HmW HmH.
  destruct (resizeImage_dimensions w h maxW maxH Hw Hh HmW HmH)
    as [w' [h' [-> [Hw' [Hh' _]]]]].
  rewrite createCanvas_integers.
  destruct ((0 <? w') && (0 <? h'))%Z; [|discriminate].
  intros H. injection H as <-. cbn [canvas_width canvas_height].
  destruct (assignedDimension_le 300 w') as [kw [-> Hkw]]; try lia.
  destruct (assignedDimension_le 150 h') as [kh [-> Hkh]]; try lia.
  rewrite <- !Zle_Qle. lia.
Qed.

(** ** PatternExtractor *)

Section DensityBounds.
Import PatternExtractor.
Variable threshold : Q.

Lemma scanUp_none density fuel i :
  Forall (fun d => (d <= threshold)%Q) density ->
  i + fuel <= List.length density ->
  scanUp density threshold fuel i = None.
Proof.
  intros Hall. revert i. induction fuel as [|fuel IH]; intros i Hi.
  - reflexivity.
  - cbn [scanUp].
    assert (Hin : In (nth i density 0%Q) density) by (apply nth_In; lia).
    rewrite Forall_forall in Hall. specialize (Hall _ Hin).
    unfold Qgtb. apply Qle_bool_iff in Hall. rewrite Hall. cbn [negb].
    apply IH. lia.
Qed.

Lemma scanDown_none density n :
  Forall (fun d => (d <= threshold)%Q) density ->
  n <= List.length density ->
  scanDown density threshold n = None.
Proof.
  intros Hall. induction n as [|n IH]; intros Hn.
  - reflexivity.
  - cbn [scanDown].
    assert (Hin : In (nth n density 0%Q) density) by (apply nth_In; lia).
    rewrite Forall_forall in Hall. specialize (Hall _ Hin).
    unfold Qgtb. apply Qle_bool_iff in Hall. rewrite Hall. cbn [negb].
    apply IH. lia.
Qed.

(** With no density above the threshold the defaults [top = 0],
    [bottom = length - 1], [left = 0], [right = length - 1] stay in
    place, and they pass the final test as soon as the image has two
    rows and two columns: the function returns them, not [null]. *)
Lemma findContentBounds_without_content rowDensity colDensity :
  Forall (fun d => (d <= threshold)%Q) rowDensity ->
  Forall (fun d => (d <= threshold)%Q) colDensity ->
  _findContentBounds rowDensity colDensity threshold
  = if (Nat.leb (List.length rowDensity) 1 || Nat.leb (List.length colDensity) 1)
    then None
    else Some (mkBounds 0 0 (Z.of_nat (List.length colDensity) - 1)
                        (Z.of_nat (List.length rowDensity) - 1)).
Proof.
  intros Hrows Hcols. unfold _findContentBounds.
  rewrite (scanUp_none rowDensity _ 0 Hrows) by lia.
  rewrite (scanDown_none rowDensity _ Hrows) by lia.
  rewrite (scanUp_none colDensity _ 0 Hcols) by lia.
  rewrite (scanDown_none colDensity _ Hcols) by lia.
  destruct (Nat.leb_spec (List.length rowDensity) 1),
           (Nat.leb_spec (List.length colDensity) 1); cbn [orb];
    repeat match goal with
           | |- context [(?a <=? ?b)%Z] => destruct (Z.leb_spec a b)
           end; cbn [orb]; try reflexivity; lia.
Qed.
End DensityBounds.

Lemma forallb_Qle_Forall threshold density :
  forallb (fun d => Qle_bool d threshold) density = true ->
  Forall (fun d => (d <= threshold)%Q) density.
Proof.
  intros H. apply Forall_forall. intros d Hd.
  rewrite forallb_forall in H. apply Qle_bool_iff. exact (H d Hd).
Qed.

(** C5. On a 44 x 25 image whose only opaque pixel sits at column 22 of
    row 12, no row and no column is denser than 5% (the densities are 0,
    1/44 and 1/25, far from the threshold also as doubles), yet the density
    detection returns the bounds (0, 0, 43, 24) instead of [null];
    [smartCrop] therefore crops to the whole image and never reaches
    [extractPattern], which would have cropped to the padded pixel. *)
Theorem smartCrop_never_falls_back :
  let image := Samples.speck in
  let rows := PatternExtractor._calculateRowDensity
                (PatternExtractor.id_data image) 44 25 in
  let cols := PatternExtractor._calculateColumnDensity
                (PatternExtractor.id_data image) 44 25 in
  Forall (fun d => (d <= PatternExtractor.default_densityThreshold)%Q) rows
  /\ Forall (fun d => (d <= PatternExtractor.default_densityThreshold)%Q) cols
  /\ PatternExtractor._findContentBounds rows cols
       PatternExtractor.default_densityThreshold
     = Some (PatternExtractor.mkBounds 0 0 43 24)
  /\ PatternExtractor.smartCrop image PatternExtractor.default_densityThreshold
       PatternExtractor.default_padding
     = PatternExtractor.Cropped 0 0 44 25
  /\ PatternExtractor.extractPattern image PatternExtractor.default_padding
       PatternExtractor.default_threshold
     = PatternExtractor.Cropped 2 0 41 25.
Proof.
  intros image rows cols.
  split; [apply forallb_Qle_Forall; vm_compute; reflexivity|].
  split; [apply forallb_Qle_Forall; vm_compute; reflexivity|].
  split; [vm_compute; reflexivity|].
  split; vm_compute; reflexivity.
Qed.

(** The same on the smallest image it can happen on: a blank 2 x 2 image
    cropped without padding comes back as its top-left pixel. *)
Lemma smartCrop_blank_image :
  PatternExtractor.smartCrop Samples.blank
    PatternExtractor.default_densityThreshold 0
  = PatternExtractor.Cropped 0 0 1 1
  /\ PatternExtractor.extractPattern Samples.blank 0
       PatternExtractor.default_threshold
     = PatternExtractor.Uncropped 2 2.
Proof. split; vm_compute; reflexivity. Qed.

(** ** RemoveBgService.removeBackground *)

Lemma RemoveBgService_retryLoop_calls {A} this (operation : nat -> Outcome A)
    attempts lastError calls sleeps :
  calls <= run_calls (RemoveBgService.retryLoop this operation attempts
                        lastError calls sleeps).
Proof.
  revert lastError calls sleeps.
  induction attempts as [|attempt rest IH]; intros lastError calls sleeps.
  - cbn. lia.
  - cbn [RemoveBgService.retryLoop].
    destruct (operation calls) as [a|e|]; cbn [run_calls]; try lia.
    destruct (negb (truthy_bool (err_retryable e))); cbn [run_calls]; try lia.
    destruct (Nat.eqb attempt (RemoveBgService.maxRetries this));
      cbn [run_calls]; try lia.
    specialize (IH (Some e) (S calls)
                  (sleeps ++ [backoffDelay (RemoveBgService.initialDelay this)
                                (RemoveBgService.backoffMultiplier this)
                                attempt])%list).
    lia.
Qed.

Lemma executeWithRetry_calls_once {A} this (operation : nat -> Outcome A) :
  1 <= RemoveBgService.maxRetries this ->
  1 <= run_calls (RemoveBgService._executeWithRetry this operation).
Proof.
  intros Hpos. unfold RemoveBgService._executeWithRetry.
  destruct (RemoveBgService.maxRetries this) as [|n] eqn:Hn; [lia|].
  cbn [seq RemoveBgService.retryLoop]. rewrite Hn.
  destruct (operation 0) as [a|e|]; cbn [run_calls]; try lia.
  destruct (negb (truthy_bool (err_retryable e))); cbn [run_calls]; try lia.
  destruct (Nat.eqb 1 (S n)); cbn [run_calls]; try lia.
  apply RemoveBgService_retryLoop_calls.
Qed.

(** C6 (counterexample). A zero-byte blob passes the validation: the
    request is posted and its answer returned. *)
Lemma removeBackground_posts_empty_blob :
  blob_size Samples.emptyBlob = 0
  /\ RemoveBgService.removeBackground Samples.env Samples.service
       (RemoveBgService.ABlob Samples.emptyBlob) RemoveBgService.noOptions
       world0
     = (Return Samples.cutout, mkWorld 0 0 0 1 []).
Proof. split; reflexivity. Qed.

(** C6 (amended). [removeBackground] checks that its input is present and
    is a [Blob]: for a missing input or another kind of object it throws a
    non-retryable processing error at once and leaves the world untouched
    (no request); a [Blob] of any size, zero bytes included, is posted at
    least once by a service with a positive attempt count. *)
Theorem removeBackground_validates_presence env this imageBlob options w :
  (imageBlob = RemoveBgService.NoBlob \/ imageBlob = RemoveBgService.NotABlob ->
   exists e,
     RemoveBgService.removeBackground env this imageBlob options w
     = (Throw e, w)
     /\ err_type e = Some Constants.PROCESSING_ERROR
     /\ err_retryable e = Some false)
  /\ (forall blob,
        imageBlob = RemoveBgService.ABlob blob ->
        1 <= RemoveBgService.maxRetries this ->
        w_requests w
        < w_requests (snd (RemoveBgService.removeBackground env this imageBlob
                             options w))).
Proof.
  split.
  - intros [-> | ->]; eexists; cbn; repeat split; reflexivity.
  - intros blob -> Hpos. cbn [RemoveBgService.removeBackground snd w_requests].
    pose proof (executeWithRetry_calls_once this
                  (fun k => RemoveBgService.attemptPost
                              (httpPost env (w_requests w + k)
                                 (RemoveBgService.endpoint this)
                                 (RemoveBgService.buildFormData blob options)))
                  Hpos).
    lia.
Qed.

(** A missing input is rejected without a request; the zero-byte blob is
    posted. *)
Lemma removeBackground_validates_presence_witness :
  (exists e,
     RemoveBgService.removeBackground Samples.env Samples.service
       RemoveBgService.NoBlob RemoveBgService.noOptions world0
     = (Throw e, world0)
     /\ err_type e = Some Constants.PROCESSING_ERROR
     /\ err_retryable e = Some false)
  /\ w_requests world0
     < w_requests (snd (RemoveBgService.removeBackground Samples.env
                          Samples.service
                          (RemoveBgService.ABlob Samples.emptyBlob)
                          RemoveBgService.noOptions world0)).
Proof.
  split.
  - exact (proj1 (removeBackground_validates_presence Samples.env
                    Samples.service RemoveBgService.NoBlob
                    RemoveBgService.noOptions world0)
                 (or_introl eq_refl)).
  - exact (proj2 (removeBackground_validates_presence Samples.env
                    Samples.service (RemoveBgService.ABlob Samples.emptyBlob)
                    RemoveBgService.noOptions world0)
                 Samples.emptyBlob eq_refl (le_S _ _ (le_S _ _ (le_n 1)))).
Defined.

(** ** The cache *)

Section CacheFacts.
Import ImageProcessorService.

Lemma cache_get_None key m :
  cache_get key m = None <-> ~ In key (cache_keys m).
Proof.
  induction m as [|[k v] rest IH]; cbn.
  - tauto.
  - destruct (String.eqb_spec k key) as [->|Hne].
    + split; [discriminate | intros H; exfalso; apply H; now left].
    + rewrite IH. split.
      * intros H [Heq|Hin]; [contradiction | exact (H Hin)].
      * intros H Hin. apply H. now right.
Qed.

Lemma cache_keys_set_new key value m :
  ~ In key (cache_keys m) ->
  cache_keys (cache_set key value m) = (cache_keys m ++ [key])%list.
Proof.
  induction m as [|[k v] rest IH]; cbn; intros Hnew.
  - reflexivity.
  - destruct (String.eqb_spec k key) as [->|Hne].
    + exfalso. apply Hnew. now left.
    + cbn. f_equal. apply IH. intros Hin. apply Hnew. now right.
Qed.

Lemma cache_get_set_same key value m :
  cache_get key (cache_set key value m) = Some value.
Proof.
  induction m as [|[k v] rest IH]; cbn.
  - rewrite String.eqb_refl. reflexivity.
  - destruct (String.eqb_spec k key) as [->|Hne]; cbn.
    + rewrite String.eqb_refl. reflexivity.
    + destruct (String.eqb_spec k key); [contradiction | exact IH].
Qed.

Lemma cache_get_set_other key key' value m :
  key <> key' ->
  cache_get key' (cache_set key value m) = cache_get key' m.
Proof.
  intros Hne. induction m as [|[k v] rest IH]; cbn.
  - destruct (String.eqb_spec key key'); [contradiction | reflexivity].
  - destruct (String.eqb_spec k key) as [->|Hk]; cbn.
    + destruct (String.eqb_spec key key'); [contradiction | reflexivity].
    + destruct (String.eqb_spec k key'); [reflexivity | exact IH].
Qed.

Lemma cache_get_delete key key' m :
  cache_get key' (cache_delete key m)
  = if String.eqb key key' then None else cache_get key' m.
Proof.
  unfold cache_delete. induction m as [|[k e] rest IH]; cbn [filter cache_get].
  - destruct (String.eqb key key'); reflexivity.
  - destruct (String.eqb_spec k key) as [->|Hk]; cbn [negb cache_get].
    + rewrite IH. destruct (String.eqb key key'); reflexivity.
    + rewrite IH. destruct (String.eqb_spec k key') as [->|Hk'];
        [|reflexivity].
      destruct (String.eqb_spec key key'); [congruence | reflexivity].
Qed.

Lemma cache_keys_delete key m :
  cache_keys (cache_delete key m)
  = filter (fun k => negb (String.eqb k key)) (cache_keys m).
Proof.
  unfold cache_delete, cache_keys.
  induction m as [|[k e] rest IH]; cbn [filter map fst]; [reflexivity|].
  destruct (negb (String.eqb k key)); cbn [map fst]; now rewrite IH.
Qed.

(** Deleting the first key of a map drops its first binding. *)
Lemma cache_keys_delete_first key keys :
  NoDup (key :: keys) ->
  filter (fun k => negb (String.eqb k key)) (key :: keys) = keys.
Proof.
  intros Hnd. cbn. rewrite String.eqb_refl. cbn.
  inversion Hnd as [|? ? Hnotin _]; subst. clear Hnd.
  induction keys as [|k rest IH]; cbn; [reflexivity|].
  destruct (String.eqb_spec k key) as [->|Hne].
  - exfalso. apply Hnotin. now left.
  - cbn. f_equal. apply IH. intros Hin. apply Hnotin. now right.
Qed.

End CacheFacts.

Section CacheBound.
Import ImageProcessorService Constants.

Lemma cacheResult_run env cacheKey r this w :
  _cacheResult env cacheKey r (this, w)
  = (Return tt,
     (mkProcessor (backgroundRemovalApi this)
        (cache_set cacheKey (mkEntry r (clock env (w_ticks w)))
           (afterEviction (cache this))),
      tick w)).
Proof.
  unfold _cacheResult, afterEviction, bind, getCache, putCache, now, ret, tick.
  destruct (Nat.leb MAX_CACHE_SIZE (List.length (cache this)));
    [destruct (cache_keys (cache this))|]; reflexivity.
Qed.

Lemma tl_skipn {T} i (l : list T) : tl (skipn i l) = skipn (S i) l.
Proof.
  revert l. induction i as [|i IH]; intros [|x l]; cbn [skipn tl];
    try reflexivity.
  apply IH.
Qed.

(** The keys of the map when the [n] newest of [pre] are resident. *)
Lemma newest_step (pre : list string) k :
  let keys := skipn (List.length pre - MAX_CACHE_SIZE) pre in
  ((if Nat.leb MAX_CACHE_SIZE (List.length keys) then tl keys else keys) ++ [k])%list
  = skipn (List.length (pre ++ [k]) - MAX_CACHE_SIZE) (pre ++ [k]).
Proof.
  intros keys. subst keys. rewrite length_skipn, length_app. cbn [List.length].
  unfold MAX_CACHE_SIZE.
  destruct (Nat.leb_spec 10 (List.length pre - (List.length pre - 10))).
  - rewrite tl_skipn, skipn_app.
    replace (List.length pre + 1 - 10) with (S (List.length pre - 10)) by lia.
    replace (S (List.length pre - 10) - List.length pre) with 0 by lia.
    reflexivity.
  - replace (List.length pre - 10) with 0 by lia.
    replace (List.length pre + 1 - 10) with 0 by lia. reflexivity.
Qed.

Lemma NoDup_skipn {T} i (l : list T) : NoDup l -> NoDup (skipn i l).
Proof.
  revert l. induction i as [|i IH]; intros [|x l] H; cbn; auto.
  apply IH. now inversion H.
Qed.

Lemma In_skipn {T} i (l : list T) x : In x (skipn i l) -> In x l.
Proof.
  revert l. induction i as [|i IH]; intros [|y l]; cbn; auto.
Qed.

Lemma afterEviction_keys m :
  NoDup (cache_keys m) ->
  cache_keys (afterEviction m)
  = if Nat.leb MAX_CACHE_SIZE (List.length (cache_keys m))
    then tl (cache_keys m) else cache_keys m.
Proof.
  intros Hnd. unfold afterEviction.
  replace (List.length (cache_keys m)) with (List.length m)
    by (unfold cache_keys; now rewrite length_map).
  destruct (Nat.leb MAX_CACHE_SIZE (List.length m)); [|reflexivity].
  destruct (cache_keys m) as [|firstKey rest] eqn:Hkeys; [exact Hkeys|].
  rewrite cache_keys_delete, Hkeys. apply cache_keys_delete_first. exact Hnd.
Qed.

Lemma cacheAll_keys env items :
  forall pre this w,
    NoDup (pre ++ map fst items) ->
    cache_keys (cache this) = skipn (List.length pre - MAX_CACHE_SIZE) pre ->
    cache_keys (cache (fst (snd (Samples.cacheAll env items (this, w)))))
    = skipn (List.length (pre ++ map fst items) - MAX_CACHE_SIZE)
            (pre ++ map fst items).
Proof.
  induction items as [|[k r] rest IH]; intros pre this w Hnd Hkeys.
  - cbn. rewrite app_nil_r. exact Hkeys.
  - cbn [Samples.cacheAll map fst]. unfold bind.
    rewrite cacheResult_run. cbn [map fst] in Hnd.
    assert (Hpre : NoDup pre) by (now apply NoDup_app_remove_r in Hnd).
    assert (Hk : ~ In k pre).
    { apply NoDup_remove_2 in Hnd. intros Hin. apply Hnd.
      apply in_or_app. now left. }
    assert (HndC : NoDup (cache_keys (cache this))).
    { rewrite Hkeys. now apply NoDup_skipn. }
    replace (pre ++ k :: map fst rest)%list
      with ((pre ++ [k]) ++ map fst rest)%list
      by (rewrite <- app_assoc; reflexivity).
    apply IH.
    + rewrite <- app_assoc. exact Hnd.
    + cbn [cache]. rewrite cache_keys_set_new.
      * rewrite (afterEviction_keys _ HndC), Hkeys. apply newest_step.
      * rewrite (afterEviction_keys _ HndC), Hkeys. intros Hin. apply Hk.
        destruct (Nat.leb MAX_CACHE_SIZE _).
        -- apply In_skipn with (i := S (List.length pre - MAX_CACHE_SIZE)).
           rewrite <- tl_skipn. exact Hin.
        -- eapply In_skipn. exact Hin.
Qed.

Lemma cacheAfter_keys env items :
  NoDup (map fst items) ->
  cache_keys (Samples.cacheAfter env items)
  = skipn (List.length items - MAX_CACHE_SIZE) (map fst items).
Proof.
  intros Hnd. unfold Samples.cacheAfter.
  rewrite (cacheAll_keys env items [] constructor world0 Hnd eq_refl).
  cbn [app]. now rewrite length_map.
Qed.

End CacheBound.

Section CacheBoundTheorem.
Import ImageProcessorService Constants.

Lemma NoDup_app_disjoint {T} (a b : list T) x :
  NoDup (a ++ b) -> In x a -> ~ In x b.
Proof.
  induction a as [|y a IH]; cbn; intros Hnd Hin; [contradiction|].
  inversion Hnd as [|? ? Hnotin Hrest]; subst.
  destruct Hin as [->|Hin].
  - intros Hb. apply Hnotin. apply in_or_app. now right.
  - now apply IH.
Qed.

Lemma NoDup_firstn_keys {T} n (l : list T) : NoDup l -> NoDup (firstn n l).
Proof.
  intros Hnd. rewrite <- (firstn_skipn n l) in Hnd.
  now apply NoDup_app_remove_r in Hnd.
Qed.

(** C3. From an empty cache, storing N > 10 results under pairwise
    distinct keys leaves exactly the 10 newest keys resident, in insertion
    order; the keys no longer resident are exactly the N - 10 oldest; and
    after every single insertion on the way the cache holds at most 10
    entries. *)
Theorem cache_bound_fifo env
    (items : list (string * ProcessingResult)) :
  NoDup (map fst items) ->
  MAX_CACHE_SIZE < List.length items ->
  let keys := map fst items in
  let resident := Samples.cacheAfter env items in
  cache_keys resident = skipn (List.length items - MAX_CACHE_SIZE) keys
  /\ List.length resident = MAX_CACHE_SIZE
  /\ (forall k, In k keys ->
        (cache_get k resident = None
         <-> In k (firstn (List.length items - MAX_CACHE_SIZE) keys)))
  /\ (forall n,
        List.length (Samples.cacheAfter env (firstn n items)) <= MAX_CACHE_SIZE).
Proof.
  intros Hnd Hmany keys resident.
  assert (Hkeys : cache_keys resident
                  = skipn (List.length items - MAX_CACHE_SIZE) keys)
    by (apply cacheAfter_keys; exact Hnd).
  split; [exact Hkeys|]. split; [|split].
  - replace (List.length resident) with (List.length (cache_keys resident))
      by (unfold cache_keys; now rewrite length_map).
    rewrite Hkeys, length_skipn. subst keys. rewrite length_map. lia.
  - intros k Hin. rewrite cache_get_None, Hkeys.
    set (i := List.length items - MAX_CACHE_SIZE).
    assert (Hsplit : NoDup (firstn i keys ++ skipn i keys))
      by (rewrite firstn_skipn; exact Hnd).
    split.
    + intros Hout. rewrite <- (firstn_skipn i keys) in Hin.
      apply in_app_or in Hin. destruct Hin; [assumption | contradiction].
    + intros Hold. now apply (NoDup_app_disjoint _ _ _ Hsplit).
  - intros n.
    assert (Hprefix : NoDup (map fst (firstn n items))).
    { rewrite <- firstn_map. apply NoDup_firstn_keys. exact Hnd. }
    replace (List.length (Samples.cacheAfter env (firstn n items)))
      with (List.length (cache_keys (Samples.cacheAfter env (firstn n items))))
      by (unfold cache_keys; now rewrite length_map).
    rewrite (cacheAfter_keys env _ Hprefix), length_skipn, length_map. lia.
Qed.

(** Eleven insertions: the first key is gone, the other ten are resident
    in insertion order. *)
Lemma cache_bound_fifo_witness :
  cache_keys (Samples.cacheAfter Samples.env Samples.elevenItems)
  = ["k01"; "k02"; "k03"; "k04"; "k05"; "k06"; "k07"; "k08"; "k09"; "k10"]
  /\ List.length (Samples.cacheAfter Samples.env Samples.elevenItems) = 10.
Proof.
  assert (Hnd : NoDup (map fst Samples.elevenItems)).
  { cbn. repeat (constructor; [cbn; intuition discriminate|]). constructor. }
  assert (Hmany : MAX_CACHE_SIZE < List.length Samples.elevenItems).
  { unfold MAX_CACHE_SIZE. cbn. lia. }
  pose proof (cache_bound_fifo Samples.env Samples.elevenItems Hnd Hmany) as H.
  split; [exact (proj1 H) | exact (proj1 (proj2 H))].
Defined.

End CacheBoundTheorem.

(** ** processImage *)

Section QuietSteps.
Import ImageProcessorService Constants.

Lemma bind_run {St A B} (m : M St A) (k : A -> M St B) s :
  bind m k s
  = match m s with
    | (Return a, s') => k a s'
    | (Throw e, s') => (Throw e, s')
    | (ThrowUndefined, s') => (ThrowUndefined, s')
    end.
Proof. reflexivity. Qed.

Lemma Quiet_ret {A} (a : A) : Quiet (ret a).
Proof. intros this w. cbn. auto. Qed.

Lemma Quiet_throw {A} e : Quiet (@throw St A e).
Proof. intros this w. cbn. auto. Qed.

Lemma Quiet_call {A} (o : Outcome A) : Quiet (call o).
Proof. intros this w. cbn. auto. Qed.

Lemma Quiet_now env : Quiet (now env).
Proof. intros this w. cbn. auto. Qed.

Lemma Quiet_getApi : Quiet getApi.
Proof. intros this w. cbn. auto. Qed.

Lemma Quiet_readBlob env blob : Quiet (readBlob env blob).
Proof. intros this w. cbn. auto. Qed.

Lemma Quiet_bind {A B} (m : M St A) (k : A -> M St B) :
  Quiet m -> (forall a, Quiet (k a)) -> Quiet (bind m k).
Proof.
  intros Hm Hk this w. rewrite bind_run. specialize (Hm this w).
  destruct (m (this, w)) as [[a|e|] [this1 w1]]; cbn [fst snd] in Hm |- *;
    try exact Hm.
  destruct Hm as [-> [Hr Hq]]. specialize (Hk a this w1).
  destruct (k a (this, w1)) as [o [this2 w2]]. cbn [fst snd] in Hk |- *.
  destruct Hk as [-> [Hr' Hq']]. repeat split; lia.
Qed.

Lemma Quiet_tryCatch {A} (m : M St A) handler :
  Quiet m -> (forall error, Quiet (handler error)) -> Quiet (tryCatch m handler).
Proof.
  intros Hm Hh this w. unfold tryCatch. specialize (Hm this w).
  destruct (m (this, w)) as [[a|e|] [this1 w1]]; cbn [fst snd] in Hm |- *;
    try exact Hm; destruct Hm as [-> [Hr Hq]].
  - specialize (Hh (Some e) this w1).
    destruct (handler (Some e) (this, w1)) as [o [this2 w2]].
    cbn [fst snd] in Hh |- *. destruct Hh as [-> [Hr' Hq']]. repeat split; lia.
  - specialize (Hh None this w1).
    destruct (handler None (this, w1)) as [o [this2 w2]].
    cbn [fst snd] in Hh |- *. destruct Hh as [-> [Hr' Hq']]. repeat split; lia.
Qed.

Lemma Quiet_loadImage env dataUrl : Quiet (CanvasUtility.loadImage env dataUrl).
Proof.
  unfold CanvasUtility.loadImage. destruct (String.eqb dataUrl "");
    [apply Quiet_throw|].
  destruct (decodeImage env dataUrl); [apply Quiet_ret | apply Quiet_throw].
Qed.

Lemma Quiet_imageToBlob env canvas format quality :
  Quiet (CanvasUtility.imageToBlob env canvas format quality).
Proof.
  unfold CanvasUtility.imageToBlob.
  destruct (negb (String.prefix "image/" format)); [apply Quiet_throw|].
  destruct (Qgtb 0 quality || Qgtb quality 1); [apply Quiet_throw|].
  destruct (canvasToBlob env canvas format quality);
    [apply Quiet_ret | apply Quiet_throw].
Qed.

Lemma Quiet_fileToDataUrl env file : Quiet (_fileToDataUrl env file).
Proof.
  unfold _fileToDataUrl. apply Quiet_bind; [apply Quiet_readBlob|].
  intros [dataUrl|]; [apply Quiet_ret | apply Quiet_throw].
Qed.

Lemma Quiet_blobToDataUrl env blob : Quiet (blobToDataUrl env blob).
Proof.
  unfold blobToDataUrl. apply Quiet_bind; [apply Quiet_readBlob|].
  intros [dataUrl|]; [apply Quiet_ret | apply Quiet_throw].
Qed.

Lemma Quiet_compressImage env imageFile image :
  Quiet (compressImage env imageFile image).
Proof.
  unfold compressImage. apply Quiet_tryCatch.
  - destruct (_ && _); [apply Quiet_ret|].
    apply Quiet_bind; [apply Quiet_call|]. intros canvas.
    apply Quiet_bind; [apply Quiet_imageToBlob|]. intros blob. apply Quiet_ret.
  - intros error. apply Quiet_bind; [apply Quiet_call|]. intros message.
    apply Quiet_throw.
Qed.

Lemma Quiet_prepareImageForApi env imageFile image :
  Quiet (_prepareImageForApi env imageFile image).
Proof.
  unfold _prepareImageForApi. destruct (_ || _);
    [apply Quiet_compressImage | apply Quiet_ret].
Qed.

Lemma Quiet_removeBackground env imageBlob options :
  Quiet (removeBackground env imageBlob options).
Proof.
  unfold removeBackground. apply Quiet_bind; [apply Quiet_getApi|].
  intros [api|]; [|apply Quiet_throw].
  apply Quiet_bind; [|intros blob; apply Quiet_ret].
  intros this w. cbn. repeat split; lia.
Qed.

End QuietSteps.

Create HintDb quiet.
#[local] Hint Resolve Quiet_ret Quiet_throw Quiet_call Quiet_now Quiet_getApi
  Quiet_readBlob Quiet_loadImage Quiet_imageToBlob Quiet_fileToDataUrl
  Quiet_blobToDataUrl Quiet_compressImage Quiet_prepareImageForApi
  Quiet_removeBackground : quiet.

(** Run the first computation of a sequence held in [H], a quiet one. *)
Ltac quiet_step H :=
  rewrite bind_run in H;
  lazymatch type of H with
  | match ?m (?t, ?w) with _ => _ end = _ =>
      let Q := fresh "Q" in
      assert (Q : Quiet m) by auto with quiet;
      specialize (Q t w);
      destruct (m (t, w)) as [[?|?|] [? ?]] eqn:?;
      cbn [fst snd] in Q; destruct Q as [-> [? ?]]
  end.

Section Pipeline.
Import ImageProcessorService Constants.

Lemma RemoveBgService_retryLoop_returns {A} this (operation : nat -> Outcome A)
    attempts lastError calls sleeps a :
  run_outcome (RemoveBgService.retryLoop this operation attempts lastError
                 calls sleeps) = Return a ->
  calls < run_calls (RemoveBgService.retryLoop this operation attempts
                       lastError calls sleeps).
Proof.
  revert lastError calls sleeps.
  induction attempts as [|attempt rest IH]; intros lastError calls sleeps.
  - cbn. destruct lastError; discriminate.
  - cbn [RemoveBgService.retryLoop].
    destruct (operation calls) as [a'|e|]; cbn [run_calls run_outcome];
      try discriminate; try (intros _; lia).
    destruct (negb (truthy_bool (err_retryable e)));
      cbn [run_calls run_outcome]; try discriminate.
    destruct (Nat.eqb attempt (RemoveBgService.maxRetries this));
      cbn [run_calls run_outcome]; try discriminate.
    intros H. apply IH in H. lia.
Qed.

Lemma removeBackground_returns env imageBlob options this w b this' w' :
  removeBackground env imageBlob options (this, w) = (Return b, (this', w')) ->
  w_invocations w < w_invocations w' /\ w_requests w < w_requests w'.
Proof.
  unfold removeBackground. rewrite bind_run. cbn [getApi].
  destruct (backgroundRemovalApi this) as [api|]; [|discriminate].
  rewrite bind_run. cbn [invokeApi RemoveBgService.removeBackground].
  match goal with
  | |- context [RemoveBgService._executeWithRetry ?s ?op] =>
      pose proof (RemoveBgService_retryLoop_returns s op
                    (seq 1 (RemoveBgService.maxRetries s)) None 0 []) as Hret;
      fold (RemoveBgService._executeWithRetry s op) in Hret;
      destruct (RemoveBgService._executeWithRetry s op) as [o calls sleeps]
  end.
  cbn [run_outcome run_calls run_sleeps] in *.
  destruct o as [a|e|]; try discriminate.
  intros H. injection H as _ _ <-. cbn. specialize (Hret a eq_refl).
  split; lia.
Qed.

Lemma fileToDataUrl_reads env file this w :
  w_reads (snd (snd (_fileToDataUrl env file (this, w)))) = S (w_reads w).
Proof.
  unfold _fileToDataUrl. rewrite bind_run. cbn [readBlob].
  destruct (readAsDataURL env (file_blob file)); reflexivity.
Qed.

(** What a run of the pipeline leaves behind: the file has been read; a
    thrown error leaves the instance as it was; a returned result is a
    fresh one, cost an invocation of the API with at least one request,
    and is the entry now stored under the key. *)
Lemma processUncached_run env file cacheKey startTime this w o this' w' :
  processUncached env file cacheKey startTime (this, w) = (o, (this', w')) ->
  S (w_reads w) <= w_reads w'
  /\ match o with
     | Return r =>
         fromCache r = false
         /\ w_invocations w < w_invocations w'
         /\ w_requests w < w_requests w'
         /\ exists ts,
             this' = mkProcessor (backgroundRemovalApi this)
                       (cache_set cacheKey (mkEntry r ts)
                          (afterEviction (cache this)))
     | _ => this' = this
     end.
Proof.
  intros H. unfold processUncached in H.
  pose proof (fileToDataUrl_reads env file this w) as Hread.
  quiet_step H; cbn [fst snd] in Hread;
    [| injection H as <- <- <-; split; [lia | reflexivity] ..].
  quiet_step H; [| injection H as <- <- <-; split; [lia | reflexivity] ..].
  quiet_step H; [| injection H as <- <- <-; split; [lia | reflexivity] ..].
  quiet_step H; [| injection H as <- <- <-; split; [lia | reflexivity] ..].
  match goal with
  | E : removeBackground _ _ _ _ = (Return _, _) |- _ =>
      apply removeBackground_returns in E
  end.
  quiet_step H; [| injection H as <- <- <-; split; [lia | reflexivity] ..].
  quiet_step H; [| injection H as <- <- <-; split; [lia | reflexivity] ..].
  quiet_step H; [| injection H as <- <- <-; split; [lia | reflexivity] ..].
  rewrite bind_run, cacheResult_run in H. cbn [ret] in H.
  injection H as <- <- <-. cbn [w_reads w_invocations w_requests tick fromCache].
  split; [lia|]. split; [reflexivity|]. split; [lia|]. split; [lia|].
  eexists. reflexivity.
Qed.

End Pipeline.

Section ProcessImage.
Import ImageProcessorService Constants.

Lemma generateCacheKey_identity f g :
  sameIdentity f g -> _generateCacheKey f = _generateCacheKey g.
Proof.
  intros [Hname [Hsize [Hmod Htype]]]. unfold _generateCacheKey.
  now rewrite Hname, Hsize, Hmod, Htype.
Qed.

Lemma getCachedResult_run env cacheKey this w :
  _getCachedResult env cacheKey (this, w)
  = match cache_get cacheKey (cache this) with
    | None => (Return None, (this, w))
    | Some cached =>
        if (CACHE_EXPIRATION_TIME <? clock env (w_ticks w) - timestamp cached)%Z
        then (Return None,
              (mkProcessor (backgroundRemovalApi this)
                 (cache_delete cacheKey (cache this)), tick w))
        else (Return (Some (result cached)), (this, tick w))
    end.
Proof.
  unfold _getCachedResult. rewrite bind_run. cbn [getCache].
  destruct (cache_get cacheKey (cache this)) as [cached|]; [|reflexivity].
  rewrite bind_run. cbn [now].
  destruct (CACHE_EXPIRATION_TIME <? _)%Z; reflexivity.
Qed.

(** The [catch] block turns every failure into a thrown error and keeps
    the state the body left. *)
Lemma tryCatch_rethrow_run (m : M St ProcessingResult) s :
  match m s with
  | (Return r, s') => tryCatch m rethrowClassified s = (Return r, s')
  | (_, s') => exists e, tryCatch m rethrowClassified s = (Throw e, s')
  end.
Proof.
  unfold tryCatch. destruct (m s) as [[r|e|] s']; [reflexivity| |].
  - unfold rethrowClassified.
    destruct (truthy_str (err_type e) && truthy_str (err_code e));
      eexists; reflexivity.
  - eexists; reflexivity.
Qed.

(** [processImage] on a file, with the service configured: it reads the
    clock, looks the key up, and answers from the cache or runs the
    pipeline (after dropping an expired entry). *)
Lemma processImage_lookup env file this w api :
  backgroundRemovalApi this = Some api ->
  processImage env (AFile file) (this, w)
  = match liveEntry env (_generateCacheKey file) this w with
    | Some cached =>
        (Return (mkResult (originalDataUrl (result cached))
                          (extractedDataUrl (result cached))
                          (width (result cached)) (height (result cached))
                          (clock env (S (S (w_ticks w))) - clock env (w_ticks w))%Z
                          true),
         (this, tick (tick (tick w))))
    | None =>
        tryCatch (processUncached env file (_generateCacheKey file)
                    (clock env (w_ticks w)))
                 rethrowClassified
                 (match cache_get (_generateCacheKey file) (cache this) with
                  | Some _ =>
                      (mkProcessor (backgroundRemovalApi this)
                         (cache_delete (_generateCacheKey file) (cache this)),
                       tick (tick w))
                  | None => (this, tick w)
                  end)
    end.
Proof.
  intros Hapi. unfold processImage, liveEntry, lookupTime.
  rewrite bind_run. cbn [now].
  fold (tick w). unfold tryCatch at 1. rewrite bind_run. cbn [getApi].
  rewrite Hapi. rewrite bind_run.
  rewrite getCachedResult_run. cbn [tick w_ticks].
  destruct (cache_get (_generateCacheKey file) (cache this)) as [cached|].
  - destruct (CACHE_EXPIRATION_TIME <? _)%Z.
    + unfold tryCatch. rewrite Hapi. reflexivity.
    + rewrite bind_run. cbn [now ret]. reflexivity.
  - unfold tryCatch. reflexivity.
Qed.

(** Without a configured service, or without a file, [processImage] throws
    before it looks at the cache. *)
Lemma processImage_rejects env imageFile this w :
  (imageFile = NoFile \/ imageFile = NotAFile
   \/ backgroundRemovalApi this = None) ->
  exists e, processImage env imageFile (this, w) = (Throw e, (this, tick w)).
Proof.
  intros Hbad. unfold processImage. rewrite bind_run. cbn [now].
  fold (tick w). unfold tryCatch.
  destruct imageFile as [| |file]; try (eexists; reflexivity).
  destruct Hbad as [Hbad|[Hbad|Hbad]]; try discriminate.
  rewrite bind_run. cbn [getApi]. rewrite Hbad. eexists; reflexivity.
Qed.

End ProcessImage.

Section CacheDeterminism.
Import ImageProcessorService Constants.

(** C2. When [processImage] succeeds on a file for which the cache held no
    live entry, its result is fresh ([fromCache = false]), it invoked the
    background-removal API, and the result is stored under the file's key.
    A later call with a file of the same name, size, modification time and
    type, made while that entry is still in the cache and not older than
    the expiry window, returns it with [fromCache = true] and the stored
    data URLs and dimensions; the number of API invocations is the same
    after it as before, and so are the requests issued and the files
    read. *)
Theorem cache_determinism env f f' this w r1 this1 w1 :
  sameIdentity f f' ->
  liveEntry env (_generateCacheKey f) this w = None ->
  processImage env (AFile f) (this, w) = (Return r1, (this1, w1)) ->
  fromCache r1 = false
  /\ w_invocations w < w_invocations w1
  /\ exists stored,
      cache_get (_generateCacheKey f) (cache this1) = Some stored
      /\ result stored = r1
      /\ forall this2 w2,
           backgroundRemovalApi this2 <> None ->
           cache_get (_generateCacheKey f) (cache this2) = Some stored ->
           (lookupTime env w2 - timestamp stored <= CACHE_EXPIRATION_TIME)%Z ->
           exists r2 w2',
             processImage env (AFile f') (this2, w2) = (Return r2, (this2, w2'))
             /\ fromCache r2 = true
             /\ originalDataUrl r2 = originalDataUrl r1
             /\ extractedDataUrl r2 = extractedDataUrl r1
             /\ width r2 = width r1 /\ height r2 = height r1
             /\ w_invocations w2' = w_invocations w2
             /\ w_requests w2' = w_requests w2
             /\ w_reads w2' = w_reads w2.
Proof.
  intros Hid Hlive H.
  destruct (backgroundRemovalApi this) as [api|] eqn:Hapi.
  2: { destruct (processImage_rejects env (AFile f) this w
                   (or_intror (or_intror Hapi))) as [e He].
       rewrite He in H. discriminate. }
  rewrite (processImage_lookup _ _ _ _ api Hapi), Hlive in H.
  match type of H with
  | tryCatch ?m _ ?s = _ =>
      pose proof (tryCatch_rethrow_run m s) as Hrun;
      assert (Hs : w_invocations (snd s) = w_invocations w)
        by (destruct (cache_get (_generateCacheKey f) (cache this));
            reflexivity);
      destruct s as [this0 w0]; destruct (m (this0, w0)) as [[r|e|] [tp wp]] eqn:Hp
  end.
  2, 3: destruct Hrun as [e' He']; rewrite He' in H; discriminate.
  rewrite Hrun in H. injection H as <- <- <-.
  apply processUncached_run in Hp.
  destruct Hp as [_ [Hfresh [Hinv [_ [ts ->]]]]].
  cbn [snd] in Hs. split; [exact Hfresh|]. split; [lia|].
  exists (mkEntry r ts). cbn [cache result timestamp].
  split; [apply cache_get_set_same|]. split; [reflexivity|].
  intros this2 w2 Hapi2 Hres Hage.
  destruct (backgroundRemovalApi this2) as [api2|] eqn:Hapi2'; [|congruence].
  rewrite (processImage_lookup _ _ _ _ api2 Hapi2').
  rewrite <- (generateCacheKey_identity f f' Hid).
  unfold liveEntry. rewrite Hres. cbn [timestamp result].
  destruct (Z.ltb_spec CACHE_EXPIRATION_TIME (lookupTime env w2 - ts)); [lia|].
  eexists. eexists. split; [reflexivity|]. cbn. repeat split; reflexivity.
Qed.

(** The sample photo processed twice in the working environment: a fresh
    result, then the cached one with no further request. *)
Lemma cache_determinism_witness :
  fromCache Samples.firstResult = false
  /\ exists r2 w2',
       processImage Samples.env (AFile Samples.photo) (snd Samples.firstRun)
       = (Return r2, (fst (snd Samples.firstRun), w2'))
       /\ fromCache r2 = true
       /\ w_invocations w2' = w_invocations (snd (snd Samples.firstRun)).
Proof.
  pose proof (cache_determinism Samples.env Samples.photo Samples.photo
                Samples.processor0 world0 Samples.firstResult
                (fst (snd Samples.firstRun)) (snd (snd Samples.firstRun))
                (conj eq_refl (conj eq_refl (conj eq_refl eq_refl)))
                eq_refl eq_refl) as H.
  destruct H as [Hfresh [_ [stored [Hget [_ Hagain]]]]].
  split; [exact Hfresh|].
  destruct (Hagain (fst (snd Samples.firstRun)) (snd (snd Samples.firstRun)))
    as [r2 [w2' [Hrun [Hhit [_ [_ [_ [_ [Hinv _]]]]]]]]].
  - discriminate.
  - exact Hget.
  - vm_compute in Hget. injection Hget as <-. vm_compute. discriminate.
  - exists r2, w2'. repeat split; assumption.
Defined.

End CacheDeterminism.

Section FailedCalls.
Import ImageProcessorService Constants.

(** A call that finds no entry under the file's key runs the pipeline: it
    reads the file, and a result it returns is fresh and cost an invocation
    of the API. *)
Lemma processImage_on_absent env f this w api o this' w' :
  backgroundRemovalApi this = Some api ->
  cache_get (_generateCacheKey f) (cache this) = None ->
  processImage env (AFile f) (this, w) = (o, (this', w')) ->
  S (w_reads w) <= w_reads w'
  /\ forall r, o = Return r ->
       fromCache r = false /\ w_invocations w < w_invocations w'.
Proof.
  intros Hapi Habsent H.
  rewrite (processImage_lookup _ _ _ _ api Hapi) in H.
  unfold liveEntry in H. rewrite Habsent in H.
  pose proof (tryCatch_rethrow_run
                (processUncached env f (_generateCacheKey f)
                   (clock env (w_ticks w))) (this, tick w)) as Hrun.
  destruct (processUncached env f (_generateCacheKey f)
              (clock env (w_ticks w)) (this, tick w))
    as [[r|e|] [tp wp]] eqn:Hp; apply processUncached_run in Hp;
    cbn [tick w_reads w_invocations w_requests] in Hp.
  - rewrite Hrun in H. injection H as <- <- <-.
    destruct Hp as [Hreads [Hfresh [Hreq _]]]. split; [exact Hreads|].
    intros r' Hr'. injection Hr' as <-. split; assumption.
  - destruct Hrun as [e' He']. rewrite He' in H. injection H as <- <- <-.
    split; [apply Hp | discriminate].
  - destruct Hrun as [e' He']. rewrite He' in H. injection H as <- <- <-.
    split; [apply Hp | discriminate].
Qed.

Lemma processImage_never_undefined env imageFile s :
  fst (processImage env imageFile s) <> ThrowUndefined.
Proof.
  unfold processImage. rewrite bind_run. destruct s as [this w]. cbn [now].
  match goal with
  | |- fst (tryCatch ?m _ ?s) <> _ =>
      pose proof (tryCatch_rethrow_run m s) as Hrun;
      destruct (m s) as [[r|e|] s']
  end.
  - rewrite Hrun. discriminate.
  - destruct Hrun as [e' ->]. discriminate.
  - destruct Hrun as [e' ->]. discriminate.
Qed.

Lemma noNewEntry_refl m : noNewEntry m m.
Proof. intros k v H. exact H. Qed.

Lemma noNewEntry_delete key m : noNewEntry m (cache_delete key m).
Proof.
  intros k v. rewrite cache_get_delete.
  destruct (String.eqb key k); [discriminate | auto].
Qed.

Lemma cache_delete_length key m :
  List.length (cache_delete key m) <= List.length m.
Proof. unfold cache_delete. apply filter_length_le. Qed.

(** C9. A call of [processImage] that throws has stored nothing: every
    entry of the cache it leaves was there before, unchanged, and the cache
    has not grown.  When the call had a file and a configured service (so
    that it failed in its lookup-and-pipeline part), no entry is left under
    the file's key, and any later call with a file of the same identity
    reads the file again, and a result it returns is fresh
    ([fromCache = false]) and cost an invocation of the API. *)
Theorem failed_call_caches_nothing env imageFile this w e this' w' :
  processImage env imageFile (this, w) = (Throw e, (this', w')) ->
  noNewEntry (cache this) (cache this')
  /\ List.length (cache this') <= List.length (cache this)
  /\ backgroundRemovalApi this' = backgroundRemovalApi this
  /\ forall f,
       imageFile = AFile f -> backgroundRemovalApi this <> None ->
       cache_get (_generateCacheKey f) (cache this') = None
       /\ forall f' w2 o this2 w2',
            sameIdentity f f' ->
            processImage env (AFile f') (this', w2) = (o, (this2, w2')) ->
            S (w_reads w2) <= w_reads w2'
            /\ forall r, o = Return r ->
                 fromCache r = false /\ w_invocations w2 < w_invocations w2'.
Proof.
  intros H.
  assert (Hrejected :
            (imageFile = NoFile \/ imageFile = NotAFile
             \/ backgroundRemovalApi this = None) ->
            noNewEntry (cache this) (cache this')
            /\ List.length (cache this') <= List.length (cache this)
            /\ backgroundRemovalApi this' = backgroundRemovalApi this
            /\ forall f,
                 imageFile = AFile f -> backgroundRemovalApi this <> None ->
                 cache_get (_generateCacheKey f) (cache this') = None
                 /\ forall f' w2 o this2 w2',
                      sameIdentity f f' ->
                      processImage env (AFile f') (this', w2) = (o, (this2, w2')) ->
                      S (w_reads w2) <= w_reads w2'
                      /\ forall r, o = Return r ->
                           fromCache r = false
                           /\ w_invocations w2 < w_invocations w2').
  { intros Hbad.
    destruct (processImage_rejects env imageFile this w Hbad) as [e0 He0].
    rewrite He0 in H. injection H as _ <- _.
    split; [apply noNewEntry_refl|]. split; [lia|]. split; [reflexivity|].
    intros f Hf Hapi. destruct Hbad as [->|[->|Hnone]];
      [discriminate | discriminate | contradiction]. }
  destruct imageFile as [| |f]; [apply Hrejected; auto | apply Hrejected; auto |].
  destruct (backgroundRemovalApi this) as [api|] eqn:Hapi;
    [clear Hrejected | apply Hrejected; auto].
  rewrite (processImage_lookup _ _ _ _ api Hapi) in H.
  destruct (liveEntry env (_generateCacheKey f) this w); [discriminate|].
  assert (Hstate : exists this0 w0,
             tryCatch (processUncached env f (_generateCacheKey f)
                         (clock env (w_ticks w)))
                      rethrowClassified (this0, w0)
             = (Throw e, (this', w'))
             /\ backgroundRemovalApi this0 = Some api
             /\ noNewEntry (cache this) (cache this0)
             /\ List.length (cache this0) <= List.length (cache this)
             /\ cache_get (_generateCacheKey f) (cache this0) = None).
  { destruct (cache_get (_generateCacheKey f) (cache this)) as [cached|] eqn:Hget.
    - eexists. eexists. split; [exact H|]. cbn [backgroundRemovalApi cache].
      split; [exact Hapi|]. split; [apply noNewEntry_delete|].
      split; [apply cache_delete_length|].
      rewrite cache_get_delete, String.eqb_refl. reflexivity.
    - exists this, (tick w). split; [exact H|]. split; [exact Hapi|].
      split; [apply noNewEntry_refl|]. split; [lia | exact Hget]. }
  clear H. destruct Hstate as [this0 [w0 [H [Hapi0 [Hnew [Hlen Hkey]]]]]].
  pose proof (tryCatch_rethrow_run
                (processUncached env f (_generateCacheKey f)
                   (clock env (w_ticks w))) (this0, w0)) as Hrun.
  destruct (processUncached env f (_generateCacheKey f)
              (clock env (w_ticks w)) (this0, w0))
    as [[r|e0|] [tp wp]] eqn:Hp; apply processUncached_run in Hp.
  - rewrite Hrun in H. discriminate.
  - destruct Hrun as [e' He']. rewrite He' in H. injection H as _ <- _.
    destruct Hp as [_ ->].
    split; [exact Hnew|]. split; [exact Hlen|]. split; [exact Hapi0|].
    intros f1 Hf1 _. injection Hf1 as <-. split; [exact Hkey|].
    intros f' w2 o this2 w2' Hid Hlater.
    rewrite (generateCacheKey_identity f f' Hid) in Hkey.
    exact (processImage_on_absent env f' this0 w2 api o this2 w2'
             Hapi0 Hkey Hlater).
  - destruct Hrun as [e' He']. rewrite He' in H. injection H as _ <- _.
    destruct Hp as [_ ->].
    split; [exact Hnew|]. split; [exact Hlen|]. split; [exact Hapi0|].
    intros f1 Hf1 _. injection Hf1 as <-. split; [exact Hkey|].
    intros f' w2 o this2 w2' Hid Hlater.
    rewrite (generateCacheKey_identity f f' Hid) in Hkey.
    exact (processImage_on_absent env f' this0 w2 api o this2 w2'
             Hapi0 Hkey Hlater).
Qed.

(** The sample photo processed against the server that is down: the call
    throws and the cache stays empty. *)
Lemma failed_call_caches_nothing_witness :
  cache (fst (snd Samples.failedRun)) = []
  /\ cache_get (_generateCacheKey Samples.photo)
       (cache (fst (snd Samples.failedRun))) = None.
Proof.
  pose proof (failed_call_caches_nothing Samples.envDown
                (AFile Samples.photo) Samples.processor0 world0
                Samples.failedError (fst (snd Samples.failedRun))
                (snd (snd Samples.failedRun)) eq_refl) as H.
  destruct H as [_ [Hlen [_ Hkey]]].
  split.
  - destruct (cache (fst (snd Samples.failedRun))) as [|entry rest];
      [reflexivity|].
    cbn in Hlen. exfalso. inversion Hlen.
  - exact (proj1 (Hkey Samples.photo eq_refl
                    (fun Hnone : Some Samples.service = None =>
                       match Hnone in (_ = y)
                             return match y with Some _ => True | None => False end
                       with eq_refl => I end))).
Defined.

End FailedCalls.

(** * Further properties *)

(** ** PatternExtractor: the pixel scans *)

Section Scans.
Import PatternExtractor.
Variable isContent : nat -> bool.
Variable width : nat.

Lemma scanPixels_flat height :
  scanPixels width height isContent
  = fold_left (scanStep isContent width) (scanOrder width height)
              (scanInit width height).
Proof.
  unfold scanPixels, scanOrder. generalize (scanInit width height).
  induction (seq 0 height) as [|y ys IH]; intros s; cbn [fold_left flat_map].
  - reflexivity.
  - rewrite fold_left_app, IH. f_equal.
    generalize (seq 0 width). intros xs. revert s.
    induction xs as [|x xs IHx]; intros s; cbn [fold_left map];
      [reflexivity | apply IHx].
Qed.

Lemma in_scanOrder height x y :
  In (x, y) (scanOrder width height) <-> x < width /\ y < height.
Proof.
  unfold scanOrder. rewrite in_flat_map. split.
  - intros [y' [Hy Hin]]. apply in_map_iff in Hin.
    destruct Hin as [x' [Heq Hx]]. injection Heq as -> ->.
    apply in_seq in Hy. apply in_seq in Hx. lia.
  - intros [Hx Hy]. exists y. split; [apply in_seq; lia|].
    apply in_map_iff. exists x. split; [reflexivity | apply in_seq; lia].
Qed.

Lemma scanStep_monotone s xy :
  let s' := scanStep isContent width s xy in
  (minX s' <= minX s)%Z /\ (maxX s <= maxX s')%Z
  /\ (minY s' <= minY s)%Z /\ (maxY s <= maxY s')%Z.
Proof.
  cbn zeta. unfold scanStep.
  destruct (isContent _); cbn [scanHit minX maxX minY maxY]; lia.
Qed.

Lemma scan_hasContent l s :
  hasContent (fold_left (scanStep isContent width) l s)
  = hasContent s || existsb (contentAt isContent width) l.
Proof.
  revert s. induction l as [|xy l IH]; intros s; cbn [fold_left existsb].
  - now rewrite orb_false_r.
  - rewrite IH. unfold scanStep, contentAt.
    destruct (isContent _); cbn; [now rewrite orb_true_r | reflexivity].
Qed.

Lemma scan_monotone l s :
  let s' := fold_left (scanStep isContent width) l s in
  (minX s' <= minX s)%Z /\ (maxX s <= maxX s')%Z
  /\ (minY s' <= minY s)%Z /\ (maxY s <= maxY s')%Z.
Proof.
  revert s. induction l as [|xy l IH]; intros s; cbn [fold_left].
  - cbn. lia.
  - specialize (IH (scanStep isContent width s xy)).
    pose proof (scanStep_monotone s xy) as Hs. cbn zeta in IH, Hs |- *. lia.
Qed.

Lemma scan_covers l s x y :
  In (x, y) l -> contentAt isContent width (x, y) = true ->
  let s' := fold_left (scanStep isContent width) l s in
  (minX s' <= Z.of_nat x <= maxX s')%Z /\ (minY s' <= Z.of_nat y <= maxY s')%Z.
Proof.
  revert s. induction l as [|xy l IH]; intros s Hin Hc; [contradiction|].
  cbn [fold_left]. destruct Hin as [->|Hin]; [|now apply IH].
  pose proof (scan_monotone l (scanStep isContent width s (x, y))) as Hm.
  cbn zeta in Hm |- *.
  assert (Hstep : scanStep isContent width s (x, y) = scanHit s x y).
  { unfold scanStep. unfold contentAt in Hc. now rewrite Hc. }
  rewrite Hstep in Hm |- *. cbn [scanHit minX maxX minY maxY] in Hm. lia.
Qed.

(** Each extreme of the result is the one the scan started from or the
    coordinate of some content pixel. *)
Lemma scan_attained l s :
  let s' := fold_left (scanStep isContent width) l s in
  (minX s' = minX s
   \/ exists x y, In (x, y) l /\ contentAt isContent width (x, y) = true /\ minX s' = Z.of_nat x)
  /\ (maxX s' = maxX s
      \/ exists x y, In (x, y) l /\ contentAt isContent width (x, y) = true /\ maxX s' = Z.of_nat x)
  /\ (minY s' = minY s
      \/ exists x y, In (x, y) l /\ contentAt isContent width (x, y) = true /\ minY s' = Z.of_nat y)
  /\ (maxY s' = maxY s
      \/ exists x y, In (x, y) l /\ contentAt isContent width (x, y) = true /\ maxY s' = Z.of_nat y).
Proof.
  revert s. induction l as [|[x0 y0] l IH]; intros s; cbn [fold_left].
  - cbn. auto.
  - specialize (IH (scanStep isContent width s (x0, y0))). cbn zeta in IH |- *.
    set (s' := fold_left (scanStep isContent width) l
                 (scanStep isContent width s (x0, y0))) in *.
    assert (Hlift : forall (P : nat -> nat -> Prop),
               (exists x y, In (x, y) l /\ contentAt isContent width (x, y) = true /\ P x y) ->
               exists x y, In (x, y) ((x0, y0) :: l)
                           /\ contentAt isContent width (x, y) = true /\ P x y).
    { intros P [x [y [Hin H]]]. exists x, y. split; [now right | exact H]. }
    unfold scanStep in IH. cbn [fst snd] in IH.
    destruct (isContent ((y0 * width + x0) * 4)) eqn:Hc.
    + cbn [scanHit minX maxX minY maxY] in IH.
      assert (Hhere : forall (P : nat -> nat -> Prop), P x0 y0 ->
                 exists x y, In (x, y) ((x0, y0) :: l)
                             /\ contentAt isContent width (x, y) = true /\ P x y).
      { intros P HP. exists x0, y0. split; [now left|]. split; [exact Hc | exact HP]. }
      destruct IH as [H1 [H2 [H3 H4]]].
      repeat split.
      * destruct H1 as [H1|H1]; [|right; now apply (Hlift (fun x _ => minX s' = Z.of_nat x))].
        destruct (Z.min_spec (minX s) (Z.of_nat x0)) as [[_ E]|[_ E]];
          rewrite E in H1; [now left|].
        right. now apply (Hhere (fun x _ => minX s' = Z.of_nat x)).
      * destruct H2 as [H2|H2]; [|right; now apply (Hlift (fun x _ => maxX s' = Z.of_nat x))].
        destruct (Z.max_spec (maxX s) (Z.of_nat x0)) as [[_ E]|[_ E]];
          rewrite E in H2; [|now left].
        right. now apply (Hhere (fun x _ => maxX s' = Z.of_nat x)).
      * destruct H3 as [H3|H3]; [|right; now apply (Hlift (fun _ y => minY s' = Z.of_nat y))].
        destruct (Z.min_spec (minY s) (Z.of_nat y0)) as [[_ E]|[_ E]];
          rewrite E in H3; [now left|].
        right. now apply (Hhere (fun _ y => minY s' = Z.of_nat y)).
      * destruct H4 as [H4|H4]; [|right; now apply (Hlift (fun _ y => maxY s' = Z.of_nat y))].
        destruct (Z.max_spec (maxY s) (Z.of_nat y0)) as [[_ E]|[_ E]];
          rewrite E in H4; [|now left].
        right. now apply (Hhere (fun _ y => maxY s' = Z.of_nat y)).
    + destruct IH as [H1 [H2 [H3 H4]]].
      repeat split.
      * destruct H1; [now left | right; now apply (Hlift (fun x _ => minX s' = Z.of_nat x))].
      * destruct H2; [now left | right; now apply (Hlift (fun x _ => maxX s' = Z.of_nat x))].
      * destruct H3; [now left | right; now apply (Hlift (fun _ y => minY s' = Z.of_nat y))].
      * destruct H4; [now left | right; now apply (Hlift (fun _ y => maxY s' = Z.of_nat y))].
Qed.

End Scans.

Section ScanBounds.
Import PatternExtractor.

(** What a scan reports: nothing when no pixel is content; otherwise the
    rectangle that lies in the image, holds every content pixel, and
    touches a content pixel on each of its four sides. *)
Lemma scanPixels_bounds width height isContent :
  match scanBounds (scanPixels width height isContent) with
  | Some b =>
      withinImage b width height
      /\ (forall x y, x < width -> y < height ->
            contentAt isContent width (x, y) = true -> insideBounds b x y)
      /\ (exists x y, x < width /\ y < height
            /\ contentAt isContent width (x, y) = true
            /\ b_left b = Z.of_nat x)
      /\ (exists x y, x < width /\ y < height
            /\ contentAt isContent width (x, y) = true
            /\ b_right b = (Z.of_nat x + 1)%Z)
      /\ (exists x y, x < width /\ y < height
            /\ contentAt isContent width (x, y) = true
            /\ b_top b = Z.of_nat y)
      /\ (exists x y, x < width /\ y < height
            /\ contentAt isContent width (x, y) = true
            /\ b_bottom b = (Z.of_nat y + 1)%Z)
  | None =>
      forall x y, x < width -> y < height ->
        contentAt isContent width (x, y) = false
  end.
Proof.
  rewrite scanPixels_flat. unfold scanBounds.
  set (order := scanOrder width height).
  set (s := fold_left (scanStep isContent width) order (scanInit width height)).
  pose proof (scan_hasContent isContent width order (scanInit width height))
    as Hhas. fold s in Hhas. cbn [scanInit hasContent orb] in Hhas.
  destruct (hasContent s) eqn:Hs.
  - symmetry in Hhas. apply existsb_exists in Hhas.
    destruct Hhas as [[x0 y0] [Hin0 Hc0]].
    pose proof (proj1 (in_scanOrder width height x0 y0) Hin0) as [Hx0 Hy0].
    pose proof (scan_covers isContent width order (scanInit width height)
                  x0 y0 Hin0 Hc0) as Hcov0. fold s in Hcov0. cbn zeta in Hcov0.
    pose proof (scan_attained isContent width order (scanInit width height))
      as Hatt. fold s in Hatt. cbn zeta in Hatt.
    cbn [scanInit minX maxX minY maxY] in Hatt.
    assert (Hin : forall x y, In (x, y) order -> x < width /\ y < height)
      by (intros x y; apply in_scanOrder).
    destruct Hatt as [HminX [HmaxX [HminY HmaxY]]].
    assert (AminX : exists x y, x < width /\ y < height
               /\ contentAt isContent width (x, y) = true
               /\ minX s = Z.of_nat x).
    { destruct HminX as [E|[x [y [Hi [Hc E]]]]]; [lia|].
      exists x, y. destruct (Hin x y Hi). auto. }
    assert (AmaxX : exists x y, x < width /\ y < height
               /\ contentAt isContent width (x, y) = true
               /\ maxX s = Z.of_nat x).
    { destruct HmaxX as [E|[x [y [Hi [Hc E]]]]].
      - exists x0, y0. repeat split; auto. lia.
      - exists x, y. destruct (Hin x y Hi). auto. }
    assert (AminY : exists x y, x < width /\ y < height
               /\ contentAt isContent width (x, y) = true
               /\ minY s = Z.of_nat y).
    { destruct HminY as [E|[x [y [Hi [Hc E]]]]]; [lia|].
      exists x, y. destruct (Hin x y Hi). auto. }
    assert (AmaxY : exists x y, x < width /\ y < height
               /\ contentAt isContent width (x, y) = true
               /\ maxY s = Z.of_nat y).
    { destruct HmaxY as [E|[x [y [Hi [Hc E]]]]].
      - exists x0, y0. repeat split; auto. lia.
      - exists x, y. destruct (Hin x y Hi). auto. }
    unfold withinImage, insideBounds. cbn [b_left b_right b_top b_bottom].
    split; [|split; [|split; [exact AminX|split; [|split; [exact AminY|]]]]].
    + destruct AminX as [x1 [_ [H1 [_ [_ E1]]]]].
      destruct AmaxX as [x2 [_ [H2 [_ [_ E2]]]]].
      destruct AminY as [_ [y1 [_ [H3 [_ E3]]]]].
      destruct AmaxY as [_ [y2 [_ [H4 [_ E4]]]]]. lia.
    + intros x y Hx Hy Hc.
      pose proof (scan_covers isContent width order (scanInit width height)
                    x y (proj2 (in_scanOrder width height x y) (conj Hx Hy)) Hc)
        as Hcov. fold s in Hcov. cbn zeta in Hcov. lia.
    + destruct AmaxX as [x [y [Hx [Hy [Hc E]]]]]. exists x, y.
      repeat split; auto. lia.
    + destruct AmaxY as [x [y [Hx [Hy [Hc E]]]]]. exists x, y.
      repeat split; auto. lia.
  - intros x y Hx Hy.
    destruct (contentAt isContent width (x, y)) eqn:Hc; [|reflexivity].
    assert (Hex : existsb (contentAt isContent width) order = true).
    { apply existsb_exists. exists (x, y). split; [|exact Hc].
      apply in_scanOrder. auto. }
    rewrite Hex in Hhas. discriminate.
Qed.

(** X1. The basic detection returns nothing exactly when no pixel of the
    image is more opaque than the threshold; otherwise its rectangle is not
    empty, lies in the image, holds every pixel above the threshold, and
    each of its four sides touches such a pixel. *)
Theorem detectPatternBoundsBasic_tight pixels width height threshold :
  match _detectPatternBoundsBasic pixels width height threshold with
  | Some b =>
      withinImage b width height
      /\ (forall x y, x < width -> y < height ->
            (threshold < alphaAt pixels width x y)%Z -> insideBounds b x y)
      /\ (exists x y, x < width /\ y < height
            /\ (threshold < alphaAt pixels width x y)%Z
            /\ b_left b = Z.of_nat x)
      /\ (exists x y, x < width /\ y < height
            /\ (threshold < alphaAt pixels width x y)%Z
            /\ b_right b = (Z.of_nat x + 1)%Z)
      /\ (exists x y, x < width /\ y < height
            /\ (threshold < alphaAt pixels width x y)%Z
            /\ b_top b = Z.of_nat y)
      /\ (exists x y, x < width /\ y < height
            /\ (threshold < alphaAt pixels width x y)%Z
            /\ b_bottom b = (Z.of_nat y + 1)%Z)
  | None =>
      forall x y, x < width -> y < height ->
        (alphaAt pixels width x y <= threshold)%Z
  end.
Proof.
  unfold _detectPatternBoundsBasic.
  pose proof (scanPixels_bounds width height
                (fun index => (threshold <? pixel pixels (index + 3))%Z)) as H.
  assert (Hc : forall x y,
             contentAt (fun index => (threshold <? pixel pixels (index + 3))%Z)
               width (x, y) = true
             <-> (threshold < alphaAt pixels width x y)%Z).
  { intros x y. unfold contentAt, alphaAt. cbn [fst snd]. apply Z.ltb_lt. }
  destruct (scanBounds _) as [b|].
  - destruct H as [Hin [Hcov [Hl [Hr [Ht Hb]]]]].
    split; [exact Hin|]. split.
    { intros x y Hx Hy Ha. apply Hcov; auto. now apply Hc. }
    repeat split.
    + destruct Hl as [x [y [Hx [Hy [Hcx E]]]]]. exists x, y.
      repeat split; auto. now apply Hc.
    + destruct Hr as [x [y [Hx [Hy [Hcx E]]]]]. exists x, y.
      repeat split; auto. now apply Hc.
    + destruct Ht as [x [y [Hx [Hy [Hcx E]]]]]. exists x, y.
      repeat split; auto. now apply Hc.
    + destruct Hb as [x [y [Hx [Hy [Hcx E]]]]]. exists x, y.
      repeat split; auto. now apply Hc.
  - intros x y Hx Hy. specialize (H x y Hx Hy).
    destruct (Z.leb_spec (alphaAt pixels width x y) threshold); [assumption|].
    apply Hc in H0. congruence.
Qed.

End ScanBounds.

Section ColourDetection.
Import PatternExtractor.

(** X2. The colour-distance detection returns nothing only for an image
    without a pixel above the opacity threshold.  The rectangle it returns
    is not empty, lies in the image and holds every contrasting pixel; and
    when no pixel contrasts with the dominant colour it holds every pixel
    above the threshold. *)
Theorem detectPatternBounds_covers pixels width height threshold :
  match _detectPatternBounds pixels width height threshold with
  | Some b =>
      withinImage b width height
      /\ (forall x y, x < width -> y < height ->
            contrasting pixels width height threshold x y ->
            insideBounds b x y)
      /\ ((exists x y, x < width /\ y < height
             /\ contrasting pixels width height threshold x y)
          \/ (forall x y, x < width -> y < height ->
                (threshold < alphaAt pixels width x y)%Z -> insideBounds b x y))
  | None =>
      forall x y, x < width -> y < height ->
        (alphaAt pixels width x y <= threshold)%Z
  end.
Proof.
  unfold _detectPatternBounds. cbn zeta.
  set (isContrast := fun index =>
         (threshold <? pixel pixels (index + 3))%Z
         && (30 * 30 <?
             _colorDistanceSq
               (mkColor (pixel pixels index) (pixel pixels (index + 1))
                        (pixel pixels (index + 2)))
               (_detectDominantColor pixels width height))%Z).
  assert (Hc : forall x y,
             contentAt isContrast width (x, y) = true
             <-> contrasting pixels width height threshold x y).
  { intros x y. unfold contentAt, contrasting, alphaAt, colorAt, isContrast.
    cbn [fst snd]. rewrite andb_true_iff, !Z.ltb_lt. reflexivity. }
  pose proof (scanPixels_bounds width height isContrast) as H.
  unfold scanBounds in H |- *.
  destruct (hasContent (scanPixels width height isContrast)).
  - destruct H as [Hin [Hcov [[x [y [Hx [Hy [Hcx _]]]]] _]]].
    split; [exact Hin|]. split.
    + intros x' y' Hx' Hy' Hk. apply Hcov; auto. now apply Hc.
    + left. exists x, y. repeat split; auto; now apply Hc.
  - unfold _detectPatternBoundsBasic.
    set (isOpaque := fun index => (threshold <? pixel pixels (index + 3))%Z).
    pose proof (scanPixels_bounds width height isOpaque) as Hb.
    assert (Ho : forall x y,
               contentAt isOpaque width (x, y) = true
               <-> (threshold < alphaAt pixels width x y)%Z).
    { intros x y. unfold contentAt, alphaAt, isOpaque. cbn [fst snd].
      apply Z.ltb_lt. }
    unfold scanBounds in Hb |- *.
    destruct (hasContent (scanPixels width height isOpaque)).
    + destruct Hb as [Hin [Hcov _]]. split; [exact Hin|]. split.
      * intros x y Hx Hy [Ha _]. apply Hcov; auto. now apply Ho.
      * right. intros x y Hx Hy Ha. apply Hcov; auto. now apply Ho.
    + intros x y Hx Hy. specialize (Hb x y Hx Hy).
      destruct (Z.leb_spec (alphaAt pixels width x y) threshold); [assumption|].
      apply Ho in H0. congruence.
Qed.

(** The part of this that the cropping entry points rely on. *)
Lemma detectPatternBounds_result pixels width height threshold :
  match _detectPatternBounds pixels width height threshold with
  | Some b =>
      withinImage b width height
      /\ (forall x y, x < width -> y < height ->
            contrasting pixels width height threshold x y ->
            insideBounds b x y)
  | None =>
      forall x y, x < width -> y < height ->
        (alphaAt pixels width x y <= threshold)%Z
  end.
Proof.
  unfold _detectPatternBounds, _detectPatternBoundsBasic. cbn zeta.
  match goal with
  | |- context [scanPixels width height ?c] =>
      lazymatch c with
      | (fun index => (_ && _)%bool) =>
          pose proof (scanPixels_bounds width height c) as H;
          unfold scanBounds in H |- *;
          destruct (hasContent (scanPixels width height c))
      end
  end.
  - destruct H as [Hin [Hcov _]]. split; [exact Hin|].
    intros x y Hx Hy [Ha Hd]. apply Hcov; auto.
    unfold contentAt. cbn [fst snd]. apply andb_true_iff.
    split; apply Z.ltb_lt; assumption.
  - clear H.
    match goal with
    | |- context [scanPixels width height ?c] =>
        pose proof (scanPixels_bounds width height c) as H;
        unfold scanBounds in H |- *;
        destruct (hasContent (scanPixels width height c))
    end.
    + destruct H as [Hin [Hcov _]]. split; [exact Hin|].
      intros x y Hx Hy [Ha _]. apply Hcov; auto.
      unfold contentAt. cbn [fst snd]. apply Z.ltb_lt. exact Ha.
    + intros x y Hx Hy. specialize (H x y Hx Hy).
      unfold contentAt in H. cbn [fst snd] in H.
      apply Z.ltb_ge in H. exact H.
Qed.

Lemma cropTo_inside width height b padding :
  withinImage b width height -> (0 <= padding)%Z ->
  cropInside (cropTo width height b padding) width height
  /\ forall x y, insideBounds b x y ->
       inCrop (cropTo width height b padding) x y.
Proof.
  unfold withinImage, insideBounds, cropTo, cropInside, inCrop.
  intros [Hl [Hr [Ht Hb]]] Hp. split; [lia|]. intros x y [Hx Hy]. lia.
Qed.

(** X3. With a padding that is not negative, [extractPattern] hands back
    the image uncropped, which it does only when no pixel is above the
    opacity threshold, or a crop of positive size that lies inside the
    image; either way the result contains every contrasting pixel. *)
Theorem extractPattern_crop_inside image padding threshold :
  (0 <= padding)%Z ->
  let result := extractPattern image padding threshold in
  cropInside result (id_width image) (id_height image)
  /\ (forall x y, x < id_width image -> y < id_height image ->
        contrasting (id_data image) (id_width image) (id_height image)
          threshold x y ->
        inCrop result x y)
  /\ (forall w h, result = Uncropped w h ->
        forall x y, x < id_width image -> y < id_height image ->
          (alphaAt (id_data image) (id_width image) x y <= threshold)%Z).
Proof.
  intros Hp. cbn zeta. unfold extractPattern.
  pose proof (detectPatternBounds_result (id_data image) (id_width image)
                (id_height image) threshold) as H.
  destruct (_detectPatternBounds _ _ _ _) as [b|].
  - destruct H as [Hin Hcov].
    destruct (cropTo_inside _ _ b padding Hin Hp) as [Hinside Hkeep].
    split; [exact Hinside|]. split.
    + intros x y Hx Hy Hk. apply Hkeep. now apply Hcov.
    + intros w h Habs. unfold cropTo in Habs. discriminate.
  - split; [cbn; auto|]. split; [intros; exact I|].
    intros w h _. exact H.
Qed.

End ColourDetection.

(** The sample image under the default options. *)
Lemma extractPattern_crop_inside_witness :
  cropInside
    (PatternExtractor.extractPattern Samples.speck
       PatternExtractor.default_padding PatternExtractor.default_threshold)
    44 25.
Proof.
  refine (proj1 (extractPattern_crop_inside Samples.speck
                   PatternExtractor.default_padding
                   PatternExtractor.default_threshold _)).
  unfold PatternExtractor.default_padding. lia.
Defined.

(** ** PatternExtractor: the density bounds *)

Section DensityScan.
Import PatternExtractor.
Variable threshold : Q.

Lemma scanUp_found density fuel i j :
  scanUp density threshold fuel i = Some j ->
  i <= j < i + fuel
  /\ Qgtb (nth j density 0%Q) threshold = true
  /\ forall k, i <= k < j -> Qgtb (nth k density 0%Q) threshold = false.
Proof.
  revert i. induction fuel as [|fuel IH]; intros i; cbn [scanUp];
    [discriminate|].
  destruct (Qgtb (nth i density 0%Q) threshold) eqn:Hi.
  - intros H. injection H as <-. repeat split; [lia | lia | exact Hi | lia].
  - intros H. apply IH in H. destruct H as [Hr [Hj Hbefore]].
    repeat split; [lia | lia | exact Hj |].
    intros k Hk. destruct (Nat.eq_dec k i) as [->|Hne]; [exact Hi|].
    apply Hbefore. lia.
Qed.

Lemma scanUp_missing density fuel i :
  scanUp density threshold fuel i = None ->
  forall k, i <= k < i + fuel -> Qgtb (nth k density 0%Q) threshold = false.
Proof.
  revert i. induction fuel as [|fuel IH]; intros i; cbn [scanUp].
  - intros _ k Hk. lia.
  - destruct (Qgtb (nth i density 0%Q) threshold) eqn:Hi; [discriminate|].
    intros H k Hk. destruct (Nat.eq_dec k i) as [->|Hne]; [exact Hi|].
    apply (IH _ H). lia.
Qed.

Lemma scanDown_found density n j :
  scanDown density threshold n = Some j ->
  j < n
  /\ Qgtb (nth j density 0%Q) threshold = true
  /\ forall k, j < k < n -> Qgtb (nth k density 0%Q) threshold = false.
Proof.
  induction n as [|n IH]; cbn [scanDown]; [discriminate|].
  destruct (Qgtb (nth n density 0%Q) threshold) eqn:Hn.
  - intros H. injection H as <-. repeat split; [lia | exact Hn | lia].
  - intros H. apply IH in H. destruct H as [Hr [Hj Hafter]].
    repeat split; [lia | exact Hj |].
    intros k Hk. destruct (Nat.eq_dec k n) as [->|Hne]; [exact Hn|].
    apply Hafter. lia.
Qed.

Lemma scanDown_missing density n :
  scanDown density threshold n = None ->
  forall k, k < n -> Qgtb (nth k density 0%Q) threshold = false.
Proof.
  induction n as [|n IH]; cbn [scanDown].
  - intros _ k Hk. lia.
  - destruct (Qgtb (nth n density 0%Q) threshold) eqn:Hn; [discriminate|].
    intros H k Hk. destruct (Nat.eq_dec k n) as [->|Hne]; [exact Hn|].
    apply (IH H). lia.
Qed.

Lemma Qgtb_lt a b : Qgtb a b = true <-> (b < a)%Q.
Proof.
  split; [apply Qgtb_true|]. intros H. unfold Qgtb.
  destruct (Qle_bool a b) eqn:E; [|reflexivity].
  apply Qle_bool_iff in E. exfalso. eapply Qlt_not_le; eassumption.
Qed.

Lemma all_missing_Forall density :
  (forall k, k < List.length density ->
     Qgtb (nth k density 0%Q) threshold = false) ->
  Forall (fun d => (d <= threshold)%Q) density.
Proof.
  intros H. apply Forall_forall. intros d Hd.
  destruct (In_nth _ _ 0%Q Hd) as [k [Hk <-]].
  apply Qgtb_false. now apply H.
Qed.

(** The two indices one density list contributes: the first and one past
    the last index above the threshold, or 0 and the last index. *)
Lemma density_range density :
  let first :=
    match scanUp density threshold (List.length density) 0 with
    | Some i => Z.of_nat i | None => 0%Z end in
  let last :=
    match scanDown density threshold (List.length density) with
    | Some i => (Z.of_nat i + 1)%Z
    | None => (Z.of_nat (List.length density) - 1)%Z end in
  (0 <= first)%Z /\ (last <= Z.of_nat (List.length density))%Z
  /\ (forall k, k < List.length density ->
        (threshold < nth k density 0%Q)%Q ->
        (first <= Z.of_nat k < last)%Z)
  /\ ((last <= first)%Z ->
      List.length density <= 1
      /\ Forall (fun d => (d <= threshold)%Q) density).
Proof.
  cbn zeta.
  destruct (scanUp density threshold (List.length density) 0) as [i|] eqn:Hup;
    destruct (scanDown density threshold (List.length density)) as [j|] eqn:Hdown.
  - apply scanUp_found in Hup. apply scanDown_found in Hdown.
    destruct Hup as [Hi [Hgi Hbefore]]. destruct Hdown as [Hj [Hgj Hafter]].
    assert (Hij : i <= j).
    { destruct (Nat.le_gt_cases i j); [assumption|].
      rewrite Hbefore in Hgj by lia. discriminate. }
    split; [lia|]. split; [lia|]. split; [|lia].
    intros k Hk Hg. apply Qgtb_lt in Hg. split.
    + destruct (Nat.le_gt_cases i k); [lia|].
      rewrite Hbefore in Hg by lia. discriminate.
    + destruct (Nat.le_gt_cases k j); [lia|].
      rewrite Hafter in Hg by lia. discriminate.
  - apply scanUp_found in Hup. destruct Hup as [Hi [Hgi _]].
    rewrite (scanDown_missing _ _ Hdown i) in Hgi by lia. discriminate.
  - apply scanDown_found in Hdown. destruct Hdown as [Hj [Hgj _]].
    rewrite (scanUp_missing _ _ _ Hup j) in Hgj by lia. discriminate.
  - pose proof (scanDown_missing _ _ Hdown) as Hnone.
    split; [lia|]. split; [lia|]. split.
    + intros k Hk Hg. apply Qgtb_lt in Hg.
      rewrite Hnone in Hg by lia. discriminate.
    + intros Hle. split; [lia|]. now apply all_missing_Forall.
Qed.

(** X4. The rectangle [_findContentBounds] returns is not empty, lies in
    the image, and holds every row and every column whose density is above
    the threshold; it returns nothing only when there is at most one row,
    none above the threshold, or at most one column, none above it. *)
Theorem findContentBounds_inside rowDensity colDensity :
  match _findContentBounds rowDensity colDensity threshold with
  | Some b =>
      withinImage b (List.length colDensity) (List.length rowDensity)
      /\ (forall y, y < List.length rowDensity ->
            (threshold < nth y rowDensity 0%Q)%Q ->
            (b_top b <= Z.of_nat y < b_bottom b)%Z)
      /\ (forall x, x < List.length colDensity ->
            (threshold < nth x colDensity 0%Q)%Q ->
            (b_left b <= Z.of_nat x < b_right b)%Z)
  | None =>
      (List.length rowDensity <= 1
       /\ Forall (fun d => (d <= threshold)%Q) rowDensity)
      \/ (List.length colDensity <= 1
          /\ Forall (fun d => (d <= threshold)%Q) colDensity)
  end.
Proof.
  unfold _findContentBounds.
  pose proof (density_range rowDensity) as Hrows.
  pose proof (density_range colDensity) as Hcols.
  cbn zeta in Hrows, Hcols |- *.
  destruct Hrows as [Ht [Hb [Hrin Hrnone]]].
  destruct Hcols as [Hl [Hr [Hcin Hcnone]]].
  match goal with
  | |- context [((?bottom <=? ?top)%Z || (?right <=? ?left)%Z)%bool] =>
      destruct (Z.leb_spec bottom top) as [Hbt|Hbt];
      [|destruct (Z.leb_spec right left) as [Hrl|Hrl]]
  end; cbn [orb].
  - left. now apply Hrnone.
  - right. now apply Hcnone.
  - unfold withinImage. cbn [b_left b_right b_top b_bottom].
    split; [repeat split; lia|]. split.
    + intros y Hy Hg. now apply Hrin.
    + intros x Hx Hg. now apply Hcin.
Qed.

End DensityScan.


Section Densities.
Import PatternExtractor.

Lemma countOpaque_filter pixels indices :
  countOpaque pixels indices
  = Z.of_nat (List.length
                (filter (fun index => (10 <? pixel pixels (index + 3))%Z)
                        indices)).
Proof.
  unfold countOpaque.
  assert (H : forall acc,
             fold_left (fun opaquePixels index =>
                          if (10 <? pixel pixels (index + 3))%Z
                          then (opaquePixels + 1)%Z else opaquePixels)
                       indices acc
             = (acc + Z.of_nat (List.length
                                  (filter (fun index =>
                                             (10 <? pixel pixels (index + 3))%Z)
                                          indices)))%Z).
  { induction indices as [|i rest IH]; intros acc; cbn [fold_left filter].
    - cbn. lia.
    - rewrite IH. destruct (10 <? pixel pixels (i + 3))%Z; cbn [List.length]; lia. }
  rewrite H. lia.
Qed.

Lemma nth_map_seq {T} (f : nat -> T) n k d :
  k < n -> nth k (map f (seq 0 n)) d = f k.
Proof.
  intros Hk. rewrite (nth_indep _ d (f 0)) by (rewrite length_map, length_seq; lia).
  rewrite map_nth, seq_nth by lia. reflexivity.
Qed.

(** The density of a line of [n] pixels: between 0 and 1, and above 0
    exactly when one of its pixels is opaque. *)
Lemma line_density pixels (line : nat -> nat) n :
  0 < n ->
  let d := (inject_Z (countOpaque pixels (map line (seq 0 n)))
            / inject_Z (Z.of_nat n))%Q in
  (0 <= d)%Q /\ (d <= 1)%Q
  /\ ((0 < d)%Q <-> exists k, k < n /\ (10 < pixel pixels (line k + 3))%Z).
Proof.
  intros Hn. cbn zeta. rewrite countOpaque_filter.
  set (opaque := fun index => (10 <? pixel pixels (index + 3))%Z).
  set (hits := filter opaque (map line (seq 0 n))).
  assert (Hlen : List.length hits <= n).
  { unfold hits. etransitivity; [apply filter_length_le|].
    rewrite length_map, length_seq. lia. }
  assert (Hpos : (0 < inject_Z (Z.of_nat n))%Q).
  { change 0%Q with (inject_Z 0). rewrite <- Zlt_Qlt. lia. }
  split; [|split].
  - apply Qle_shift_div_l; [exact Hpos|]. rewrite Qmult_0_l.
    change 0%Q with (inject_Z 0). rewrite <- Zle_Qle. lia.
  - apply Qle_shift_div_r; [exact Hpos|]. rewrite Qmult_1_l.
    rewrite <- Zle_Qle. lia.
  - split.
    + intros Hd.
      destruct hits as [|index rest] eqn:Hhits.
      * exfalso. cbn in Hd. unfold Qdiv in Hd. rewrite Qmult_0_l in Hd.
        now apply Qlt_irrefl in Hd.
      * assert (Hin : In index hits) by (rewrite Hhits; now left).
        unfold hits in Hin. apply filter_In in Hin. destruct Hin as [Hin Ho].
        apply in_map_iff in Hin. destruct Hin as [k [<- Hk]].
        apply in_seq in Hk. exists k. split; [lia|].
        unfold opaque in Ho. now apply Z.ltb_lt.
    + intros [k [Hk Ho]].
      assert (Hin : In (line k) hits).
      { unfold hits. apply filter_In. split.
        - apply in_map. apply in_seq. lia.
        - unfold opaque. now apply Z.ltb_lt. }
      apply Qlt_shift_div_l; [exact Hpos|]. rewrite Qmult_0_l.
      change 0%Q with (inject_Z 0). rewrite <- Zlt_Qlt.
      destruct hits; [contradiction | cbn [List.length]; lia].
Qed.

(** X5. For an image with at least one column and one row there is one
    density per row and one per column, each between 0 and 1, and a row or
    column has a density above 0 exactly when it holds a pixel whose alpha
    is above 10. *)
Theorem densities_are_fractions pixels width height :
  0 < width -> 0 < height ->
  let rows := _calculateRowDensity pixels width height in
  let cols := _calculateColumnDensity pixels width height in
  List.length rows = height /\ List.length cols = width
  /\ (forall y, y < height ->
        (0 <= nth y rows 0%Q)%Q /\ (nth y rows 0%Q <= 1)%Q
        /\ ((0 < nth y rows 0%Q)%Q
            <-> exists x, x < width /\ (10 < alphaAt pixels width x y)%Z))
  /\ (forall x, x < width ->
        (0 <= nth x cols 0%Q)%Q /\ (nth x cols 0%Q <= 1)%Q
        /\ ((0 < nth x cols 0%Q)%Q
            <-> exists y, y < height /\ (10 < alphaAt pixels width x y)%Z)).
Proof.
  intros Hw Hh. cbn zeta. unfold _calculateRowDensity, _calculateColumnDensity.
  rewrite !length_map, !length_seq.
  split; [reflexivity|]. split; [reflexivity|]. split.
  - intros y Hy.
    rewrite (nth_map_seq
               (fun y => (inject_Z (countOpaque pixels
                                      (map (fun x => ((y * width + x) * 4)%nat)
                                           (seq 0 width)))
                          / inject_Z (Z.of_nat width))%Q)) by exact Hy.
    exact (line_density pixels (fun x => (y * width + x) * 4) width Hw).
  - intros x Hx.
    rewrite (nth_map_seq
               (fun x => (inject_Z (countOpaque pixels
                                      (map (fun y => ((y * width + x) * 4)%nat)
                                           (seq 0 height)))
                          / inject_Z (Z.of_nat height))%Q)) by exact Hx.
    exact (line_density pixels (fun y => (y * width + x) * 4) height Hh).
Qed.

(** The sample image: 25 row densities and 44 column densities. *)
Lemma densities_are_fractions_witness :
  List.length (_calculateRowDensity (id_data Samples.speck) 44 25) = 25
  /\ List.length (_calculateColumnDensity (id_data Samples.speck) 44 25) = 44.
Proof.
  assert (Hw : 0 < 44) by lia. assert (Hh : 0 < 25) by lia.
  pose proof (densities_are_fractions (id_data Samples.speck) 44 25 Hw Hh) as H.
  split; [exact (proj1 H) | exact (proj1 (proj2 H))].
Defined.


End Densities.


(** ** CanvasUtility: resizing *)

Section Resizing.
Import CanvasUtility.
Local Open Scope Q_scope.

Lemma Math_round_near (x : Q) :
  x - (1 # 2) < Math_round x /\ Math_round x <= x + (1 # 2).
Proof.
  unfold Math_round. split.
  - pose proof (Qlt_floor (x + (1 # 2))) as H.
    rewrite inject_Z_plus in H. change (inject_Z 1) with 1 in H. lra.
  - apply Qfloor_le.
Qed.

Lemma Math_round_close (k : Z) (x : Q) :
  inject_Z k - (1 # 2) <= x -> x < inject_Z k + (1 # 2) ->
  Math_round x = inject_Z k.
Proof.
  intros Hlo Hhi. unfold Math_round. f_equal.
  assert (H1 : (Qfloor (x + (1 # 2)) < k + 1)%Z).
  { rewrite Zlt_Qlt, inject_Z_plus. change (inject_Z 1) with 1.
    pose proof (Qfloor_le (x + (1 # 2))). lra. }
  assert (H2 : (k <= Qfloor (x + (1 # 2)))%Z).
  { rewrite <- (Qfloor_Z k). apply Qfloor_resp_le. lra. }
  lia.
Qed.

(** X7. For an image and bounds of positive whole size, [resizeImage]
    returns a canvas or throws the canvas error.  A canvas it returns has
    whole positive dimensions that exceed neither the bounds nor the
    dimensions of the image; it throws only for an image that does not fit
    and is so elongated that a scaled dimension rounds to 0; an image that
    already fits comes back in its own size. *)
Theorem resizeImage_scales_down (w h maxW maxH : Z) :
  (0 < w <= 2147483647)%Z -> (0 < h <= 2147483647)%Z ->
  (0 < maxW <= 2 ^ 53)%Z -> (0 < maxH <= 2 ^ 53)%Z ->
  let result :=
    resizeImage (AnImage (mkImage w h))
      (VNum (Fin (inject_Z maxW))) (VNum (Fin (inject_Z maxH))) in
  match result with
  | Return c =>
      exists w' h' : Z,
        c = mkCanvas (inject_Z w') (inject_Z h')
        /\ (0 < w' <= Z.min w maxW)%Z /\ (0 < h' <= Z.min h maxH)%Z
  | Throw e =>
      e = plainError (Constants.messageOf Constants.CANVAS_ERROR)
      /\ ((maxW < w)%Z \/ (maxH < h)%Z)
      /\ ((h * maxW < w)%Z \/ (Z.min w maxW * maxH < h)%Z)
  | ThrowUndefined => False
  end
  /\ ((w <= maxW)%Z -> (h <= maxH)%Z ->
      result = Return (mkCanvas (inject_Z w) (inject_Z h))).
Proof.
  intros Hw Hh HmW HmH. cbv zeta.
  destruct (resizeImage_dimensions w h maxW maxH) as
      [w' [h' [-> [Hw' [Hh' [Hfit Hpos]]]]]]; try lia.
  rewrite createCanvas_integers.
  destruct (Z.ltb_spec 0 w') as [Pw|Pw], (Z.ltb_spec 0 h') as [Ph|Ph];
    cbn [andb].
  1: { rewrite !assignedDimension_integer by lia. split.
       - exists w', h'. split; [reflexivity|]. lia.
       - intros A B. destruct (Hfit A B) as [-> ->]. reflexivity. }
  all: split;
    [ split; [reflexivity|]; split;
      [ destruct (Z.le_gt_cases w maxW), (Z.le_gt_cases h maxH); try lia;
        destruct Hfit; lia
      | destruct (Z.le_gt_cases w (h * maxW)) as [A|A]; [|left; lia];
        destruct (Z.le_gt_cases h (Z.min w maxW * maxH)) as [B|B];
          [|right; exact B];
        destruct (Hpos A B); lia ]
    | intros A B; destruct (Hfit A B); lia ].
Qed.

(** The concrete scenario 3000 x 2000 under 1500 x 800. *)
Lemma resizeImage_scales_down_witness :
  match resizeImage (AnImage (mkImage 3000 2000))
          (VNum (Fin (inject_Z 1500))) (VNum (Fin (inject_Z 800))) with
  | Return c =>
      exists w' h' : Z,
        c = mkCanvas (inject_Z w') (inject_Z h')
        /\ (0 < w' <= Z.min 3000 1500)%Z /\ (0 < h' <= Z.min 2000 800)%Z
  | Throw e =>
      e = plainError (Constants.messageOf Constants.CANVAS_ERROR)
      /\ ((1500 < 3000)%Z \/ (800 < 2000)%Z)
      /\ ((2000 * 1500 < 3000)%Z \/ (Z.min 3000 1500 * 800 < 2000)%Z)
  | ThrowUndefined => False
  end.
Proof.
  apply (resizeImage_scales_down 3000 2000 1500 800); lia.
Defined.

Lemma Qgtb_of_lt a b : b < a -> Qgtb a b = true.
Proof.
  intros H. unfold Qgtb. destruct (Qle_bool a b) eqn:E; [|reflexivity].
  apply Qle_bool_iff in E. exfalso. exact (Qlt_not_le _ _ H E).
Qed.

Lemma Qgtb_of_le a b : a <= b -> Qgtb a b = false.
Proof.
  intros H. unfold Qgtb. apply Qle_bool_iff in H. now rewrite H.
Qed.

Lemma bounds_guard (maxW maxH : Z) :
  (0 < maxW)%Z -> (0 < maxH)%Z ->
  negb (typeof_number (VNum (Fin (inject_Z maxW))))
  || negb (typeof_number (VNum (Fin (inject_Z maxH))))
  || js_le0 (VNum (Fin (inject_Z maxW))) || js_le0 (VNum (Fin (inject_Z maxH)))
  || negb (isFinite (VNum (Fin (inject_Z maxW))))
  || negb (isFinite (VNum (Fin (inject_Z maxH)))) = false.
Proof.
  intros HW HH. cbn [typeof_number isFinite js_le0 negb orb].
  assert (G : forall z, (0 < z)%Z -> Qle_bool (inject_Z z) 0 = false).
  { intros z Hz. destruct (Qle_bool (inject_Z z) 0) eqn:E; [|reflexivity].
    apply Qle_bool_iff in E. change 0 with (inject_Z 0) in E.
    rewrite <- Zle_Qle in E. lia. }
  now rewrite (G _ HW), (G _ HH).
Qed.

(** The error of [height * (maxWidth / width)] in doubles, for sizes a
    canvas can have. *)
Lemma scaled_error (a num den : Z) :
  (0 < a <= 2147483647)%Z -> (0 < num <= den)%Z -> (den <= 2147483647)%Z ->
  Qabs (js_mul (inject_Z a) (js_div (inject_Z num) (inject_Z den))
        - inject_Z a * inject_Z num / inject_Z den) <= pow2 (-21).
Proof.
  intros Ha Hn Hd.
  destruct (js_div_ratio num den Hn ltac:(lia)) as [Hq0 [Hq1 [Hr0 [Hr1 Herr]]]].
  cbv zeta in Hq0, Hq1, Hr0, Hr1, Herr.
  set (q := inject_Z num / inject_Z den) in *.
  set (r := js_div (inject_Z num) (inject_Z den)) in *.
  pose proof (inject_Z_pos a ltac:(lia)) as Pa.
  pose proof (inject_Z_pos den ltac:(lia)) as Pd.
  assert (Ha1 : 1 <= inject_Z a)
    by (change 1 with (inject_Z 1); rewrite <- Zle_Qle; lia).
  assert (Ha31 : inject_Z a <= pow2 31)
    by (rewrite pow2_Z by lia; rewrite <- Zle_Qle;
        change (2 ^ 31)%Z with 2147483648%Z; lia).
  assert (Hq31 : pow2 (-31) <= q).
  { unfold q. apply Qle_shift_div_l; [exact Pd|].
    assert (Hd31 : inject_Z den <= pow2 31)
      by (rewrite pow2_Z by lia; rewrite <- Zle_Qle;
          change (2 ^ 31)%Z with 2147483648%Z; lia).
    assert (E : pow2 (-31) * pow2 31 == 1) by (rewrite <- pow2_add; reflexivity).
    assert (P : 0 < pow2 (-31)) by apply pow2_pos.
    assert (H1 : 1 <= inject_Z num)
      by (change 1 with (inject_Z 1); rewrite <- Zle_Qle; lia).
    apply Qle_trans with (pow2 (-31) * pow2 31); [|lra].
    apply Qmult_le_l; assumption. }
  assert (P53 : pow2 (-53) <= 1 # 2) by (apply Qle_bool_iff; reflexivity).
  assert (P53' : 0 < pow2 (-53)) by apply pow2_pos.
  assert (Hr : q - q * pow2 (-53) <= r /\ r <= q + q * pow2 (-53))
    by (revert Herr; apply Qabs_case; intros; lra).
  destruct Hr as [Hrlo Hrhi].
  assert (Hhalf : q * pow2 (-53) <= q * (1 # 2))
    by (apply Qmult_le_l; assumption).
  assert (Hrq : pow2 (-32) <= r).
  { assert (E : pow2 (-31) * (1 # 2) == pow2 (-32)) by reflexivity. lra. }
  assert (Hx2 : pow2 (-1022) <= inject_Z a * r).
  { apply Qle_trans with (pow2 (-32)); [apply pow2_le; lia|].
    apply Qle_trans with (1 * r); [lra|].
    apply Qmult_le_compat_r; assumption. }
  pose proof (roundDouble_relative _ Hx2) as Hrel.
  unfold js_mul.
  assert (Hxa : inject_Z a * r <= inject_Z a).
  { rewrite <- (Qmult_1_r (inject_Z a)) at 2. apply Qmult_le_l; assumption. }
  assert (Herr2 : Qabs (roundDouble (inject_Z a * r) - inject_Z a * r)
                  <= inject_Z a * pow2 (-53)).
  { eapply Qle_trans; [exact Hrel|]. apply Qmult_le_compat_r; lra. }
  assert (Herr1 : inject_Z a * q - inject_Z a * pow2 (-53) <= inject_Z a * r
                  /\ inject_Z a * r <= inject_Z a * q + inject_Z a * pow2 (-53)).
  { assert (Hqe : q * pow2 (-53) <= pow2 (-53)).
    { rewrite <- (Qmult_1_l (pow2 (-53))) at 2.
      apply Qmult_le_compat_r; lra. }
    split.
    - apply Qle_trans with (inject_Z a * (q - q * pow2 (-53))).
      + setoid_replace (inject_Z a * (q - q * pow2 (-53)))
          with (inject_Z a * q - inject_Z a * (q * pow2 (-53))) by ring.
        assert (inject_Z a * (q * pow2 (-53)) <= inject_Z a * pow2 (-53))
          by (apply Qmult_le_l; assumption).
        lra.
      + apply Qmult_le_l; assumption.
    - apply Qle_trans with (inject_Z a * (q + q * pow2 (-53))).
      + apply Qmult_le_l; assumption.
      + setoid_replace (inject_Z a * (q + q * pow2 (-53)))
          with (inject_Z a * q + inject_Z a * (q * pow2 (-53))) by ring.
        assert (inject_Z a * (q * pow2 (-53)) <= inject_Z a * pow2 (-53))
          by (apply Qmult_le_l; assumption).
        lra. }
  assert (Hexact : inject_Z a * inject_Z num / inject_Z den == inject_Z a * q).
  { unfold q. field. intros E. rewrite E in Pd. discriminate Pd. }
  assert (Hbound : inject_Z a * pow2 (-53) <= pow2 (-22)).
  { apply Qle_trans with (pow2 31 * pow2 (-53)).
    - apply Qmult_le_compat_r; lra.
    - rewrite <- pow2_add. apply Qle_refl. }
  assert (E21 : pow2 (-22) + pow2 (-22) == pow2 (-21)) by reflexivity.
  rewrite Hexact. destruct Herr1 as [E1 E1'].
  revert Herr2. apply Qabs_case; intros X Y; apply Qabs_case; intros Z0; lra.
Qed.

(** X8. When the image is wider than [maxWidth], the height that
    [resizeImage] computes, [Math.round(height * (maxWidth / width))] in
    double arithmetic, is within half a pixel and 2^-20 of the proportional
    height, and it is the proportional height when that is a whole number,
    so that the aspect ratio is then kept exactly; when the computed height
    lies between 1 and [maxHeight], the canvas returned is [maxWidth] wide
    and that high. *)
Theorem resizeImage_width_pass (w h maxW maxH : Z) :
  (0 < h <= 2147483647)%Z -> (0 < maxW < w)%Z -> (w <= 2147483647)%Z ->
  (0 < maxH <= 2 ^ 53)%Z ->
  let exact := inject_Z h * inject_Z maxW / inject_Z w in
  let scaled :=
    Math_round (js_mul (inject_Z h) (js_div (inject_Z maxW) (inject_Z w))) in
  Qabs (scaled - exact) <= (1 # 2) + pow2 (-20)
  /\ (forall k : Z, (h * maxW = k * w)%Z -> scaled = inject_Z k)
  /\ (0 < scaled -> scaled <= inject_Z maxH ->
      resizeImage (AnImage (mkImage w h))
        (VNum (Fin (inject_Z maxW))) (VNum (Fin (inject_Z maxH)))
      = Return (mkCanvas (inject_Z maxW) scaled)).
Proof.
  intros Hh HmW Hw HmH exact scaled.
  pose proof (scaled_error h maxW w Hh ltac:(lia) Hw) as Herr.
  fold exact in Herr.
  set (x := js_mul (inject_Z h) (js_div (inject_Z maxW) (inject_Z w))) in *.
  destruct (Math_round_near x) as [Hlo Hhi]. fold scaled in Hlo, Hhi.
  assert (P21 : pow2 (-21) <= pow2 (-20)) by (apply pow2_le; lia).
  assert (P20 : pow2 (-20) < 1 # 2) by reflexivity.
  split; [|split].
  - revert Herr. apply Qabs_case; intros X Y; apply Qabs_case; intros Z0;
      lra.
  - intros k Hk.
    pose proof (inject_Z_pos w ltac:(lia)) as Pw.
    assert (Hexact : exact == inject_Z k).
    { unfold exact. rewrite <- inject_Z_mult, Hk, inject_Z_mult. field.
      intros E. rewrite E in Pw. discriminate Pw. }
    apply Math_round_close;
      revert Herr; apply Qabs_case; intros X Y; lra.
  - intros Hpos Hle. unfold resizeImage.
    rewrite (bounds_guard maxW maxH) by lia.
    cbn [numOf img_width img_height].
    assert (Hgt : Qgtb (inject_Z w) (inject_Z maxW) = true).
    { apply Qgtb_of_lt. rewrite <- Zlt_Qlt. lia. }
    assert (Hnle : Qle_bool (inject_Z w) (inject_Z maxW) = false).
    { unfold Qgtb in Hgt. now destruct (Qle_bool (inject_Z w) (inject_Z maxW)). }
    rewrite Hnle. cbn [andb]. rewrite Hgt. fold x. fold scaled.
    rewrite (Qgtb_of_le _ _ Hle).
    destruct (scaled_dimension h maxW w) as [Hk _]; try lia.
    fold x in Hk. unfold scaled, Math_round in *.
    rewrite createCanvas_integers.
    change 0 with (inject_Z 0) in Hpos. rewrite <- Zlt_Qlt in Hpos.
    destruct (Z.ltb_spec 0 maxW); [|lia].
    destruct (Z.ltb_spec 0 (Qfloor (x + (1 # 2)))); [|lia].
    cbn [andb]. now rewrite !assignedDimension_integer by lia.
Qed.

(** The concrete scenario 1000 x 500 under 500 x 500. *)
Lemma resizeImage_width_pass_witness :
  Math_round (js_mul (inject_Z 500) (js_div (inject_Z 500) (inject_Z 1000)))
  = inject_Z 250.
Proof.
  refine (proj1 (proj2 (resizeImage_width_pass 1000 500 500 500 _ _ _ _))
            250%Z _); lia.
Defined.

End Resizing.

(** ** RemoveBgService: the retry loop in general *)

Section ExecuteWithRetryRuns.
Context {A : Type}.
Variable this : RemoveBgService.Service.
Variable operation : nat -> Outcome A.

Let delay : nat -> Z :=
  backoffDelay (RemoveBgService.initialDelay this)
               (RemoveBgService.backoffMultiplier this).

(** The loop entered at attempt [S calls] with [n >= 1] attempts to go. *)
Lemma RemoveBgService_retryLoop_trace n :
  forall calls lastError sleeps,
    S calls + n = S (RemoveBgService.maxRetries this) -> 1 <= n ->
    exists j,
      calls <= j /\ S j <= RemoveBgService.maxRetries this
      /\ (forall k, calls <= k < j -> retryableThrow (operation k) = true)
      /\ (S j < RemoveBgService.maxRetries this ->
          retryableThrow (operation j) = false)
      /\ RemoveBgService.retryLoop this operation (seq (S calls) n)
           lastError calls sleeps
         = mkRun (settle (operation j)) (S j)
                 (sleeps ++ map delay (seq (S calls) (j - calls))).
Proof.
  induction n as [|n IH]; intros calls lastError sleeps Hsum Hn; [lia|].
  cbn [seq RemoveBgService.retryLoop].
  destruct (operation calls) as [a|e|] eqn:Hop.
  - exists calls. rewrite Hop, Nat.sub_diag, app_nil_r. cbn [settle retryableThrow].
    repeat split; lia.
  - destruct (negb (truthy_bool (err_retryable e))) eqn:Hflag.
    + exists calls. rewrite Hop, Nat.sub_diag, app_nil_r.
      cbn [settle retryableThrow].
      repeat split; try lia.
      intros _. now destruct (truthy_bool (err_retryable e)).
    + destruct (Nat.eqb (S calls) (RemoveBgService.maxRetries this)) eqn:Hlast.
      * apply Nat.eqb_eq in Hlast.
        exists calls. rewrite Hop, Nat.sub_diag, app_nil_r. cbn [settle].
        repeat split; lia.
      * apply Nat.eqb_neq in Hlast.
        destruct (IH (S calls) (Some e) (sleeps ++ [delay (S calls)])%list)
          as [j [Hj1 [Hj2 [Hj3 [Hj4 Hrun]]]]]; [lia | lia |].
        exists j. split; [lia|]. split; [exact Hj2|].
        split; [|split; [exact Hj4|]].
        -- intros k Hk. destruct (Nat.eq_dec k calls) as [->|Hne].
           ++ rewrite Hop. cbn [retryableThrow].
              now destruct (truthy_bool (err_retryable e)).
           ++ apply Hj3. lia.
        -- fold delay. rewrite Hrun. f_equal.
           rewrite <- app_assoc. f_equal.
           replace (j - calls) with (S (j - S calls)) by lia.
           reflexivity.
  - exists calls. rewrite Hop, Nat.sub_diag, app_nil_r. cbn [settle retryableThrow].
    repeat split; lia.
Qed.

(** X9. Every run of [_executeWithRetry], whatever the operation does: with
    [maxRetries] 0 the operation is never called and [undefined] is thrown;
    otherwise the run makes between one and [maxRetries] calls, every call
    but the last threw an error marked retryable, the run stops early only
    at a call that did not, its outcome is that of its last call, and it
    slept the backoff delays between its calls and no others. *)
Theorem executeWithRetry_trace :
  let run := RemoveBgService._executeWithRetry this operation in
  match run_calls run with
  | O => RemoveBgService.maxRetries this = 0
         /\ run_outcome run = ThrowUndefined /\ run_sleeps run = []
  | S j => S j <= RemoveBgService.maxRetries this
           /\ (forall k, k < j -> retryableThrow (operation k) = true)
           /\ (S j < RemoveBgService.maxRetries this ->
               retryableThrow (operation j) = false)
           /\ run_outcome run = settle (operation j)
           /\ run_sleeps run
              = backoffSchedule (RemoveBgService.initialDelay this)
                  (RemoveBgService.backoffMultiplier this) (S j)
  end.
Proof.
  unfold RemoveBgService._executeWithRetry.
  destruct (RemoveBgService.maxRetries this) as [|m] eqn:Hm.
  - cbn. auto.
  - destruct (RemoveBgService_retryLoop_trace (S m) 0 None [])
      as [j [_ [Hj2 [Hj3 [Hj4 Hrun]]]]]; [lia | lia |].
    rewrite Hm in Hj2, Hj4. cbv zeta. rewrite Hrun.
    cbn [run_calls run_outcome run_sleeps].
    split; [exact Hj2|]. split; [intros k Hk; apply Hj3; lia|].
    split; [exact Hj4|]. split; [reflexivity|].
    unfold backoffSchedule. cbn [app].
    replace (S j - 1) with j by lia. now rewrite Nat.sub_0_r.
Qed.

(** The run is settled by the first call that does not throw a retryable
    error, or by the last call the budget allows. *)
Lemma executeWithRetry_settles j :
  j < RemoveBgService.maxRetries this ->
  (forall k, k < j -> retryableThrow (operation k) = true) ->
  retryableThrow (operation j) = false
  \/ S j = RemoveBgService.maxRetries this ->
  RemoveBgService._executeWithRetry this operation
  = mkRun (settle (operation j)) (S j)
      (backoffSchedule (RemoveBgService.initialDelay this)
         (RemoveBgService.backoffMultiplier this) (S j)).
Proof.
  intros Hj Hbefore Hstop. unfold RemoveBgService._executeWithRetry.
  destruct (RemoveBgService_retryLoop_trace (RemoveBgService.maxRetries this)
              0 None []) as [j' [_ [Hj2 [Hj3 [Hj4 Hrun]]]]]; [lia | lia |].
  rewrite Hrun. cbn [app]. rewrite Nat.sub_0_r.
  assert (j' = j) as ->.
  { destruct (Nat.lt_trichotomy j' j) as [Hlt|[Heq|Hgt]]; [|exact Heq|].
    - specialize (Hbefore j' Hlt). rewrite Hj4 in Hbefore by lia. discriminate.
    - assert (Hr : retryableThrow (operation j) = true) by (apply Hj3; lia).
      destruct Hstop as [Hstop|Hstop]; [congruence | lia]. }
  unfold backoffSchedule. replace (S j - 1) with j by lia. reflexivity.
Qed.

End ExecuteWithRetryRuns.

(** ** RemoveBgService: requests and errors of [removeBackground] *)

Lemma handleApiError_retryable status :
  err_retryable (RemoveBgService._handleApiError status)
  = Some (500 <=? status)%Z.
Proof.
  unfold RemoveBgService._handleApiError, Constants.HTTP_BAD_REQUEST,
    Constants.HTTP_UNAUTHORIZED, Constants.HTTP_FORBIDDEN,
    Constants.HTTP_PAYMENT_REQUIRED, Constants.HTTP_TOO_MANY_REQUESTS,
    Constants.HTTP_INTERNAL_SERVER_ERROR, Constants.HTTP_SERVICE_UNAVAILABLE.
  destruct (Z.eqb_spec status 400) as [->|_]; [reflexivity|].
  destruct (Z.eqb_spec status 401) as [->|_]; [reflexivity|].
  destruct (Z.eqb_spec status 403) as [->|_]; [reflexivity|].
  destruct (Z.eqb_spec status 402) as [->|_]; [reflexivity|].
  destruct (Z.eqb_spec status 429) as [->|_]; [reflexivity|].
  destruct (Z.eqb_spec status 500) as [->|_]; [reflexivity|].
  destruct (Z.eqb_spec status 503) as [->|_]; [reflexivity|].
  reflexivity.
Qed.

Lemma handleApiError_classified status :
  classified (RemoveBgService._handleApiError status).
Proof.
  unfold RemoveBgService._handleApiError.
  repeat match goal with
         | |- context [if ?b then _ else _] => destruct b
         end;
    (split; [|split]); eexists; reflexivity.
Qed.

Lemma attemptPost_retryable answer :
  retryableThrow (RemoveBgService.attemptPost answer) = transient answer.
Proof.
  destruct answer as [[data|]|status| |message]; try reflexivity.
  cbn [RemoveBgService.attemptPost retryableThrow transient].
  now rewrite handleApiError_retryable.
Qed.

Lemma attemptPost_settle answer :
  settle (RemoveBgService.attemptPost answer)
  = RemoveBgService.attemptPost answer.
Proof.
  now destruct answer as [[data|]|status| |message].
Qed.

Lemma attemptPost_classified answer e :
  RemoveBgService.attemptPost answer = Throw e -> classified e.
Proof.
  destruct answer as [[data|]|status| |message];
    cbn [RemoveBgService.attemptPost]; intros H; try discriminate;
    injection H as <-; try apply handleApiError_classified;
    (split; [|split]); eexists; reflexivity.
Qed.

(** X10. [removeBackground] on a blob posts until an answer settles the
    call: when the first [j] POSTs get no response or a status from 500 on,
    and the next one gets anything else or is the last the budget allows,
    exactly [j + 1] requests are issued, the backoff delays between them
    are slept, and the call ends with the result or the error of that
    answer. *)
Theorem removeBackground_requests env this blob options w j :
  j < RemoveBgService.maxRetries this ->
  let answer k :=
    httpPost env (w_requests w + k) (RemoveBgService.endpoint this)
             (RemoveBgService.buildFormData blob options) in
  (forall k, k < j -> transient (answer k) = true) ->
  transient (answer j) = false \/ S j = RemoveBgService.maxRetries this ->
  RemoveBgService.removeBackground env this (RemoveBgService.ABlob blob)
    options w
  = (RemoveBgService.attemptPost (answer j),
     afterRequests w (S j)
       (backoffSchedule (RemoveBgService.initialDelay this)
          (RemoveBgService.backoffMultiplier this) (S j))).
Proof.
  intros Hj answer Hbefore Hstop. subst answer. cbv beta in *.
  unfold RemoveBgService.removeBackground.
  rewrite (executeWithRetry_settles this _ j Hj).
  - cbn [run_outcome run_calls run_sleeps]. now rewrite attemptPost_settle.
  - intros k Hk. rewrite attemptPost_retryable. now apply Hbefore.
  - destruct Hstop as [Hstop|Hstop]; [left|right; exact Hstop].
    now rewrite attemptPost_retryable.
Qed.

(** Two POSTs without a response, then an answer: three requests, the
    delays 1000 and 2000, and the answer returned. *)
Lemma removeBackground_requests_witness :
  RemoveBgService.removeBackground flakyEnv Samples.service
    (RemoveBgService.ABlob Samples.emptyBlob) RemoveBgService.noOptions world0
  = (Return Samples.cutout, mkWorld 0 0 0 3 [1000; 2000]%Z).
Proof.
  refine (removeBackground_requests flakyEnv Samples.service Samples.emptyBlob
            RemoveBgService.noOptions world0 2 _ _ _).
  - cbn. lia.
  - intros [|[|k]] Hk; [reflexivity | reflexivity | lia].
  - left. reflexivity.
Defined.

(** X11. With a budget of at least one attempt, [removeBackground] never
    throws [undefined]: every error it throws carries a type, a code and a
    [retryable] flag, and an error marked retryable is thrown only after
    [maxRetries] requests have been issued. *)
Theorem removeBackground_errors_classified env this imageBlob options w :
  1 <= RemoveBgService.maxRetries this ->
  let run := RemoveBgService.removeBackground env this imageBlob options w in
  match fst run with
  | Return _ => True
  | Throw e =>
      classified e
      /\ (err_retryable e = Some true ->
          w_requests (snd run)
          = w_requests w + RemoveBgService.maxRetries this)
  | ThrowUndefined => False
  end.
Proof.
  intros Hpos. unfold RemoveBgService.removeBackground.
  destruct imageBlob as [| |blob]; cbn [fst snd].
  1,2: split; [(split; [|split]); eexists; reflexivity | discriminate].
  set (operation := fun k : nat => RemoveBgService.attemptPost _).
  unfold RemoveBgService._executeWithRetry.
  destruct (RemoveBgService_retryLoop_trace this operation
              (RemoveBgService.maxRetries this) 0 None [])
    as [j [_ [Hj2 [_ [Hj4 Hrun]]]]]; [lia | lia |].
  rewrite Hrun. cbn [run_outcome run_calls run_sleeps w_requests].
  unfold operation at 1. rewrite attemptPost_settle.
  destruct (RemoveBgService.attemptPost _) as [data|e|] eqn:Hpost; [exact I| |].
  - split; [eapply attemptPost_classified; exact Hpost|].
    intros Hflag. f_equal.
    destruct (Nat.eq_dec (S j) (RemoveBgService.maxRetries this)) as [E|E];
      [exact E|].
    assert (Hlt : S j < RemoveBgService.maxRetries this) by lia.
    specialize (Hj4 Hlt). unfold operation in Hj4. rewrite Hpost in Hj4.
    cbn [retryableThrow] in Hj4. rewrite Hflag in Hj4. discriminate.
  - pose proof (attemptPost_settle
                  (httpPost env (w_requests w + j)
                     (RemoveBgService.endpoint this)
                     (RemoveBgService.buildFormData blob options))) as Hs.
    rewrite Hpost in Hs. discriminate.
Qed.

(** Against the server that answers 500 to everything. *)
Lemma removeBackground_errors_classified_witness :
  match fst (RemoveBgService.removeBackground Samples.envDown Samples.service
               (RemoveBgService.ABlob Samples.emptyBlob)
               RemoveBgService.noOptions world0) with
  | Return _ => True
  | Throw e =>
      classified e
      /\ (err_retryable e = Some true ->
          w_requests
            (snd (RemoveBgService.removeBackground Samples.envDown
                    Samples.service (RemoveBgService.ABlob Samples.emptyBlob)
                    RemoveBgService.noOptions world0))
          = w_requests world0 + RemoveBgService.maxRetries Samples.service)
  | ThrowUndefined => False
  end.
Proof.
  apply (removeBackground_errors_classified Samples.envDown Samples.service
           (RemoveBgService.ABlob Samples.emptyBlob)
           RemoveBgService.noOptions world0).
  cbn. lia.
Defined.

(** ** ErrorRecovery: the retry loop in general *)

Section RetryRuns.
Context {A : Type}.
Variable operation : nat -> Outcome A.
Variable maxAttempts : nat.
Variables initialDelay backoffMultiplier : Z.



End RetryRuns.

(** ** ErrorRecovery: cleaning up *)

Section Cleanup.
Import Resources.

Lemma Resource_eqb_eq a b : Resource_eqb a b = true <-> a = b.
Proof.
  destruct a as [i t|s|i], b as [j u|s'|j]; cbn;
    try (split; [discriminate | intros H; discriminate H]).
  - rewrite andb_true_iff, Nat.eqb_eq, Bool.eqb_true_iff.
    split; [intros [-> ->]; reflexivity | intros H; injection H; auto].
  - rewrite String.eqb_eq.
    split; [intros ->; reflexivity | intros H; injection H; auto].
  - rewrite Nat.eqb_eq.
    split; [intros ->; reflexivity | intros H; injection H; auto].
Qed.

Lemma registered_In r this :
  existsb (Resource_eqb r) (temporaryResources this) = true
  <-> In r (temporaryResources this).
Proof.
  rewrite existsb_exists. split.
  - intros [x [Hin Heq]]. apply Resource_eqb_eq in Heq. now subst.
  - intros Hin. exists r. split; [exact Hin|]. now apply Resource_eqb_eq.
Qed.

Lemma registerResource_registry x this :
  NoDup (temporaryResources this) ->
  NoDup (temporaryResources (registerResource x this))
  /\ forall r, In r (temporaryResources (registerResource x this))
               <-> In r (temporaryResources this) \/ x = r.
Proof.
  intros Hnd. unfold registerResource.
  destruct (existsb (Resource_eqb x) (temporaryResources this)) eqn:Hex.
  - apply registered_In in Hex. split; [exact Hnd|].
    intros r. split; [tauto|]. intros [H| <-]; assumption.
  - assert (Hnot : ~ In x (temporaryResources this)).
    { intros Hin. apply registered_In in Hin. congruence. }
    cbn [temporaryResources]. split.
    + apply NoDup_app; [exact Hnd | repeat constructor; intros [] |].
      intros a Ha [<-|[]]. contradiction.
    + intros r. rewrite in_app_iff. cbn [In]. tauto.
Qed.

Lemma registerAll_registry resources :
  forall this,
    NoDup (temporaryResources this) ->
    NoDup (temporaryResources (registerAll resources this))
    /\ forall r, In r (temporaryResources (registerAll resources this))
                 <-> In r (temporaryResources this) \/ In r resources.
Proof.
  induction resources as [|x rest IH]; intros this Hnd.
  - cbn. split; [exact Hnd|]. intros r. tauto.
  - change (registerAll (x :: rest) this)
      with (registerAll rest (registerResource x this)).
    destruct (registerResource_registry x this Hnd) as [G1 G2].
    destruct (IH _ G1) as [H1 H2]. split; [exact H1|].
    intros r. rewrite H2, G2. cbn [In]. tauto.
Qed.

Lemma cleanup_effects resources :
  forall fx,
    called (fold_left cleanupOne resources fx)
    = (called fx ++ filter hasCleanup resources)%list
    /\ revoked (fold_left cleanupOne resources fx)
       = (revoked fx
          ++ flat_map (fun r => match blobUrl r with
                                | Some s => [s] | None => [] end)
                      resources)%list
    /\ warnings (fold_left cleanupOne resources fx)
       = warnings fx
         + List.length
             (filter (fun r => match r with
                               | Disposable _ throws => throws
                               | _ => false end) resources).
Proof.
  induction resources as [|x rest IH]; intros fx.
  - cbn. now rewrite !app_nil_r, Nat.add_0_r.
  - cbn [fold_left]. destruct (IH (cleanupOne fx x)) as [H1 [H2 H3]].
    rewrite H1, H2, H3.
    destruct x as [i [|]|s|i]; cbn [cleanupOne called revoked warnings filter
                                    hasCleanup flat_map blobUrl List.length app].
    + rewrite <- !app_assoc. cbn [app]. repeat split; lia.
    + rewrite <- !app_assoc. cbn [app]. repeat split; lia.
    + destruct (String.prefix "blob:" s);
        cbn [called revoked warnings app]; rewrite <- ?app_assoc;
        repeat split; reflexivity.
    + repeat split; reflexivity.
Qed.

Lemma throwing_are_called resources :
  filter (fun r => match r with
                   | Disposable _ throws => throws
                   | _ => false end) resources
  = filter (fun r => match r with
                     | Disposable _ throws => throws
                     | _ => false end) (filter hasCleanup resources).
Proof.
  induction resources as [|x rest IH]; [reflexivity|].
  destruct x as [i [|]|s|i]; simpl; now rewrite <- ?IH.
Qed.

(** X13. After any sequence of [registerResource] calls on a new instance,
    repetitions included, [cleanup] calls the [cleanup] method of every
    registered object exactly once, whether or not another one throws,
    logs one warning per method that threw, revokes exactly the registered
    [blob:] URLs, and leaves the registry empty, so that a second [cleanup]
    or a [reset] does nothing more. *)
Theorem cleanup_once resources :
  let this := registerAll resources constructor in
  let fx0 := mkEffects [] [] 0 in
  let '(this', fx) := cleanup this fx0 in
  temporaryResources this' = []
  /\ NoDup (called fx)
  /\ (forall r, In r (called fx) <-> In r resources /\ hasCleanup r = true)
  /\ (forall s, In s (revoked fx)
                <-> In (Text s) resources /\ String.prefix "blob:" s = true)
  /\ warnings fx
     = List.length (filter (fun r => match r with
                                     | Disposable _ throws => throws
                                     | _ => false end) (called fx))
  /\ cleanup this' fx = (this', fx)
  /\ reset this' fx = (this', fx).
Proof.
  cbv zeta. unfold reset, cleanup. cbn [temporaryResources fold_left].
  destruct (registerAll_registry resources constructor) as [Hnd Hin];
    [constructor|].
  destruct (cleanup_effects
              (temporaryResources (registerAll resources constructor))
              (mkEffects [] [] 0)) as [H1 [H2 H3]].
  cbn [called revoked warnings app Nat.add] in H1, H2, H3.
  split; [reflexivity|]. rewrite H1, H2, H3.
  split; [now apply NoDup_filter|].
  split; [|split; [|split; [|split; reflexivity]]].
  - intros r. rewrite filter_In, Hin. cbn [constructor temporaryResources In].
    tauto.
  - intros s. rewrite in_flat_map. split.
    + intros [r [Hr Hs]]. apply Hin in Hr.
      cbn [constructor temporaryResources In] in Hr.
      destruct Hr as [[]|Hr].
      destruct r as [i t|s'|i]; cbn [blobUrl] in Hs; try contradiction.
      destruct (String.prefix "blob:" s') eqn:Hp; [|contradiction].
      destruct Hs as [<-|[]]. auto.
    + intros [Hr Hp]. exists (Text s). split; [apply Hin; now right|].
      cbn [blobUrl]. rewrite Hp. now left.
  - f_equal. apply throwing_are_called.
Qed.

End Cleanup.

(** ** ImageProcessorService: the cache over the life of an instance *)

Section CacheInvariant.
Import ImageProcessorService Constants.

Lemma cache_set_length key value m :
  List.length (cache_set key value m) <= S (List.length m).
Proof.
  induction m as [|[k v] rest IH]; cbn; [lia|].
  destruct (String.eqb k key); cbn; lia.
Qed.

Lemma cache_set_keys_in key value m x :
  In x (cache_keys (cache_set key value m)) -> x = key \/ In x (cache_keys m).
Proof.
  induction m as [|[k v] rest IH]; cbn.
  - intros [<-|[]]. now left.
  - destruct (String.eqb k key); cbn; [tauto|].
    intros [<-|H]; [tauto|]. destruct (IH H); tauto.
Qed.

Lemma cache_set_NoDup key value m :
  NoDup (cache_keys m) -> NoDup (cache_keys (cache_set key value m)).
Proof.
  induction m as [|[k v] rest IH]; cbn; intros Hnd.
  - repeat constructor. intros [].
  - destruct (String.eqb k key) eqn:E; cbn; [exact Hnd|].
    inversion Hnd as [|? ? Hnot Hrest]; subst. constructor; [|now apply IH].
    intros Hin. apply cache_set_keys_in in Hin. destruct Hin as [->|Hin].
    + now rewrite String.eqb_refl in E.
    + contradiction.
Qed.

Lemma cache_delete_NoDup key m :
  NoDup (cache_keys m) -> NoDup (cache_keys (cache_delete key m)).
Proof.
  intros Hnd. rewrite cache_keys_delete. now apply NoDup_filter.
Qed.

Lemma afterEviction_length m :
  List.length m <= MAX_CACHE_SIZE ->
  S (List.length (afterEviction m)) <= MAX_CACHE_SIZE.
Proof.
  unfold afterEviction, MAX_CACHE_SIZE. intros Hle.
  destruct (Nat.leb 10 (List.length m)) eqn:E.
  - apply Nat.leb_le in E. destruct m as [|[k v] rest]; [cbn in E; lia|].
    cbn [cache_keys map fst]. unfold cache_delete. cbn [filter].
    rewrite String.eqb_refl. cbn [negb].
    pose proof (filter_length_le
                  (fun '(k0, _) => negb (String.eqb k0 k)) rest) as H.
    cbn [List.length] in Hle. lia.
  - apply Nat.leb_gt in E. lia.
Qed.

Lemma afterEviction_NoDup m :
  NoDup (cache_keys m) -> NoDup (cache_keys (afterEviction m)).
Proof.
  unfold afterEviction. intros Hnd.
  destruct (Nat.leb MAX_CACHE_SIZE (List.length m)); [|exact Hnd].
  destruct (cache_keys m) eqn:E;
    [|apply cache_delete_NoDup]; rewrite E; exact Hnd.
Qed.

(** What one call of [processImage] can do to the instance. *)
Lemma processImage_cache env imageFile this w :
  let this' := fst (snd (processImage env imageFile (this, w))) in
  backgroundRemovalApi this' = backgroundRemovalApi this
  /\ exists m1,
      (m1 = cache this \/ exists key, m1 = cache_delete key (cache this))
      /\ (cache this' = m1
          \/ exists key entry,
               cache this' = cache_set key entry (afterEviction m1)).
Proof.
  cbv zeta.
  assert (Hstay : forall e,
             processImage env imageFile (this, w) = (Throw e, (this, tick w)) ->
             backgroundRemovalApi
               (fst (snd (processImage env imageFile (this, w))))
             = backgroundRemovalApi this
             /\ exists m1,
                 (m1 = cache this
                  \/ exists key, m1 = cache_delete key (cache this))
                 /\ (cache (fst (snd (processImage env imageFile (this, w))))
                     = m1
                     \/ exists key entry,
                          cache (fst (snd (processImage env imageFile
                                             (this, w))))
                          = cache_set key entry (afterEviction m1))).
  { intros e ->. cbn [fst snd]. split; [reflexivity|].
    exists (cache this). auto. }
  destruct imageFile as [| |f].
  1,2: destruct (processImage_rejects env _ this w
                   ltac:(first [left; reflexivity
                               | right; left; reflexivity])) as [e He];
       exact (Hstay e He).
  destruct (backgroundRemovalApi this) as [api|] eqn:Hapi.
  2: { destruct (processImage_rejects env (AFile f) this w
                   (or_intror (or_intror Hapi))) as [e He].
       exact (Hstay e He). }
  clear Hstay. rewrite (processImage_lookup env f this w api Hapi).
  destruct (liveEntry env (_generateCacheKey f) this w) as [cached|].
  { cbn [fst snd]. split; [exact Hapi|]. exists (cache this). auto. }
  set (s0 := match cache_get (_generateCacheKey f) (cache this) with
             | Some _ => _
             | None => _
             end).
  assert (Hs0 : backgroundRemovalApi (fst s0) = Some api
                /\ (cache (fst s0) = cache this
                    \/ cache (fst s0)
                       = cache_delete (_generateCacheKey f) (cache this))).
  { subst s0. destruct (cache_get (_generateCacheKey f) (cache this));
      cbn [fst backgroundRemovalApi cache]; auto. }
  destruct s0 as [this0 w0]. cbn [fst] in Hs0. destruct Hs0 as [Hapi0 Hc0].
  pose proof (tryCatch_rethrow_run
                (processUncached env f (_generateCacheKey f)
                   (clock env (w_ticks w))) (this0, w0)) as Hrun.
  destruct (processUncached env f (_generateCacheKey f)
              (clock env (w_ticks w)) (this0, w0)) as [o [this1 w1]] eqn:Hun.
  apply processUncached_run in Hun. destruct Hun as [_ Hun].
  assert (Hstate : fst (snd (tryCatch
                               (processUncached env f (_generateCacheKey f)
                                  (clock env (w_ticks w)))
                               rethrowClassified (this0, w0))) = this1).
  { destruct o as [r|e|]; [now rewrite Hrun | |];
      destruct Hrun as [e' ->]; reflexivity. }
  rewrite Hstate.
  assert (Hm1 : cache this0 = cache this
                \/ exists key, cache this0 = cache_delete key (cache this)).
  { destruct Hc0 as [->| ->]; [now left | right; eauto]. }
  destruct o as [r|e|].
  - destruct Hun as [_ [_ [_ [ts ->]]]]. cbn [backgroundRemovalApi cache].
    split; [exact Hapi0|]. exists (cache this0). split; [exact Hm1|].
    right. eauto.
  - subst this1. split; [exact Hapi0|]. exists (cache this0). auto.
  - subst this1. split; [exact Hapi0|]. exists (cache this0). auto.
Qed.

Lemma reachable_cache env s :
  Reachable env s ->
  List.length (cache (fst s)) <= MAX_CACHE_SIZE
  /\ NoDup (cache_keys (cache (fst s))).
Proof.
  induction 1 as [w|apiService this w _ IH|this w _ IH|this w w' _ IH
                 |imageFile [this w] _ IH]; cbn [fst] in *.
  - cbn. split; [unfold MAX_CACHE_SIZE; lia | constructor].
  - exact IH.
  - cbn. split; [unfold MAX_CACHE_SIZE; lia | constructor].
  - exact IH.
  - destruct IH as [Hlen Hnd].
    destruct (processImage_cache env imageFile this w)
      as [_ [m1 [Hm1 Hcache]]].
    assert (H1 : List.length m1 <= MAX_CACHE_SIZE /\ NoDup (cache_keys m1)).
    { destruct Hm1 as [->|[key ->]]; [auto|].
      split; [|now apply cache_delete_NoDup].
      pose proof (cache_delete_length key (cache this)). lia. }
    destruct H1 as [Hlen1 Hnd1].
    destruct Hcache as [->|[key [entry ->]]]; [auto|].
    split.
    + pose proof (cache_set_length key entry (afterEviction m1)).
      pose proof (afterEviction_length m1 Hlen1). lia.
    + now apply cache_set_NoDup, afterEviction_NoDup.
Qed.

(** X14. In every state an instance reaches from [new] through
    [setBackgroundRemovalApi], [clearCache] and [processImage] calls, with
    any arguments and outcomes, [getCacheStats] reports a size of at most
    [maxSize] (10), keys that are pairwise distinct, and as many keys as the
    size. *)
Theorem cache_capacity env s :
  Reachable env s ->
  let '(size, maxSize, keys) := getCacheStats (fst s) in
  size <= maxSize /\ maxSize = 10 /\ NoDup keys /\ List.length keys = size.
Proof.
  intros Hs. destruct (reachable_cache env s Hs) as [Hlen Hnd].
  unfold getCacheStats. split; [exact Hlen|]. split; [reflexivity|].
  split; [exact Hnd|]. unfold cache_keys. apply length_map.
Qed.

(** The instance after the first run on the sample photo. *)
Lemma cache_capacity_witness :
  let '(size, maxSize, keys) :=
    getCacheStats (fst (snd Samples.firstRun)) in
  size <= maxSize /\ maxSize = 10 /\ NoDup keys /\ List.length keys = size.
Proof.
  apply (cache_capacity Samples.env (snd Samples.firstRun)).
  unfold Samples.firstRun, Samples.processor0.
  apply Reachable_process, Reachable_setApi, Reachable_new.
Defined.

End CacheInvariant.

(** ** ImageProcessorService: storing and looking up *)

Section CacheRoundTrip.
Import ImageProcessorService Constants.

(** X15. A result stored by [_cacheResult] is what [_getCachedResult]
    returns for its key as long as the clock has advanced by no more than
    [CACHE_EXPIRATION_TIME] since it was stored, the instant of expiry
    included, and the lookup leaves the cache as it is; once the entry is
    older, the lookup returns [null] and removes that entry and no
    other. *)
Theorem cacheResult_then_lookup env key r this w w2 :
  let stored := fst (snd (_cacheResult env key r (this, w))) in
  let lookup := _getCachedResult env key (stored, w2) in
  let age := (clock env (w_ticks w2) - clock env (w_ticks w))%Z in
  if (age <=? CACHE_EXPIRATION_TIME)%Z
  then lookup = (Return (Some r), (stored, tick w2))
  else fst lookup = Return None
       /\ cache_get key (cache (fst (snd lookup))) = None
       /\ forall k, k <> key ->
            cache_get k (cache (fst (snd lookup)))
            = cache_get k (cache stored).
Proof.
  cbv zeta. rewrite cacheResult_run. cbn [fst snd].
  rewrite getCachedResult_run. cbn [cache backgroundRemovalApi].
  rewrite cache_get_set_same. cbn [timestamp result].
  destruct (Z.leb_spec (clock env (w_ticks w2) - clock env (w_ticks w))
                       CACHE_EXPIRATION_TIME) as [Hle|Hgt].
  - assert (E : (CACHE_EXPIRATION_TIME
                 <? clock env (w_ticks w2) - clock env (w_ticks w))%Z = false)
      by (apply Z.ltb_ge; exact Hle).
    now rewrite E.
  - assert (E : (CACHE_EXPIRATION_TIME
                 <? clock env (w_ticks w2) - clock env (w_ticks w))%Z = true)
      by (apply Z.ltb_lt; exact Hgt).
    rewrite E. cbn [fst snd cache]. split; [reflexivity|].
    split.
    + rewrite cache_get_delete. now rewrite String.eqb_refl.
    + intros k Hk. rewrite cache_get_delete.
      destruct (String.eqb key k) eqn:Ek; [|reflexivity].
      apply String.eqb_eq in Ek. congruence.
Qed.

End CacheRoundTrip.

(** ** ImageProcessorService: the errors of [processImage] *)

Section TidySteps.
Import ImageProcessorService Constants.

Lemma createError_classified type code details retryable :
  classified (_createError type code details retryable).
Proof. (split; [|split]); eexists; reflexivity. Qed.

Lemma plainError_wellFormed message : wellFormed (plainError message).
Proof. now right. Qed.

Lemma Tidy_ret {A} (a : A) : Tidy (ret a).
Proof. intros this w Hb. cbn. auto. Qed.

Lemma Tidy_throw {A} e : wellFormed e -> Tidy (@throw St A e).
Proof. intros He this w Hb. cbn. auto. Qed.

Lemma Tidy_now env : Tidy (now env).
Proof. intros this w Hb. cbn. auto. Qed.

Lemma Tidy_getApi : Tidy getApi.
Proof. intros this w Hb. cbn. auto. Qed.

Lemma Tidy_getCache : Tidy getCache.
Proof. intros this w Hb. cbn. auto. Qed.

Lemma Tidy_putCache m : Tidy (putCache m).
Proof. intros this w Hb. cbn. auto. Qed.

Lemma Tidy_readBlob env blob : Tidy (readBlob env blob).
Proof. intros this w Hb. cbn. auto. Qed.

Lemma Tidy_bind {A B} (m : M St A) (k : A -> M St B) :
  Tidy m -> (forall a, Tidy (k a)) -> Tidy (bind m k).
Proof.
  intros Hm Hk this w Hb. rewrite bind_run. specialize (Hm this w Hb).
  destruct (m (this, w)) as [[a|e|] [this1 w1]]; cbn [fst snd] in Hm |- *;
    try exact Hm.
  destruct Hm as [Hb1 _]. exact (Hk a this1 w1 Hb1).
Qed.

Lemma Tidy_tryCatch {A} (m : M St A) handler :
  Tidy m -> (forall e, wellFormed e -> Tidy (handler (Some e))) ->
  Tidy (tryCatch m handler).
Proof.
  intros Hm Hh this w Hb. unfold tryCatch. specialize (Hm this w Hb).
  destruct (m (this, w)) as [[a|e|] [this1 w1]]; cbn [fst snd] in Hm |- *.
  - exact Hm.
  - destruct Hm as [Hb1 He]. exact (Hh e He this1 w1 Hb1).
  - destruct Hm as [_ []].
Qed.

Lemma createCanvas_outcome width height :
  match CanvasUtility.createCanvas width height with
  | Return _ => True
  | Throw e => wellFormed e
  | ThrowUndefined => False
  end.
Proof.
  unfold CanvasUtility.createCanvas.
  match goal with
  | |- context [if ?b then _ else _] => destruct b
  end; [apply plainError_wellFormed | exact I].
Qed.

Lemma Tidy_resizeImage image maxWidth maxHeight :
  Tidy (call (CanvasUtility.resizeImage image maxWidth maxHeight)).
Proof.
  intros this w Hb. cbn [call fst snd]. split; [exact Hb|].
  unfold CanvasUtility.resizeImage.
  destruct image as [|img]; [apply plainError_wellFormed|].
  repeat (match goal with
          | |- context [if ?b then _ else _] => destruct b
          end; cbv beta iota zeta);
    first [apply createCanvas_outcome | apply plainError_wellFormed].
Qed.

Lemma Tidy_loadImage env dataUrl : Tidy (CanvasUtility.loadImage env dataUrl).
Proof.
  unfold CanvasUtility.loadImage.
  destruct (String.eqb dataUrl "");
    [apply Tidy_throw, plainError_wellFormed|].
  destruct (decodeImage env dataUrl);
    [apply Tidy_ret | apply Tidy_throw, plainError_wellFormed].
Qed.

Lemma Tidy_imageToBlob env canvas format quality :
  Tidy (CanvasUtility.imageToBlob env canvas format quality).
Proof.
  unfold CanvasUtility.imageToBlob.
  destruct (negb _); [apply Tidy_throw, plainError_wellFormed|].
  destruct (_ || _); [apply Tidy_throw, plainError_wellFormed|].
  destruct (canvasToBlob env canvas format quality);
    [apply Tidy_ret | apply Tidy_throw, plainError_wellFormed].
Qed.

Lemma Tidy_fileToDataUrl env file : Tidy (_fileToDataUrl env file).
Proof.
  unfold _fileToDataUrl. apply Tidy_bind; [apply Tidy_readBlob|].
  intros [dataUrl|]; [apply Tidy_ret|].
  apply Tidy_throw. left. apply createError_classified.
Qed.

Lemma Tidy_blobToDataUrl env blob : Tidy (blobToDataUrl env blob).
Proof.
  unfold blobToDataUrl. apply Tidy_bind; [apply Tidy_readBlob|].
  intros [dataUrl|]; [apply Tidy_ret|].
  apply Tidy_throw. left. apply createError_classified.
Qed.

Lemma Tidy_compressImage env imageFile image :
  Tidy (compressImage env imageFile image).
Proof.
  unfold compressImage. apply Tidy_tryCatch.
  - destruct (_ && _); [apply Tidy_ret|].
    apply Tidy_bind; [apply Tidy_resizeImage|]. intros canvas.
    apply Tidy_bind; [apply Tidy_imageToBlob|]. intros blob. apply Tidy_ret.
  - intros e He. cbn [messageIn].
    apply Tidy_bind; [intros this w Hb; cbn; auto|]. intros message.
    apply Tidy_throw. left. apply createError_classified.
Qed.

Lemma Tidy_prepareImageForApi env imageFile image :
  Tidy (_prepareImageForApi env imageFile image).
Proof.
  unfold _prepareImageForApi.
  destruct (_ || _); [apply Tidy_compressImage | apply Tidy_ret].
Qed.

(** With a budget of at least one attempt the API service throws only
    classified errors, and never [undefined]. *)
Lemma RemoveBgService_errors_classified env api imageBlob options w :
  1 <= RemoveBgService.maxRetries api ->
  match fst (RemoveBgService.removeBackground env api imageBlob options w) with
  | Return _ => True
  | Throw e => classified e
  | ThrowUndefined => False
  end.
Proof.
  intros Hpos. unfold RemoveBgService.removeBackground.
  destruct imageBlob as [| |blob]; cbn [fst].
  1,2: (split; [|split]); eexists; reflexivity.
  set (operation := fun k : nat => RemoveBgService.attemptPost _).
  unfold RemoveBgService._executeWithRetry.
  destruct (RemoveBgService_retryLoop_trace api operation
              (RemoveBgService.maxRetries api) 0 None [])
    as [j [_ [_ [_ [_ Hrun]]]]]; [lia | lia |].
  rewrite Hrun. cbn [run_outcome]. unfold operation.
  rewrite attemptPost_settle.
  destruct (RemoveBgService.attemptPost _) as [data|e|] eqn:Hpost; [exact I| |].
  - eapply attemptPost_classified; exact Hpost.
  - pose proof (attemptPost_settle
                  (httpPost env (w_requests w + j)
                     (RemoveBgService.endpoint api)
                     (RemoveBgService.buildFormData blob options))) as Hs.
    rewrite Hpost in Hs. discriminate.
Qed.

Lemma Tidy_removeBackground env imageBlob options :
  Tidy (removeBackground env imageBlob options).
Proof.
  intros this w Hb. unfold removeBackground. rewrite bind_run.
  cbn [getApi]. destruct (backgroundRemovalApi this) as [api|] eqn:Hapi.
  - rewrite bind_run. unfold invokeApi.
    pose proof (RemoveBgService_errors_classified env api
                  (RemoveBgService.ABlob imageBlob) (apiOptionsOf options)
                  (mkWorld (w_ticks w) (w_reads w) (S (w_invocations w))
                     (w_requests w) (w_sleeps w)) (Hb api Hapi)) as Hout.
    destruct (RemoveBgService.removeBackground _ _ _ _ _) as [[b|e|] w'];
      cbn [fst snd] in Hout |- *; [split; [exact Hb | exact I] | |].
    + split; [exact Hb | left; exact Hout].
    + destruct Hout.
  - cbn. split; [exact Hb | left; apply createError_classified].
Qed.

Lemma Tidy_cacheResult env cacheKey r : Tidy (_cacheResult env cacheKey r).
Proof.
  intros this w Hb. rewrite cacheResult_run. cbn [fst snd]. split; [|exact I].
  intros api Hapi. exact (Hb api Hapi).
Qed.

Lemma Tidy_getCachedResult env cacheKey : Tidy (_getCachedResult env cacheKey).
Proof.
  intros this w Hb. rewrite getCachedResult_run.
  destruct (cache_get cacheKey (cache this)); [|cbn; auto].
  destruct (_ <? _)%Z; cbn [fst snd]; split; try exact I; exact Hb.
Qed.

Lemma Tidy_processUncached env imageFile cacheKey startTime :
  Tidy (processUncached env imageFile cacheKey startTime).
Proof.
  unfold processUncached.
  apply Tidy_bind; [apply Tidy_fileToDataUrl|]. intros originalDataUrl.
  apply Tidy_bind; [apply Tidy_loadImage|]. intros originalImage.
  apply Tidy_bind; [apply Tidy_prepareImageForApi|]. intros imageBlob.
  apply Tidy_bind; [apply Tidy_removeBackground|]. intros extractedBlob.
  apply Tidy_bind; [apply Tidy_blobToDataUrl|]. intros finalDataUrl.
  apply Tidy_bind; [apply Tidy_loadImage|]. intros finalImage.
  apply Tidy_bind; [apply Tidy_now|]. intros now_.
  apply Tidy_bind; [apply Tidy_cacheResult|]. intros _. apply Tidy_ret.
Qed.

Lemma Tidy_processBody env imageFile startTime :
  Tidy (match imageFile with
        | NoFile | NotAFile =>
            throw (_createError PROCESSING_ERROR API_BAD_REQUEST
                     "Invalid image file provided" false)
        | AFile imageFile =>
            bind getApi (fun api =>
              match api with
              | None =>
                  throw (_createError API_ERROR API_SERVICE_UNAVAILABLE
                           "Background removal service not configured" false)
              | Some _ =>
                  bind (_getCachedResult env (_generateCacheKey imageFile))
                    (fun cachedResult =>
                       match cachedResult with
                       | Some cachedResult =>
                           bind (now env) (fun now_ =>
                             ret (mkResult (originalDataUrl cachedResult)
                                    (extractedDataUrl cachedResult)
                                    (width cachedResult) (height cachedResult)
                                    (now_ - startTime)%Z true))
                       | None =>
                           processUncached env imageFile
                             (_generateCacheKey imageFile) startTime
                       end)
              end)
        end).
Proof.
  destruct imageFile as [| |f].
  1,2: apply Tidy_throw; left; apply createError_classified.
  apply Tidy_bind; [apply Tidy_getApi|]. intros [api|].
  - apply Tidy_bind; [apply Tidy_getCachedResult|]. intros [cached|].
    + apply Tidy_bind; [apply Tidy_now|]. intros now_. apply Tidy_ret.
    + apply Tidy_processUncached.
  - apply Tidy_throw. left. apply createError_classified.
Qed.

(** X16. When the configured API service has a budget of at least one
    attempt, every error [processImage] throws, on any argument and in any
    environment, carries a non-empty type, a non-empty code and a
    [retryable] flag. *)
Theorem processImage_errors_classified env imageFile this w e s' :
  budgeted this ->
  processImage env imageFile (this, w) = (Throw e, s') ->
  classified e
  /\ truthy_str (err_type e) = true /\ truthy_str (err_code e) = true.
Proof.
  intros Hb. unfold processImage. rewrite bind_run. cbn [now].
  unfold tryCatch.
  match goal with
  | |- match ?m ?s with _ => _ end = _ -> _ =>
      pose proof (Tidy_processBody env imageFile (clock env (w_ticks w))
                    this (tick w) Hb) as Hbody;
      change s with (this, tick w);
      change m with
        (match imageFile with
         | NoFile | NotAFile =>
             throw (_createError PROCESSING_ERROR API_BAD_REQUEST
                      "Invalid image file provided" false)
         | AFile imageFile =>
             bind getApi (fun api =>
               match api with
               | None =>
                   throw (_createError API_ERROR API_SERVICE_UNAVAILABLE
                            "Background removal service not configured" false)
               | Some _ =>
                   bind (_getCachedResult env (_generateCacheKey imageFile))
                     (fun cachedResult =>
                        match cachedResult with
                        | Some cachedResult =>
                            bind (now env) (fun now_ =>
                              ret (mkResult (originalDataUrl cachedResult)
                                     (extractedDataUrl cachedResult)
                                     (width cachedResult)
                                     (height cachedResult)
                                     (now_ - clock env (w_ticks w))%Z true))
                        | None =>
                            processUncached env imageFile
                              (_generateCacheKey imageFile)
                              (clock env (w_ticks w))
                        end)
               end)
         end);
      destruct (m (this, tick w)) as [[r|e0|] s0]
  end; cbn [fst snd] in Hbody.
  - discriminate.
  - destruct Hbody as [_ He0]. cbn [rethrowClassified].
    destruct (truthy_str (err_type e0) && truthy_str (err_code e0)) eqn:Hcheck.
    + cbn [throw]. intros H. injection H as <- _.
      apply andb_true_iff in Hcheck. destruct Hcheck as [Ht Hc].
      split; [|auto]. destruct He0 as [He0|He0]; [exact He0|].
      rewrite He0 in Ht. discriminate.
    + cbn [throw]. intros H. injection H as <- _.
      split; [apply createError_classified|]. split; reflexivity.
  - destruct Hbody as [_ []].
Qed.

(** The run against the server that answers 500 to everything. *)
Lemma processImage_errors_classified_witness :
  classified Samples.failedError
  /\ truthy_str (err_type Samples.failedError) = true
  /\ truthy_str (err_code Samples.failedError) = true.
Proof.
  apply (processImage_errors_classified Samples.envDown
           (AFile Samples.photo) Samples.processor0 world0
           Samples.failedError (snd Samples.failedRun)).
  - intros api H. cbn in H. injection H as <-. cbn. lia.
  - vm_compute. reflexivity.
Defined.

End TidySteps.

(** ** ImageProcessorService: what is sent to the API *)

Section Prepare.
Import ImageProcessorService Constants.

Lemma imageToBlob_png env canvas (s : St) :
  CanvasUtility.imageToBlob env canvas OUTPUT_FORMAT PNG_QUALITY s
  = match canvasToBlob env canvas OUTPUT_FORMAT PNG_QUALITY with
    | Some blob => (Return blob, s)
    | None => (Throw (plainError (messageOf CANVAS_ERROR)), s)
    end.
Proof.
  unfold CanvasUtility.imageToBlob.
  change (negb (String.prefix "image/" OUTPUT_FORMAT)) with false.
  change (Qgtb 0 PNG_QUALITY || Qgtb PNG_QUALITY 1) with false.
  cbv iota. now destruct (canvasToBlob env canvas OUTPUT_FORMAT PNG_QUALITY).
Qed.

(** X17. For a decoded image of positive size (at most 2147483647 each
    way), a blob that [_prepareImageForApi] returns is the uploaded file
    itself when the image is at most 2000 x 2000, and otherwise the PNG
    made from a canvas whose whole, positive dimensions exceed neither
    2000 x 2000 nor those of the image; the instance and the world are left
    as they were. *)
Theorem prepareImageForApi_sends env imageFile image this w b s' :
  (0 < img_width image <= 2147483647)%Z ->
  (0 < img_height image <= 2147483647)%Z ->
  _prepareImageForApi env imageFile image (this, w) = (Return b, s') ->
  s' = (this, w)
  /\ (((img_width image <= 2000)%Z /\ (img_height image <= 2000)%Z
       /\ b = file_blob imageFile)
      \/ (((2000 < img_width image)%Z \/ (2000 < img_height image)%Z)
          /\ exists w' h' : Z,
               (0 < w' <= Z.min (img_width image) 2000)%Z
               /\ (0 < h' <= Z.min (img_height image) 2000)%Z
               /\ canvasToBlob env (mkCanvas (inject_Z w') (inject_Z h'))
                    "image/png" (95 # 100)
                  = Some b)).
Proof.
  intros Hw Hh. unfold _prepareImageForApi, MAX_IMAGE_WIDTH, MAX_IMAGE_HEIGHT.
  destruct ((2000 <? img_width image)%Z || (2000 <? img_height image)%Z)
    eqn:Hneed.
  - assert (Hbig : (2000 < img_width image)%Z \/ (2000 < img_height image)%Z).
    { apply orb_true_iff in Hneed.
      destruct Hneed as [H|H]; apply Z.ltb_lt in H; auto. }
    unfold compressImage, tryCatch, MAX_IMAGE_WIDTH, MAX_IMAGE_HEIGHT.
    assert (Hfits : (img_width image <=? 2000)%Z
                    && (img_height image <=? 2000)%Z = false).
    { apply andb_false_iff.
      destruct Hbig as [H|H]; [left|right]; apply Z.leb_gt; exact H. }
    rewrite Hfits, bind_run. cbn [call].
    destruct image as [iw ih]. cbn [img_width img_height] in *.
    destruct (resizeImage_dimensions iw ih 2000 2000) as
        [w' [h' [-> [Hw' [Hh' _]]]]]; try lia.
    rewrite createCanvas_integers.
    destruct (Z.ltb_spec 0 w') as [Pw|Pw], (Z.ltb_spec 0 h') as [Ph|Ph];
      cbn [andb]; try (cbn; discriminate).
    rewrite !assignedDimension_integer by lia.
    rewrite bind_run, imageToBlob_png.
    destruct (canvasToBlob env _ OUTPUT_FORMAT PNG_QUALITY) as [blob|] eqn:Hblob;
      [|cbn; discriminate].
    cbn [ret]. intros H. injection H as <- <-. split; [reflexivity|].
    right. split; [exact Hbig|].
    exists w', h'. split; [lia|]. split; [lia | exact Hblob].
  - cbn [ret]. intros H. injection H as <- <-. split; [reflexivity|].
    left. apply orb_false_iff in Hneed. destruct Hneed as [H1 H2].
    apply Z.ltb_ge in H1, H2. auto.
Qed.

(** A 3000 x 2000 image is sent as the PNG of a canvas. *)
Lemma prepareImageForApi_sends_witness :
  (Samples.processor0, world0) = (Samples.processor0, world0)
  /\ (((3000 <= 2000)%Z /\ (2000 <= 2000)%Z
       /\ mkBlob "resized" "image/png" = file_blob Samples.photo)
      \/ (((2000 < 3000)%Z \/ (2000 < 2000)%Z)
          /\ exists w' h' : Z,
               (0 < w' <= Z.min 3000 2000)%Z
               /\ (0 < h' <= Z.min 2000 2000)%Z
               /\ canvasToBlob studioEnv
                    (mkCanvas (inject_Z w') (inject_Z h'))
                    "image/png" (95 # 100)
                  = Some (mkBlob "resized" "image/png"))).
Proof.
  apply (prepareImageForApi_sends studioEnv Samples.photo (mkImage 3000 2000)
           Samples.processor0 world0 (mkBlob "resized" "image/png")
           (Samples.processor0, world0)).
  - cbn. lia.
  - cbn. lia.
  - vm_compute. reflexivity.
Defined.

End Prepare.

(** ** PatternExtractor: the dominant colour *)

Section DominantColour.
Import PatternExtractor.

Lemma Color_eqb_eq a b : Color_eqb a b = true <-> a = b.
Proof.
  destruct a as [r g b0], b as [r' g' b']. unfold Color_eqb. cbn.
  rewrite !andb_true_iff, !Z.eqb_eq. split.
  - intros [[-> ->] ->]. reflexivity.
  - intros H. injection H. auto.
Qed.

Lemma Color_eqb_refl a : Color_eqb a a = true.
Proof. now apply Color_eqb_eq. Qed.

Lemma Color_eqb_sym a b : Color_eqb a b = Color_eqb b a.
Proof.
  destruct (Color_eqb a b) eqn:E.
  - apply Color_eqb_eq in E. subst. now rewrite Color_eqb_refl.
  - destruct (Color_eqb b a) eqn:E'; [|reflexivity].
    apply Color_eqb_eq in E'. subst. now rewrite Color_eqb_refl in E.
Qed.

Lemma countOf_bump c key counts :
  countOf c (bump key counts)
  = (countOf c counts + if Color_eqb key c then 1 else 0)%Z.
Proof.
  unfold countOf. induction counts as [|[k n] rest IH]; cbn [bump find].
  - destruct (Color_eqb key c); reflexivity.
  - destruct (Color_eqb k key) eqn:Ek; cbn [find].
    + apply Color_eqb_eq in Ek. subst k.
      destruct (Color_eqb key c); [reflexivity | lia].
    + destruct (Color_eqb k c) eqn:Ec; [|exact IH].
      apply Color_eqb_eq in Ec. subst k.
      rewrite Color_eqb_sym, Ek. lia.
Qed.

Lemma bump_keys key counts :
  NoDup (map fst counts) -> NoDup (map fst (bump key counts))
  /\ forall k, In k (map fst (bump key counts))
               -> k = key \/ In k (map fst counts).
Proof.
  induction counts as [|[k n] rest IH]; cbn [bump map fst]; intros Hnd.
  - split; [repeat constructor; intros [] | intros k [<-|[]]; now left].
  - destruct (Color_eqb k key) eqn:Ek; cbn [map fst].
    + split; [exact Hnd | intros k0 H; now right].
    + inversion Hnd as [|? ? Hnot Hrest]; subst.
      destruct (IH Hrest) as [H1 H2]. split.
      * constructor; [|exact H1]. intros Hin.
        destruct (H2 _ Hin) as [->|Hin']; [|contradiction].
        now rewrite Color_eqb_refl in Ek.
      * intros k0 [<-|Hin]; [right; now left|].
        destruct (H2 _ Hin); [now left | right; now right].
Qed.

Lemma counted samples :
  forall counts,
    NoDup (map fst counts) ->
    let counts' := fold_left (fun cs c => bump c cs) samples counts in
    NoDup (map fst counts')
    /\ forall c, countOf c counts'
                 = (countOf c counts + occurrences c samples)%Z.
Proof.
  induction samples as [|x rest IH]; intros counts Hnd; cbn [fold_left].
  - split; [exact Hnd|]. intros c. unfold occurrences. cbn. lia.
  - destruct (bump_keys x counts Hnd) as [Hnd' _].
    destruct (IH _ Hnd') as [H1 H2]. split; [exact H1|].
    intros c. rewrite H2, countOf_bump. unfold occurrences. cbn [filter].
    rewrite (Color_eqb_sym c x).
    destruct (Color_eqb x c); cbn [List.length]; lia.
Qed.

Lemma countOf_entry k n counts :
  NoDup (map fst counts) -> In (k, n) counts -> countOf k counts = n.
Proof.
  unfold countOf.
  induction counts as [|[k0 n0] rest IH]; cbn [map fst find In];
    intros Hnd Hin; [contradiction|].
  inversion Hnd as [|? ? Hnot Hrest]; subst.
  destruct Hin as [E|Hin].
  - injection E as -> ->. now rewrite Color_eqb_refl.
  - destruct (Color_eqb k0 k) eqn:Ek; [|now apply IH].
    apply Color_eqb_eq in Ek. subst k0. exfalso. apply Hnot.
    change k with (fst (k, n)). now apply in_map.
Qed.

Lemma countOf_found c counts :
  countOf c counts <> 0%Z -> In (c, countOf c counts) counts.
Proof.
  unfold countOf.
  destruct (find (fun '(k, _) => Color_eqb k c) counts) as [[k n]|] eqn:E;
    [|intros H; now elim H].
  intros _. apply find_some in E. destruct E as [Hin Hk].
  apply Color_eqb_eq in Hk. now subst k.
Qed.

Lemma most_counted counts :
  forall maxCount dominant,
    let best :=
      fold_left (fun '((maxCount, dominant) : Z * Color)
                     '((key, count) : Color * Z) =>
                   if (maxCount <? count)%Z then (count, key)
                   else (maxCount, dominant))
                counts (maxCount, dominant) in
    (maxCount <= fst best)%Z
    /\ (forall k n, In (k, n) counts -> (n <= fst best)%Z)
    /\ (best = (maxCount, dominant) \/ In (snd best, fst best) counts).
Proof.
  induction counts as [|[k n] rest IH]; intros maxCount dominant;
    cbn [fold_left].
  - cbn. split; [lia|]. split; [intros k n []|now left].
  - destruct (Z.ltb_spec maxCount n) as [Hlt|Hge].
    + destruct (IH n k) as [H1 [H2 H3]]. cbv zeta in H1, H2, H3.
      split; [lia|]. split.
      * intros k' n' [E|Hin]; [injection E as <- <-; exact H1 | eauto].
      * right. destruct H3 as [->|H3]; [now left | now right].
    + destruct (IH maxCount dominant) as [H1 [H2 H3]].
      cbv zeta in H1, H2, H3. split; [exact H1|]. split.
      * intros k' n' [E|Hin]; [injection E as <- <-; lia | eauto].
      * destruct H3 as [H3|H3]; [now left | right; now right].
Qed.

Lemma colorCounts_samples pixels width height :
  fold_left (fun counts y =>
    fold_left (fun counts x =>
      let index := ((y * width + x) * 4)%nat in
      let alpha := pixel pixels (index + 3) in
      if (200 <? alpha)%Z then
        let r := (pixel pixels index / 32 * 32)%Z in
        let g := (pixel pixels (index + 1) / 32 * 32)%Z in
        let b := (pixel pixels (index + 2) / 32 * 32)%Z in
        bump (mkColor r g b) counts
      else counts)
      (strided width 10) counts)
    (strided height 10) []
  = fold_left (fun cs c => bump c cs) (sampledColors pixels width height) [].
Proof.
  unfold sampledColors. generalize (@nil (Color * Z)).
  induction (strided height 10) as [|y ys IHy]; intros counts;
    [reflexivity|].
  cbn [fold_left flat_map]. rewrite fold_left_app, <- IHy. f_equal.
  clear IHy. revert counts.
  induction (strided width 10) as [|x xs IHx]; intros counts; [reflexivity|].
  cbn [fold_left flat_map]. rewrite fold_left_app, <- IHx. f_equal.
  cbv zeta. now destruct (200 <? _)%Z.
Qed.

(** X18. [_detectDominantColor] returns black when no sampled pixel is more
    opaque than 200; otherwise it returns the quantised colour of one of
    those pixels, and no quantised colour occurs among them more often. *)
Theorem detectDominantColor_most_frequent pixels width height :
  let samples := sampledColors pixels width height in
  let dominant := _detectDominantColor pixels width height in
  match samples with
  | [] => dominant = mkColor 0 0 0
  | _ :: _ =>
      In dominant samples
      /\ forall c, (occurrences c samples <= occurrences dominant samples)%Z
  end.
Proof.
  cbv zeta. unfold _detectDominantColor. cbv zeta.
  rewrite colorCounts_samples.
  destruct (counted (sampledColors pixels width height) [])
    as [Hnd Hcount]; [constructor|].
  cbv zeta in Hnd, Hcount.
  set (counts := fold_left (fun cs c => bump c cs)
                   (sampledColors pixels width height) []) in *.
  destruct (most_counted counts 0%Z (mkColor 0 0 0)) as [H1 [H2 H3]].
  cbv zeta in H1, H2, H3.
  set (best := fold_left _ counts (0%Z, mkColor 0 0 0)) in *.
  destruct (sampledColors pixels width height) as [|c0 rest] eqn:Hs.
  - subst counts best. reflexivity.
  - assert (Hocc : forall c, countOf c counts = occurrences c (c0 :: rest)).
    { intros c. rewrite Hcount. unfold countOf. cbn. lia. }
    assert (Hc0 : (1 <= occurrences c0 (c0 :: rest))%Z).
    { unfold occurrences. cbn [filter]. rewrite Color_eqb_refl.
      cbn [List.length]. lia. }
    assert (Hin0 : In (c0, countOf c0 counts) counts).
    { apply countOf_found. rewrite Hocc. lia. }
    assert (Hbest : (1 <= fst best)%Z).
    { specialize (H2 _ _ Hin0). rewrite Hocc in H2. lia. }
    destruct H3 as [H3|H3]; [rewrite H3 in Hbest; cbn in Hbest; lia|].
    assert (Hdom : occurrences (snd best) (c0 :: rest) = fst best).
    { rewrite <- Hocc. now apply countOf_entry. }
    split.
    + assert (Hpos : (1 <= occurrences (snd best) (c0 :: rest))%Z) by lia.
      unfold occurrences in Hpos.
      destruct (filter (Color_eqb (snd best)) (c0 :: rest)) as [|x l] eqn:Hf;
        [cbn in Hpos; lia|].
      assert (Hx : In x (filter (Color_eqb (snd best)) (c0 :: rest)))
        by (rewrite Hf; now left).
      apply filter_In in Hx. destruct Hx as [Hx Heq].
      apply Color_eqb_eq in Heq. now subst x.
    + intros c. rewrite Hdom.
      destruct (Z.eq_dec (countOf c counts) 0) as [E|E].
      * rewrite <- Hocc, E. lia.
      * rewrite <- Hocc. apply (H2 c). now apply countOf_found.
Qed.

End DominantColour.

(** ** RemoveBgService: the form that is posted *)

Section FormFields.
Import RemoveBgService.

(** X19. Whatever the options (each property of its documented type,
    missing, [undefined] or [null]), the form [removeBackground] posts starts
    with the image and the size, type and format parameters, names no
    field twice, carries a crop margin only together with [crop=true], and
    never carries the default position or region; it carries [crop=true]
    exactly when the options say [crop: true].  Through
    [ImageProcessorService.removeBackground] cropping is on exactly when
    the caller's options have no [crop] property of their own or say
    [crop: true]: an own [crop] that is false, [undefined] or [null]
    switches it off. *)
Theorem buildFormData_fields blob options :
  let form := buildFormData blob options in
  firstn 4 form
  = [("image_file", FBlob blob);
     ("size", FStr (asString (bound (opt_size options) "auto")));
     ("type", FStr (asString (bound (opt_type options) "auto")));
     ("format", FStr (asString (bound (opt_format options) "png")))]
  /\ NoDup (map fst form)
  /\ (In "crop_margin" (map fst form) -> In ("crop", FStr "true") form)
  /\ ~ In ("position", FStr "original") form
  /\ ~ In ("roi", FStr "0% 0% 100% 100%") form
  /\ (In ("crop", FStr "true") form <-> opt_crop options = Is true)
  /\ (In ("crop", FStr "true")
         (buildFormData blob (ImageProcessorService.apiOptionsOf options))
      <-> opt_crop options = Absent \/ opt_crop options = Is true).
Proof.
  assert (Hcrop : forall o,
             In ("crop", FStr "true") (buildFormData blob o)
             <-> truthy_bool (bound (opt_crop o) false) = true).
  { intros o. unfold buildFormData.
    set (position := truthy_str _ && negb _).
    set (roi := truthy_str _ && negb _).
    destruct (truthy_bool (bound (opt_crop o) false)).
    - split; [reflexivity|]. intros _.
      apply in_or_app. right. apply in_or_app. left. now left.
    - split; [|discriminate]. intros Hin.
      repeat (apply in_app_or in Hin; destruct Hin as [Hin|Hin]).
      + cbn [In] in Hin. intuition discriminate.
      + destruct Hin.
      + destruct position; cbn [In] in Hin; intuition discriminate.
      + destruct roi; cbn [In] in Hin; intuition discriminate. }
  cbv zeta. split; [reflexivity|].
  split; [|split; [|split; [|split; [|split]]]].
  - unfold buildFormData.
    destruct (truthy_bool (bound (opt_crop options) false));
      destruct (truthy_str (bound (opt_crop_margin options) "0px"));
      destruct (truthy_str (bound (opt_position options) "original")
                && negb (String.eqb
                           (asString (bound (opt_position options) "original"))
                           "original"));
      destruct (truthy_str (bound (opt_roi options) "0% 0% 100% 100%")
                && negb (String.eqb
                           (asString (bound (opt_roi options)
                                        "0% 0% 100% 100%"))
                           "0% 0% 100% 100%"));
      cbn [map fst app];
      repeat (constructor; [cbn [In]; intuition discriminate|]);
      constructor.
  - intros Hm. apply Hcrop. unfold buildFormData in Hm.
    destruct (truthy_bool (bound (opt_crop options) false)); [reflexivity|].
    exfalso. revert Hm.
    destruct (_ && _); destruct (_ && _); cbn [map fst app In];
      intuition discriminate.
  - unfold buildFormData. intros Hin.
    repeat (apply in_app_or in Hin; destruct Hin as [Hin|Hin]).
    + cbn [In] in Hin. intuition discriminate.
    + destruct (truthy_bool _); [|destruct Hin].
      destruct (truthy_str _); cbn [In] in Hin; intuition discriminate.
    + destruct (truthy_str (bound (opt_position options) "original"));
        [|destruct Hin].
      destruct (String.eqb (asString (bound (opt_position options) "original"))
                  "original") eqn:E; [destruct Hin|].
      cbn [negb andb In] in Hin. destruct Hin as [Hin|[]].
      injection Hin as Hin. rewrite Hin, String.eqb_refl in E. discriminate.
    + destruct (_ && _); cbn [In] in Hin; intuition discriminate.
  - unfold buildFormData. intros Hin.
    repeat (apply in_app_or in Hin; destruct Hin as [Hin|Hin]).
    + cbn [In] in Hin. intuition discriminate.
    + destruct (truthy_bool _); [|destruct Hin].
      destruct (truthy_str _); cbn [In] in Hin; intuition discriminate.
    + destruct (_ && _); cbn [In] in Hin; intuition discriminate.
    + destruct (truthy_str (bound (opt_roi options) "0% 0% 100% 100%"));
        [|destruct Hin].
      destruct (String.eqb (asString (bound (opt_roi options)
                                        "0% 0% 100% 100%"))
                  "0% 0% 100% 100%") eqn:E; [destruct Hin|].
      cbn [negb andb In] in Hin. destruct Hin as [Hin|[]].
      injection Hin as Hin. rewrite Hin, String.eqb_refl in E. discriminate.
  - rewrite Hcrop. destruct (opt_crop options) as [| | |[|]]; cbn;
      split; intros H; try reflexivity; discriminate.
  - rewrite Hcrop. unfold ImageProcessorService.apiOptionsOf.
    cbn [opt_crop].
    destruct (opt_crop options) as [| | |[|]]; cbn;
      split; intros H; try reflexivity; try discriminate; auto;
      destruct H; discriminate.
Qed.

End FormFields.

(** ** ImageProcessorService: calls that are turned away *)

Section Rejected.
Import ImageProcessorService Constants.

(** X20. Without a [File] argument, or without a configured API service,
    [processImage] throws a non-retryable error (a processing error for
    the argument, which is checked first, an API error for the missing
    service) after one reading of the clock: it reads no file, invokes no
    API, posts nothing and leaves the cache as it was. *)
Theorem processImage_rejects_early env imageFile this w :
  imageFile = NoFile \/ imageFile = NotAFile
  \/ backgroundRemovalApi this = None ->
  exists e,
    processImage env imageFile (this, w) = (Throw e, (this, tick w))
    /\ err_retryable e = Some false
    /\ err_type e
       = Some (match imageFile with
               | AFile _ => API_ERROR
               | _ => PROCESSING_ERROR
               end)
    /\ err_code e
       = Some (match imageFile with
               | AFile _ => API_SERVICE_UNAVAILABLE
               | _ => API_BAD_REQUEST
               end).
Proof.
  intros Hcase. destruct imageFile as [| |f].
  1,2: eexists; split; [reflexivity|]; repeat split.
  destruct Hcase as [H|[H|Hapi]]; try discriminate.
  destruct this as [api m]. cbn in Hapi. subst api.
  eexists. split; [reflexivity|]. repeat split.
Qed.

(** A new instance has no service configured. *)
Lemma processImage_rejects_early_witness :
  exists e,
    processImage Samples.env (AFile Samples.photo) (constructor, world0)
    = (Throw e, (constructor, tick world0))
    /\ err_retryable e = Some false
    /\ err_type e = Some API_ERROR
    /\ err_code e = Some API_SERVICE_UNAVAILABLE.
Proof.
  apply (processImage_rejects_early Samples.env (AFile Samples.photo)
           constructor world0).
  right. right. reflexivity.
Defined.

End Rejected.

(** ** RemoveBgService: services built by the constructor *)

Section Constructed.
Context {A : Type}.
Import RemoveBgService.
Variable this : Service.
Variable operation : nat -> Outcome A.

(** Once an error has been caught the run never throws [undefined]. *)
Lemma retryLoopUnder_after limit fuel :
  forall attempt e calls sleeps r,
    retryLoopUnder this limit operation fuel attempt (Some e) calls sleeps
    = Some r ->
    calls <= run_calls r /\ run_outcome r <> ThrowUndefined.
Proof.
  induction fuel as [|fuel IH]; intros attempt e calls sleeps r;
    cbn [retryLoopUnder].
  - destruct (negb (withinBudget attempt limit)); [|discriminate].
    intros [= <-]. cbn. split; [lia | discriminate].
  - destruct (negb (withinBudget attempt limit)).
    { intros [= <-]. cbn. split; [lia | discriminate]. }
    destruct (operation calls) as [a|e'|].
    + intros [= <-]. cbn. split; [lia | discriminate].
    + destruct (negb (truthy_bool (err_retryable e'))).
      { intros [= <-]. cbn. split; [lia | discriminate]. }
      destruct (lastAttempt attempt limit).
      { intros [= <-]. cbn. split; [lia | discriminate]. }
      intros Hr. apply IH in Hr. split; [lia | tauto].
    + intros [= <-]. cbn. split; [lia | discriminate].
Qed.

(** Under a finite limit the loop ends: fuel for the attempts up to the
    limit is enough, and no more calls are made than that. *)
Lemma retryLoopUnder_ends q fuel :
  forall attempt lastError calls sleeps,
    (q < inject_Z (Z.of_nat (attempt + fuel)))%Q ->
    exists r,
      retryLoopUnder this (Fin q) operation fuel attempt lastError calls
        sleeps = Some r
      /\ run_calls r <= calls + fuel.
Proof.
  induction fuel as [|fuel IH]; intros attempt lastError calls sleeps Hq;
    cbn [retryLoopUnder].
  - rewrite Nat.add_0_r in Hq. cbn [withinBudget].
    destruct (Qle_bool (inject_Z (Z.of_nat attempt)) q) eqn:Hle.
    + apply Qle_bool_iff in Hle. exfalso.
      exact (Qlt_not_le _ _ Hq Hle).
    + cbn. eexists. split; [reflexivity | cbn; lia].
  - destruct (negb (withinBudget attempt (Fin q))).
    { eexists. split; [reflexivity | cbn; lia]. }
    destruct (operation calls) as [a|e|].
    + eexists. split; [reflexivity | cbn; lia].
    + destruct (negb (truthy_bool (err_retryable e))).
      { eexists. split; [reflexivity | cbn; lia]. }
      destruct (lastAttempt attempt (Fin q)).
      { eexists. split; [reflexivity | cbn; lia]. }
      destruct (IH (S attempt) (Some e) (S calls)
                  (sleeps ++ [backoffDelay (initialDelay this)
                                (backoffMultiplier this) attempt])%list)
        as [r [Hr Hcalls]].
      { replace (S attempt + fuel) with (attempt + S fuel) by lia.
        exact Hq. }
      exists r. split; [exact Hr | lia].
    + eexists. split; [reflexivity | cbn; lia].
Qed.

(** With the whole count of [this] as the limit, the loop is the one of
    [_executeWithRetry]. *)
Lemma retryLoopUnder_whole n :
  forall attempt lastError calls sleeps,
    attempt + n = S (maxRetries this) ->
    retryLoopUnder this (Fin (inject_Z (Z.of_nat (maxRetries this))))
      operation n attempt lastError calls sleeps
    = Some (retryLoop this operation (seq attempt n) lastError calls sleeps).
Proof.
  induction n as [|n IH]; intros attempt lastError calls sleeps Hsum;
    cbn [retryLoopUnder seq retryLoop withinBudget lastAttempt].
  - destruct (Qle_bool _ _) eqn:Hle; [|reflexivity].
    apply Qle_bool_iff in Hle. rewrite <- Zle_Qle in Hle. lia.
  - destruct (Qle_bool _ _) eqn:Hle.
    2:{ exfalso. apply not_true_iff_false in Hle. apply Hle.
        apply Qle_bool_iff. rewrite <- Zle_Qle. lia. }
    cbn [negb].
    destruct (operation calls) as [a|e|]; try reflexivity.
    destruct (negb (truthy_bool (err_retryable e))); [reflexivity|].
    assert (Hlast : Qeq_bool (inject_Z (Z.of_nat attempt))
                      (inject_Z (Z.of_nat (maxRetries this)))
                    = Nat.eqb attempt (maxRetries this)).
    { destruct (Nat.eqb attempt (maxRetries this)) eqn:Heq.
      - apply Nat.eqb_eq in Heq. rewrite Heq. apply Qeq_bool_iff.
        reflexivity.
      - apply Nat.eqb_neq in Heq. apply not_true_iff_false. intros Hq.
        apply Qeq_bool_iff in Hq. rewrite inject_Z_injective in Hq. lia. }
    rewrite Hlast.
    destruct (Nat.eqb attempt (maxRetries this)); [reflexivity|].
    apply IH. lia.
Qed.

(** What the constructor keeps of a whole count. *)
Lemma keptMaxRetries_whole count :
  keptMaxRetries (configuredCount count)
  = Fin (inject_Z (Z.of_nat (orNat count Constants.MAX_ATTEMPTS))).
Proof.
  destruct count as [[|n]|]; reflexivity.
Qed.

(** X21. Whatever number a caller configures as [maxRetries], the
    constructor keeps it unless it is missing, 0 or [NaN], when it keeps
    the default 3.  If the number kept is below 1 (a negative number or a
    fraction), [_executeWithRetry] never calls the operation and throws
    [undefined].  If it is at least 1, a run calls the operation at least
    once and never throws [undefined]; under a finite number it ends after
    at most as many calls as the whole part of that number.  For a service
    that the constructor builds from a whole count the run is the one of
    [_executeWithRetry] on that service, whose count is at least 1.  The
    constructor throws exactly when the API key is empty. *)
Theorem constructed_service_attempts (configured : Given JsNum) :
  let kept := keptMaxRetries configured in
  let run := executeWithRetryUnder this kept operation in
  (kept = match configured with
          | Is (Fin q) => if Qeq_bool q 0 then Fin (inject_Z 3) else Fin q
          | Is PosInf => PosInf
          | Is NegInf => NegInf
          | _ => Fin (inject_Z 3)
          end)
  /\ (withinBudget 1 kept = false ->
      forall fuel, run fuel = Some (mkRun ThrowUndefined 0 []))
  /\ (withinBudget 1 kept = true ->
      forall fuel r, run fuel = Some r ->
        1 <= run_calls r /\ run_outcome r <> ThrowUndefined)
  /\ (forall q, kept = Fin q ->
      exists r, run (Z.to_nat (Qfloor q)) = Some r
                /\ run_calls r <= Z.to_nat (Qfloor q))
  /\ (forall apiKey config,
        constructor apiKey config = Return this ->
        configured = configuredCount (cfg_maxRetries config) ->
        kept = Fin (inject_Z (Z.of_nat (maxRetries this)))
        /\ 1 <= maxRetries this
        /\ run (maxRetries this) = Some (_executeWithRetry this operation))
  /\ (forall apiKey config,
        (exists e, constructor apiKey config = Throw e) <-> apiKey = "").
Proof.
  intros kept run. split.
  { subst kept. destruct configured as [| | |[| | |q]]; reflexivity. }
  split.
  { intros Hout fuel. subst run. unfold executeWithRetryUnder.
    destruct fuel; cbn [retryLoopUnder]; rewrite Hout; reflexivity. }
  split.
  { intros Hin fuel r. subst run. unfold executeWithRetryUnder.
    destruct fuel as [|fuel]; cbn [retryLoopUnder]; rewrite Hin; cbn [negb];
      [discriminate|].
    destruct (operation 0) as [a|e|].
    - intros [= <-]. cbn. split; [lia | discriminate].
    - destruct (negb (truthy_bool (err_retryable e))).
      { intros [= <-]. cbn. split; [lia | discriminate]. }
      destruct (lastAttempt 1 kept).
      { intros [= <-]. cbn. split; [lia | discriminate]. }
      intros Hr. apply retryLoopUnder_after in Hr. exact Hr.
    - intros [= <-]. cbn. split; [lia | discriminate]. }
  split.
  { intros q Hq. subst run. rewrite Hq. unfold executeWithRetryUnder.
    destruct (retryLoopUnder_ends q (Z.to_nat (Qfloor q)) 1 None 0 [])
      as [r [Hr Hcalls]].
    - apply Qlt_le_trans with (inject_Z (Qfloor q + 1)).
      + apply Qlt_floor.
      + rewrite <- Zle_Qle. lia.
    - exists r. split; [exact Hr | lia]. }
  split.
  { intros apiKey0 config Hnew Hconf.
    pose proof (constructor_maxRetries_pos _ _ _ Hnew) as Hpos.
    assert (Hkept : kept = Fin (inject_Z (Z.of_nat (maxRetries this)))).
    { subst kept. rewrite Hconf, keptMaxRetries_whole.
      unfold constructor in Hnew.
      destruct (String.eqb apiKey0 ""); [discriminate|].
      injection Hnew as <-. reflexivity. }
    split; [exact Hkept|]. split; [exact Hpos|].
    subst run. rewrite Hkept. unfold executeWithRetryUnder, _executeWithRetry.
    apply retryLoopUnder_whole. lia. }
  intros apiKey0 config. unfold constructor.
  destruct (String.eqb apiKey0 "") eqn:Hkey.
  - apply String.eqb_eq in Hkey. split; [intros _; exact Hkey|].
    intros _. eexists. reflexivity.
  - apply String.eqb_neq in Hkey. split; [|contradiction].
    intros [e He]. discriminate.
Qed.

End Constructed.

(** With [maxRetries: -1] the operation is never called and [undefined]
    is thrown. *)
Lemma constructed_service_attempts_witness :
  RemoveBgService.executeWithRetryUnder Samples.service
    (RemoveBgService.keptMaxRetries (Is (Fin (inject_Z (-1)))))
    (Samples.alwaysThrows Samples.error503) 4
  = Some (mkRun ThrowUndefined 0 []).
Proof.
  apply (proj1 (proj2 (constructed_service_attempts Samples.service
                         (Samples.alwaysThrows Samples.error503)
                         (Is (Fin (inject_Z (-1))))))).
  reflexivity.
Defined.
